(** * ortfodb: description parsing and build orchestration

    A shallow embedding of the description-document pipeline of ortfodb
    (ui.go: header splitting, language sectioning, block classification,
    attribute sigils, abbreviations), of the media analysis loop and of the
    build orchestrator (build.go), with the properties of the specification
    stated against it.

    Go strings are modelled by [string] (a sequence of bytes).  Every
    character the code compares against (space, tab, newline, the sigils, the
    dash, the brackets) is ASCII, and no byte of a multi-byte UTF-8 sequence
    is ASCII, so on valid UTF-8 the byte-wise reading below coincides with the
    rune-wise loops of the source.  Go maps are [gmap]s; where the order of a
    [range] loop over a map can be observed, the map is given by its entries
    in visiting order, or visited in the order of [map_to_list].  The file
    system, the log and the clock are an explicit [OS.World] that the
    orchestrator passes along.  Functions of other packages and functions of
    this package that are not in the sources are fields of the [externals]
    records. *)

From Stdlib Require Import Ascii String List Bool Arith Lia.
From stdpp Require Import base option list strings gmap.

Local Open Scope string_scope.
Local Open Scope list_scope.

(** ** Strings *)

Module Str.

(** [[]rune(s)] *)
Definition runes (s : string) : list ascii := list_ascii_of_string s.

(** [string(rs)] *)
Definition ofRunes (rs : list ascii) : string := string_of_list_ascii rs.

(** [strings.HasPrefix] *)
Definition HasPrefix (s p : string) : bool := String.prefix p s.

(** [strings.HasSuffix] *)
Definition HasSuffix (s p : string) : bool :=
  String.prefix (ofRunes (rev (runes p))) (ofRunes (rev (runes s))).

(** [strings.TrimPrefix] *)
Definition TrimPrefix (s p : string) : string :=
  if HasPrefix s p
  then String.substring (String.length p) (String.length s - String.length p) s
  else s.

(** [strings.Repeat] *)
Fixpoint Repeat (s : string) (n : nat) : string :=
  match n with
  | O => ""
  | S n => s +:+ Repeat s n
  end.

(** [strings.Count(s, c)] for a one-byte separator. *)
Definition Count (s : string) (c : ascii) : nat :=
  List.length (List.filter (Ascii.eqb c) (runes s)).

(** [strings.Trim(s, c)] for a one-byte cutset: strips [c] at both ends. *)
Definition Trim (s : string) (c : ascii) : string :=
  let strip := fix strip (l : list ascii) : list ascii :=
    match l with
    | x :: l' => if Ascii.eqb x c then strip l' else l
    | [] => []
    end in
  ofRunes (rev (strip (rev (strip (runes s))))).

(** [strings.Split(s, "\n")]: the lines of a text.  The result is never
    empty; a text that ends in a newline has a last, empty line. *)
Fixpoint splitRunes (sep : ascii) (l : list ascii) : list (list ascii) :=
  match l with
  | [] => [[]]
  | c :: l' =>
      if Ascii.eqb c sep then [] :: splitRunes sep l'
      else match splitRunes sep l' with
           | cur :: rest => (c :: cur) :: rest
           | [] => [[c]]
           end
  end.

Definition nl : ascii := "010".
Definition tab : ascii := "009".
Definition quote : ascii := "034".
Definition newline : string := String nl "".

Definition Lines (s : string) : list string := map ofRunes (splitRunes nl (runes s)).

(** [strings.Contains] *)
Fixpoint containsFrom (fuel : nat) (s sub : string) : bool :=
  String.prefix sub s ||
  match fuel, s with
  | S fuel, String _ s' => containsFrom fuel s' sub
  | _, _ => false
  end.

Definition Contains (s sub : string) : bool := containsFrom (String.length s) s sub.

End Str.

(** ** Attribute sigils (ui.go, ExtractAttributesFromAlt) *)

(** MediaAttributes stores which HTML attributes should be added to the media. *)
Record MediaAttributes := mkMediaAttributes {
  Loop : bool;        (* Controlled with attribute character ~ (adds) *)
  Autoplay : bool;    (* Controlled with attribute character > (adds) *)
  Muted : bool;       (* Controlled with attribute character > (adds) *)
  Playsinline : bool; (* Controlled with attribute character = (adds) *)
  Controls : bool     (* Controlled with attribute character = (removes) *)
}.

Module Sigils.

Definition RuneLoop : ascii := "~".
Definition RuneAutoplay : ascii := ">".
Definition RuneHideControls : ascii := "=".

Definition isMediaEmbedAttribute (char : ascii) : bool :=
  Ascii.eqb char RuneAutoplay || Ascii.eqb char RuneLoop || Ascii.eqb char RuneHideControls.

(** [utf8.DecodeLastRuneInString]: [None] stands for [utf8.RuneError], which
    the empty string yields and which is no sigil. *)
Definition DecodeLastRuneInString (s : string) : option ascii := last (Str.runes s).

Definition lastRuneIsAttribute (alt : string) : bool :=
  match DecodeLastRuneInString alt with
  | Some r => isMediaEmbedAttribute r
  | None => false
  end.

(** [MediaAttributes{Controls: true}] *)
Definition defaultAttributes : MediaAttributes :=
  {| Loop := false; Autoplay := false; Muted := false; Playsinline := false; Controls := true |}.

(** The variables of the backward loop. *)
Record decoder := mkDecoder {
  attrs : MediaAttributes;
  altText : string;
  inAttributesZone : bool
}.

(** One iteration of [for i := len([]rune(alt)) - 1; i >= 0; i--]. *)
Definition decodeRune (st : decoder) (char : ascii) : decoder :=
  if Ascii.eqb char " " && inAttributesZone st then
    {| attrs := attrs st; altText := altText st; inAttributesZone := false |}
  else if inAttributesZone st then
    let a := attrs st in
    let a' :=
      if Ascii.eqb char RuneAutoplay then
        {| Loop := Loop a; Autoplay := true; Muted := true;
           Playsinline := Playsinline a; Controls := Controls a |}
      else if Ascii.eqb char RuneLoop then
        {| Loop := true; Autoplay := Autoplay a; Muted := Muted a;
           Playsinline := Playsinline a; Controls := Controls a |}
      else if Ascii.eqb char RuneHideControls then
        {| Loop := Loop a; Autoplay := Autoplay a; Muted := Muted a;
           Playsinline := true; Controls := false |}
      else a in
    {| attrs := a'; altText := altText st; inAttributesZone := true |}
  else
    {| attrs := attrs st; altText := String char (altText st); inAttributesZone := false |}.

Definition decodeLoop (backwards : list ascii) (st : decoder) : decoder :=
  fold_left decodeRune backwards st.

(** ExtractAttributesFromAlt extracts sigils from the end of the alt
    attribute, returns the alt without them as well as the parse result.
    The loop is read byte by byte.  The space and the sigils are ASCII, so
    the attributes are those of the loop over runes on every input, and so
    is the clean alt on valid UTF-8; of bytes that are no valid UTF-8 the
    loop over runes keeps U+FFFD instead. *)
Definition ExtractAttributesFromAlt (alt : string) : string * MediaAttributes :=
  if negb (lastRuneIsAttribute alt) then (alt, defaultAttributes)
  else
    let st := decodeLoop (rev (Str.runes alt))
                {| attrs := defaultAttributes; altText := ""; inAttributesZone := true |} in
    (altText st, attrs st).

(** The characters the loop reads while it is in the attributes zone: none
    when the last rune is no sigil, otherwise everything after the last
    space of the alt text. *)
Fixpoint zoneOf (backwards : list ascii) : list ascii :=
  match backwards with
  | [] => []
  | c :: l => if Ascii.eqb c " " then [] else c :: zoneOf l
  end.

Definition consumed (alt : string) : list ascii :=
  if lastRuneIsAttribute alt then zoneOf (rev (Str.runes alt)) else [].

Definition occurs (c : ascii) (l : list ascii) : bool := existsb (Ascii.eqb c) l.

(** What a run of zone characters does to each flag (used to state the loop
    invariant). *)
Definition zoneEffect (zone : list ascii) (a : MediaAttributes) : MediaAttributes :=
  {| Loop := Loop a || occurs RuneLoop zone;
     Autoplay := Autoplay a || occurs RuneAutoplay zone;
     Muted := Muted a || occurs RuneAutoplay zone;
     Playsinline := Playsinline a || occurs RuneHideControls zone;
     Controls := Controls a && negb (occurs RuneHideControls zone) |}.

End Sigils.


(** ** Regular expressions of ui.go

    The two patterns of the source are matched by Go's [regexp] (RE2 syntax,
    leftmost-first, greedy).  Neither is compiled with the [m] or [s] flag, so
    [^] and [$] are the ends of the text and [.] is any character but a
    newline, while [\s] is one of tab, newline, form feed, carriage return and
    space.  The matchers below follow the patterns piece by piece. *)

Module Regexp.

Definition isSpace (c : ascii) : bool :=
  Ascii.eqb c Str.tab || Ascii.eqb c Str.nl || Ascii.eqb c "012"
  || Ascii.eqb c "013" || Ascii.eqb c " ".

Fixpoint spanSpaces (l : list ascii) : list ascii * list ascii :=
  match l with
  | c :: l' =>
      if isSpace c then let (ws, rest) := spanSpaces l' in (c :: ws, rest)
      else ([], l)
  | [] => ([], [])
  end.

(** [\s+(.+)$], anchored at the start of [l]; the result is the group.  The
    greedy [\s+] takes the whole run of white space, unless nothing would be
    left for [.+], in which case it gives its last character back. *)
Definition spacesThenRest (l : list ascii) : option (list ascii) :=
  let (ws, rest) := spanSpaces l in
  match ws, rest with
  | [], _ => None
  | _ :: _, _ :: _ => if existsb (Ascii.eqb Str.nl) rest then None else Some rest
  | _ :: _, [] =>
      match rev ws with
      | c :: _ :: _ => if Ascii.eqb c Str.nl then None else Some [c]
      | _ => None
      end
  end.

(** [PatternLanguageMarker = `^::\s+(.+)$`]: [Some] of the first group when
    the text matches ([MatchString], [FindStringSubmatch(...)[1]]). *)
Definition languageMarker (text : string) : option string :=
  match Str.runes text with
  | c1 :: c2 :: l =>
      if Ascii.eqb c1 ":" && Ascii.eqb c2 ":" then Str.ofRunes <$> spacesThenRest l
      else None
  | _ => None
  end.

(** [[^\]]+] followed by [\]]: the characters up to the first closing
    bracket, and what follows it. *)
Fixpoint untilBracket (l : list ascii) : option (list ascii * list ascii) :=
  match l with
  | [] => None
  | c :: l' =>
      if Ascii.eqb c "]" then Some ([], l')
      else '(name, rest) ← untilBracket l'; Some (c :: name, rest)
  end.

(** [PatternAbbreviationDefinition = `^\s*\*\[([^\]]+)\]:\s+(.+)$`]: [Some]
    of the two groups when the text matches. *)
Definition abbreviationDefinition (text : string) : option (string * string) :=
  match (spanSpaces (Str.runes text)).2 with
  | c1 :: c2 :: l =>
      if Ascii.eqb c1 "*" && Ascii.eqb c2 "[" then
        match untilBracket l with
        | Some (c :: name, c3 :: l') =>
            if Ascii.eqb c3 ":" then
              definition ← spacesThenRest l';
              Some (Str.ofRunes (c :: name), Str.ofRunes definition)
            else None
        | _ => None
        end
      else None
  | _ => None
  end.

End Regexp.

(** ** Header/body splitter (ui.go, ParseYAMLHeader) *)

Module Header.

(** [for strings.HasPrefix(line, "\t") { line = strings.Repeat(" ", 4) +
    strings.TrimPrefix(line, "\t") }], with fuel for the loop. *)
Fixpoint expandTabsLoop (fuel : nat) (line : string) : option string :=
  if Str.HasPrefix line (String Str.tab "") then
    match fuel with
    | O => None
    | S fuel =>
        expandTabsLoop fuel (Str.Repeat " " 4 +:+ Str.TrimPrefix line (String Str.tab ""))
    end
  else Some line.

(** The loop never needs more than one turn (see [expandTabsLoop_total]). *)
Definition expandTabs (line : string) : string :=
  default line (expandTabsLoop 2 line).

(** A YAML header separator is 3 or more dashes on a line (without anything
    else on the same line). *)
Definition isSeparator (line : string) : bool :=
  String.eqb (Str.Trim line "-") "" && Nat.leb 3 (Str.Count line "-").

Record splitter := mkSplitter {
  inYAMLHeader : bool;
  rawYAMLPart : string;
  markdownPart : string
}.

(** The part of the loop body below the tab expansion: delimiter detection
    and accumulation, on the expanded line. *)
Definition accumulate (st : splitter) (line : string) : splitter :=
  if isSeparator line then
    {| inYAMLHeader := negb (inYAMLHeader st);
       rawYAMLPart := rawYAMLPart st; markdownPart := markdownPart st |}
  else if inYAMLHeader st then
    {| inYAMLHeader := true;
       rawYAMLPart := rawYAMLPart st +:+ line +:+ Str.newline;
       markdownPart := markdownPart st |}
  else
    {| inYAMLHeader := false;
       rawYAMLPart := rawYAMLPart st;
       markdownPart := markdownPart st +:+ line +:+ Str.newline |}.

(** One iteration of the loop over the lines of the document. *)
Definition splitLine (st : splitter) (line : string) : splitter :=
  accumulate st (expandTabs line).

Definition splitHeader (descriptionRaw : string) : splitter :=
  fold_left splitLine (Str.Lines descriptionRaw)
    {| inYAMLHeader := false; rawYAMLPart := ""; markdownPart := "" |}.

(** The lines the delimiter detection and the two accumulators see. *)
Definition expandedLines (descriptionRaw : string) : list string :=
  map expandTabs (Str.Lines descriptionRaw).

Definition hasTab (s : string) : bool := existsb (Ascii.eqb Str.tab) (Str.runes s).

End Header.

(** ** Language sectioner (ui.go, SplitOnLanguageMarkers) *)

Module Sectioner.

Record sectioner := mkSectioner {
  currentLanguage : string;
  before : string;
  markdownRawPerLanguage : gmap string string
}.

(** One iteration of [for _, line := range lines].  Reading a missing key of
    a Go map gives the empty string. *)
Definition splitLine (st : sectioner) (line : string) : sectioner :=
  let st1 :=
    match Regexp.languageMarker line with
    | Some language =>
        {| currentLanguage := language; before := before st;
           markdownRawPerLanguage := <[language := ""]> (markdownRawPerLanguage st) |}
    | None => st
    end in
  if String.eqb (currentLanguage st1) "" then
    {| currentLanguage := currentLanguage st1;
       before := before st1 +:+ line +:+ Str.newline;
       markdownRawPerLanguage := markdownRawPerLanguage st1 |}
  else
    {| currentLanguage := currentLanguage st1;
       before := before st1;
       markdownRawPerLanguage :=
         <[currentLanguage st1 :=
             default "" (markdownRawPerLanguage st1 !! currentLanguage st1)
             +:+ line +:+ Str.newline]> (markdownRawPerLanguage st1) |}.

Definition splitLoop (lines : list string) (st : sectioner) : sectioner :=
  fold_left splitLine lines st.

Definition SplitOnLanguageMarkers (markdownRaw : string) : string * gmap string string :=
  let st := splitLoop (Str.Lines markdownRaw)
              {| currentLanguage := ""; before := ""; markdownRawPerLanguage := ∅ |} in
  (before st, markdownRawPerLanguage st).

(** Each line followed by a newline, concatenated. *)
Definition joinLines (lines : list string) : string :=
  fold_right (λ line acc, line +:+ Str.newline +:+ acc) "" lines.

Definition isMarker (line : string) : bool := bool_decide (is_Some (Regexp.languageMarker line)).

(** The lines up to the first marker line. *)
Fixpoint unmarkedPrefix (lines : list string) : list string :=
  match lines with
  | [] => []
  | line :: lines' => if isMarker line then [] else line :: unmarkedPrefix lines'
  end.

End Sectioner.

(** ** Errors

    A Go [error] value: a message ([errors.New], [fmt.Errorf] without [%w]),
    a message wrapping a cause ([fmt.Errorf("...: %w", err)]), or the error of
    a file system call on a path that does not exist (the errors that
    [os.IsNotExist] recognises).  [danglingReference] is the error of the
    layout resolver, see [Layouts.ResolveLayout]. *)

Inductive error :=
| errorString (message : string)
| wrapError (message : string) (cause : error)
| errNotExist (path : string)
| danglingReference (language blockID : string).

(** [err.Error()] *)
Fixpoint errorMessage (err : error) : string :=
  match err with
  | errorString message => message
  | wrapError message cause => message +:+ ": " +:+ errorMessage cause
  | errNotExist path => path +:+ ": no such file or directory"
  | danglingReference language blockID =>
      "layout of language " +:+ language +:+ " references unknown block " +:+ blockID
  end.

(** [os.IsNotExist(err)] *)
Definition IsNotExist (err : error) : bool :=
  match err with errNotExist _ => true | _ => false end.

(** ** Media embed declarations and analysed media *)

Module MediaEmbedDeclaration.
(** MediaEmbedDeclaration represents media embeds; only the info extracted
    from the syntax, no filesystem interactions. *)
Record t := mk {
  Anchor : string;
  ID : string;
  Alt : string;
  Title : string;
  Source : string;
  Attributes : MediaAttributes
}.
End MediaEmbedDeclaration.

(** A [float32] is carried around by its IEEE 754 bit pattern: the code
    modelled here moves the analyzer's value and never computes on it. *)
Inductive float32 := float32_of_bits (bits : N).

(** ImageDimensions represents metadata about a media as it's extracted from
    its file. *)
Record ImageDimensions := mkImageDimensions {
  Width : Z;
  Height : Z;
  AspectRatio : float32
}.

Definition noDimensions : ImageDimensions :=
  {| Width := 0; Height := 0; AspectRatio := float32_of_bits 0 |}.

Module Media.
(** Media represents a media object inserted in the work object's media
    array (the declaration next to AnalyzeAllMediae). *)
Record t := mk {
  ID : string;
  Alt : string;
  Title : string;
  Source : string;
  Path : string;
  ContentType : string;
  Size : N;
  Dimensions : ImageDimensions;
  Duration : N;
  Online : bool;
  Attributes : MediaAttributes;
  HasSound : bool
}.

(** [MediaAttributes{}] *)
Definition noAttributes : MediaAttributes :=
  {| Loop := false; Autoplay := false; Muted := false; Playsinline := false;
     Controls := false |}.

(** [Media{}] *)
Definition zero : t :=
  {| ID := ""; Alt := ""; Title := ""; Source := ""; Path := ""; ContentType := "";
     Size := 0; Dimensions := noDimensions; Duration := 0; Online := false;
     Attributes := noAttributes; HasSound := false |}.

(** The three assignments [m.Alt = ...; m.Attributes = ...; m.Title = ...]. *)
Definition withPresentation (alt title : string) (attributes : MediaAttributes) (m : t) : t :=
  {| ID := ID m; Alt := alt; Title := title; Source := Source m; Path := Path m;
     ContentType := ContentType m; Size := Size m; Dimensions := Dimensions m;
     Duration := Duration m; Online := Online m; Attributes := attributes;
     HasSound := HasSound m |}.
End Media.

(** ** Media analysis (AnalyzeMediaFile, AnalyzeAllMediae) *)

Module Analysis.

(** What AnalyzeMediaFile measures on the file itself: content type, size,
    dimensions, duration and sound. *)
Record facts := mkFacts {
  contentType : string;
  size : N;
  dimensions : ImageDimensions;
  duration : N;
  hasSound : bool
}.

(** The collaborators of the analysis: the file probes (os.Open, Stat,
    mimetype detection, image, SVG, video and audio decoding, taken together
    as [probe], which fails when one of them does), the path functions of
    the Go library, and the helpers that are not part of these sources. *)
Record externals := mkExternals {
  probe : string → facts + error;
  isValidURL : string → bool;
  IsAbs : string → bool;
  Abs : string → string;
  Join : string → string → string;
  Clean : string → string;
  slugify : string → bool → string;
  filepathBaseNoExt : string → string
}.

(** The fields of RunContext that the analysis reads. *)
Record context := mkContext {
  Scattered : bool;
  ScatteredModeFolder : string
}.

Section Analyze.
Context (E : externals) (ctx : context).

Definition RelativePathToMedia (embedDeclaration : MediaEmbedDeclaration.t) : string :=
  if Scattered ctx then
    Clean E (Join E (ScatteredModeFolder ctx) (MediaEmbedDeclaration.Source embedDeclaration))
  else Clean E (MediaEmbedDeclaration.Source embedDeclaration).

(** AnalyzeMediaFile analyzes the file at its absolute filepath filename and
    returns a Media struct, merging the analysis' results with information
    from the matching MediaEmbedDeclaration. *)
Definition AnalyzeMediaFile (filename : string)
    (embedDeclaration : MediaEmbedDeclaration.t) : Media.t + error :=
  match probe E filename with
  | inr err => inr err
  | inl f =>
      inl {| Media.ID := slugify E (filepathBaseNoExt E filename) true;
             Media.Alt := MediaEmbedDeclaration.Alt embedDeclaration;
             Media.Title := MediaEmbedDeclaration.Title embedDeclaration;
             Media.Source := MediaEmbedDeclaration.Source embedDeclaration;
             Media.Path := RelativePathToMedia embedDeclaration;
             Media.ContentType := contentType f;
             Media.Dimensions := dimensions f;
             Media.Duration := duration f;
             Media.Size := size f;
             Media.Online := false;
             Media.Attributes := MediaEmbedDeclaration.Attributes embedDeclaration;
             Media.HasSound := hasSound f |}
  end.

(** The variables of the two nested loops, and the files handed to
    AnalyzeMediaFile so far (each is announced by [ctx.Status] first). *)
Record analysis := mkAnalysis {
  analyzedMediae : gmap string (list Media.t);
  analyzedMediaeBySource : gmap string Media.t;
  analyzedFiles : list string
}.

(** [analyzedMediae[language] = append(analyzedMediae[language], m)] *)
Definition appendMedia (language : string) (m : Media.t) (st : analysis) : analysis :=
  {| analyzedMediae :=
       <[language := default [] (analyzedMediae st !! language) ++ [m]]> (analyzedMediae st);
     analyzedMediaeBySource := analyzedMediaeBySource st;
     analyzedFiles := analyzedFiles st |}.

(** Compute absolute filepath to media. *)
Definition resolve (currentDirectory : string) (media : MediaEmbedDeclaration.t) : string :=
  if negb (IsAbs E (MediaEmbedDeclaration.Source media)) then
    Abs E (Join E currentDirectory (MediaEmbedDeclaration.Source media))
  else MediaEmbedDeclaration.Source media.

(** The media built for a source which is a URL. *)
Definition onlineMedia (media : MediaEmbedDeclaration.t) : Media.t :=
  {| Media.ID := ""; Media.Alt := MediaEmbedDeclaration.Alt media;
     Media.Title := MediaEmbedDeclaration.Title media;
     Media.Source := MediaEmbedDeclaration.Source media;
     Media.Path := ""; Media.ContentType := ""; Media.Size := 0;
     Media.Dimensions := noDimensions; Media.Duration := 0; Media.Online := true;
     Media.Attributes := MediaEmbedDeclaration.Attributes media;
     Media.HasSound := false |}.

(** The body of [for _, media := range mediae]. *)
Definition analyzeMedia (currentDirectory language : string) (st : analysis)
    (media : MediaEmbedDeclaration.t) : analysis + error :=
  if isValidURL E (MediaEmbedDeclaration.Source media) then
    inl (appendMedia language (onlineMedia media) st)
  else
    let filename := resolve currentDirectory media in
    match analyzedMediaeBySource st !! filename with
    | Some alreadyAnalyzedMedia =>
        inl (appendMedia language
               (Media.withPresentation (MediaEmbedDeclaration.Alt media)
                  (MediaEmbedDeclaration.Title media)
                  (MediaEmbedDeclaration.Attributes media) alreadyAnalyzedMedia) st)
    | None =>
        match AnalyzeMediaFile filename media with
        | inr err => inr err
        | inl analyzedMedia =>
            let st' := appendMedia language analyzedMedia st in
            inl {| analyzedMediae := analyzedMediae st';
                   analyzedMediaeBySource :=
                     <[filename := analyzedMedia]> (analyzedMediaeBySource st');
                   analyzedFiles := analyzedFiles st' ++ [filename] |}
        end
    end.

Fixpoint analyzeMediae (currentDirectory language : string)
    (mediae : list MediaEmbedDeclaration.t) (st : analysis) : analysis + error :=
  match mediae with
  | [] => inl st
  | media :: mediae' =>
      match analyzeMedia currentDirectory language st media with
      | inr err => inr err
      | inl st' => analyzeMediae currentDirectory language mediae' st'
      end
  end.

(** [for language, mediae := range embedDeclarations]: the map is given by
    its entries in the order the loop visits them. *)
Fixpoint analyzeLanguages (currentDirectory : string)
    (embedDeclarations : list (string * list MediaEmbedDeclaration.t))
    (st : analysis) : analysis + error :=
  match embedDeclarations with
  | [] => inl st
  | (language, mediae) :: rest =>
      let st0 := {| analyzedMediae := <[language := []]> (analyzedMediae st);
                    analyzedMediaeBySource := analyzedMediaeBySource st;
                    analyzedFiles := analyzedFiles st |} in
      match analyzeMediae currentDirectory language mediae st0 with
      | inr err => inr err
      | inl st' => analyzeLanguages currentDirectory rest st'
      end
  end.

(** [currentDirectory] as the loops use it. *)
Definition mediaDirectory (currentDirectory : string) : string :=
  if Scattered ctx then Join E currentDirectory (ScatteredModeFolder ctx)
  else currentDirectory.

Definition run (embedDeclarations : list (string * list MediaEmbedDeclaration.t))
    (currentDirectory : string) : analysis + error :=
  analyzeLanguages (mediaDirectory currentDirectory) embedDeclarations
    {| analyzedMediae := ∅; analyzedMediaeBySource := ∅; analyzedFiles := [] |}.

(** AnalyzeAllMediae analyzes all the mediae from ParsedDescription's
    MediaEmbedDeclarations and returns analyzed mediae. *)
Definition AnalyzeAllMediae (embedDeclarations : list (string * list MediaEmbedDeclaration.t))
    (currentDirectory : string) : gmap string (list Media.t) * option error :=
  match run embedDeclarations currentDirectory with
  | inr err => (∅, Some err)
  | inl st => (analyzedMediae st, None)
  end.

(** The declarations in the order the loops visit them. *)
Definition visited (embedDeclarations : list (string * list MediaEmbedDeclaration.t))
  : list MediaEmbedDeclaration.t :=
  concat embedDeclarations.*2.

(** The first visited declaration that resolves to [filename]. *)
Definition firstOccurrence (currentDirectory filename : string)
    (declarations : list MediaEmbedDeclaration.t) : option MediaEmbedDeclaration.t :=
  List.find (λ d, negb (isValidURL E (MediaEmbedDeclaration.Source d))
                  && String.eqb (resolve currentDirectory d) filename) declarations.

(** The entry [m] stands for the declaration [media]: built from the
    declaration alone when its source is a URL; otherwise the analysis of the
    first visited declaration resolving to the same file, with alt, title and
    attributes taken from [media] itself. *)
Definition entryOf (currentDirectory : string) (declarations : list MediaEmbedDeclaration.t)
    (media : MediaEmbedDeclaration.t) (m : Media.t) : Prop :=
  if isValidURL E (MediaEmbedDeclaration.Source media) then m = onlineMedia media
  else
    ∃ first analyzed,
      firstOccurrence currentDirectory (resolve currentDirectory media) declarations = Some first
      ∧ AnalyzeMediaFile (resolve currentDirectory media) first = inl analyzed
      ∧ m = Media.withPresentation (MediaEmbedDeclaration.Alt media)
              (MediaEmbedDeclaration.Title media)
              (MediaEmbedDeclaration.Attributes media) analyzed.

(** The loop invariant, [declarations] being the declarations visited so
    far: the by-source map holds exactly the analysis of the first visited
    declaration of each file, and the files analysed are those of the map,
    each once. *)
Definition invariant (currentDirectory : string)
    (declarations : list MediaEmbedDeclaration.t) (st : analysis) : Prop :=
  (∀ filename,
     match firstOccurrence currentDirectory filename declarations with
     | Some first =>
         ∃ analyzed, AnalyzeMediaFile filename first = inl analyzed
                     ∧ analyzedMediaeBySource st !! filename = Some analyzed
     | None => analyzedMediaeBySource st !! filename = None
     end)
  ∧ NoDup (analyzedFiles st)
  ∧ (∀ filename, filename ∈ analyzedFiles st →
       is_Some (analyzedMediaeBySource st !! filename)).

End Analyze.
End Analysis.

(** ** The HTML tree (github.com/anaskhan96/soup)

    A node as the soup package exposes it: the kind of the underlying
    [html.Node], [NodeValue] (the tag name of an element, the text of a text
    node), [Attrs()], [HTML()] (the node rendered back to markup),
    [FullText()] and [Children()]. *)

Module Soup.

Inductive NodeType := ElementNode | TextNode | OtherNode.

#[local] Unset Elimination Schemes.
Inductive Root :=
  mkRoot (type : NodeType) (nodeValue : string) (attrs : gmap string string)
         (html fullText : string) (children : list Root).
#[local] Set Elimination Schemes.

Definition Type_ (r : Root) : NodeType := let 'mkRoot t _ _ _ _ _ := r in t.
Definition NodeValue (r : Root) : string := let 'mkRoot _ v _ _ _ _ := r in v.
Definition Attrs (r : Root) : gmap string string := let 'mkRoot _ _ a _ _ _ := r in a.
Definition HTML (r : Root) : string := let 'mkRoot _ _ _ h _ _ := r in h.
Definition FullText (r : Root) : string := let 'mkRoot _ _ _ _ t _ := r in t.
Definition Children (r : Root) : list Root := let 'mkRoot _ _ _ _ _ c := r in c.

(** [r.Attrs()[key]]: a missing key reads as the empty string. *)
Definition attr (r : Root) (key : string) : string := default "" (Attrs r !! key).

Definition isElement (tag : string) (r : Root) : bool :=
  match Type_ r with
  | ElementNode => String.eqb (NodeValue r) tag
  | _ => false
  end.

(** [r.FindAll(tag)]: the descendants that are [tag] elements, in document
    order. *)
Fixpoint FindAll (tag : string) (r : Root) : list Root :=
  let 'mkRoot _ _ _ _ _ children := r in
  List.flat_map (λ c, (if isElement tag c then [c] else []) ++ FindAll tag c) children.

(** [r.Find(tag)]: the first of them; [None] stands for a root whose
    [Error] is set. *)
Definition Find (tag : string) (r : Root) : option Root := head (FindAll tag r).

End Soup.

(** ** Blocks of a description (ui.go) *)

Module Paragraph.
(** Paragraph represents a paragraph declaration in a description.md file. *)
Record t := mk {
  ID : string;
  Index : Z;
  Anchor : string;
  Content : string
}.
End Paragraph.

Module Link.
(** Link represents an (isolated) link declaration in a description.md file. *)
Record t := mk {
  ID : string;
  Anchor : string;
  Text : string;
  Title : string;
  URL : string
}.
End Link.

(** ** Abbreviations (ui.go, ReplaceAbbreviations) *)

Module Abbr.

(** [\w] of Go's regexp: an ASCII letter, digit or underscore. *)
Definition isWord (c : ascii) : bool :=
  let n := nat_of_ascii c in
  (Nat.leb 48 n && Nat.leb n 57) || (Nat.leb 65 n && Nat.leb n 90)
  || (Nat.leb 97 n && Nat.leb n 122) || Nat.eqb n 95.

Definition isWordAt (c : option ascii) : bool :=
  match c with Some c => isWord c | None => false end.

(** [\b] between two neighbouring characters ([None] at either end of the
    text). *)
Definition boundary (left right : option ascii) : bool :=
  xorb (isWordAt left) (isWordAt right).

Fixpoint isPrefix (p l : list ascii) : bool :=
  match p, l with
  | [], _ => true
  | a :: p', b :: l' => Ascii.eqb a b && isPrefix p' l'
  | _ :: _, [] => false
  end.

(** Whether [\bname\b] matches at the start of [text], [prev] being the
    character before it. *)
Definition matchesAt (name : list ascii) (prev : option ascii) (text : list ascii) : bool :=
  isPrefix name text
  && boundary prev (head text)
  && boundary (last name) (head (drop (List.length name) text)).

(** [regexp.MustCompile(`\b` + name + `\b`).ReplaceAllString(text, repl)]
    for a non-empty [name] without regexp metacharacters and a replacement
    without [$]: the leftmost matches, not overlapping, are replaced.
    [skip] counts the characters of the current match still to pass. *)
Fixpoint replaceFrom (name repl : list ascii) (skip : nat) (prev : option ascii)
    (text : list ascii) : list ascii :=
  match text with
  | [] => []
  | c :: rest =>
      match skip with
      | S skip' => replaceFrom name repl skip' (Some c) rest
      | O =>
          if matchesAt name prev text
          then repl ++ replaceFrom name repl (List.length name - 1) (Some c) rest
          else c :: replaceFrom name repl 0 (Some c) rest
      end
  end.

Definition replaceWholeWord (name repl text : string) : string :=
  Str.ofRunes (replaceFrom (Str.runes name) (Str.runes repl) 0 None (Str.runes text)).

(** The replacement text: an [abbr] element around the name, with the
    definition as its quoted [title] attribute. *)
Definition annotation (name definition : string) : string :=
  "<abbr title=" +:+ String Str.quote definition +:+ String Str.quote ">" +:+ name +:+ "</abbr>".

(** ReplaceAbbreviations processes the given Paragraph to replace
    abbreviations.  The abbreviations are given in the order the [range]
    loop visits them.  Each turn starts again from [paragraph.Content], and
    the result carries the content alone. *)
Definition ReplaceAbbreviations (paragraph : Paragraph.t)
    (currentLanguageAbbreviations : list (string * string)) : Paragraph.t :=
  let processed :=
    fold_left (λ (processed : string) '(name, definition),
                 replaceWholeWord name (annotation name definition)
                   (Paragraph.Content paragraph))
      currentLanguageAbbreviations (Paragraph.Content paragraph) in
  {| Paragraph.ID := ""; Paragraph.Index := 0; Paragraph.Anchor := "";
     Paragraph.Content := processed |}.

End Abbr.

(** ** Block classification (ui.go, ParseSingleLanguageDescription) *)

Module Markup.

(** The collaborators of the parser.  [render] is the way from the raw text
    of one language to the HTML tree: the rewriting of the alternate embed
    syntax, the markdown renderer and [soup.HTMLParse], in that order.
    [idGenerator markdownRaw n] is the [n]-th identifier handed out by the
    nanoid generator that the call on [markdownRaw] creates. *)
Record externals := mkExternals {
  render : string → Soup.Root;
  idGenerator : string → nat → string;
  slugify : string → bool → string;
  TrimSpace : string → string
}.

(** What ParseSingleLanguageDescription returns. *)
Record description := mkDescription {
  title : string;
  paragraphs : list Paragraph.t;
  mediae : list MediaEmbedDeclaration.t;
  links : list Link.t;
  footnotes : gmap string string;
  abbreviations : gmap string string;
  order : list string
}.

(** innerHTML returns the HTML string of what's _inside_ the given element. *)
Definition innerHTML (element : Soup.Root) : string :=
  let inner := fold_left (λ acc child, acc +:+ Soup.HTML child) (Soup.Children element) "" in
  if String.eqb inner "" then Soup.HTML element else inner.

Definition paragraphLikeTagNames : string := "p ol ul h2 h3 h4 h5 h6 dl blockquote hr pre".

(** The children of the body that the first loop keeps. *)
Definition paragraphLike (htmlTree : Soup.Root) : list Soup.Root :=
  match Soup.Find "body" htmlTree with
  | Some body =>
      List.filter (λ element, Str.Contains paragraphLikeTagNames (Soup.NodeValue element))
        (Soup.Children body)
  | None => []
  end.

(** [strings.TrimSuffix] *)
Definition TrimSuffix (s p : string) : string :=
  if Str.HasSuffix s p
  then String.substring 0 (String.length s - String.length p) s
  else s.

Fixpoint trimPrefixes (fuel : nat) (toRemove s : string) : string :=
  match fuel with
  | S fuel => if Str.HasPrefix s toRemove then trimPrefixes fuel toRemove (Str.TrimPrefix s toRemove) else s
  | O => s
  end.

Fixpoint trimSuffixes (fuel : nat) (toRemove s : string) : string :=
  match fuel with
  | S fuel => if Str.HasSuffix s toRemove then trimSuffixes fuel toRemove (TrimSuffix s toRemove) else s
  | O => s
  end.

Section Parse.
Context (E : externals) (ids : nat → string).

(** trimHTMLWhitespace removes whitespace from the beginning and end of an
    HTML string, also removing leading & trailing <br> tags.  Every turn of
    the inner loops shortens the string, so its length is fuel enough. *)
Definition trimHTMLWhitespace (rawHTML : string) : string :=
  fold_left (λ rawHTML toRemove,
               let rawHTML := trimPrefixes (String.length rawHTML) toRemove rawHTML in
               trimSuffixes (String.length rawHTML) toRemove rawHTML)
    ["<br>"; "<br />"; "<br/>"] (TrimSpace E rawHTML).

(** The variables the classification loop fills. *)
Record blocks := mkBlocks {
  b_paragraphs : list Paragraph.t;
  b_mediae : list MediaEmbedDeclaration.t;
  b_links : list Link.t;
  b_abbreviations : gmap string string;
  b_order : list string
}.

(** One iteration of [for _, paragraph := range paragraphLike], [id] being
    the identifier drawn for it. *)
Definition classify (st : blocks) (id : string) (paragraph : Soup.Root) : blocks :=
  let isOnly (tag : string) : option Soup.Root :=
    match Soup.Children paragraph with
    | [firstChild] => if String.eqb (Soup.NodeValue firstChild) tag then Some firstChild else None
    | _ => None
    end in
  match isOnly "img" with
  | Some firstChild =>
      (* A media embed *)
      let '(alt, attributes) := Sigils.ExtractAttributesFromAlt (Soup.attr firstChild "alt") in
      {| b_paragraphs := b_paragraphs st;
         b_mediae := b_mediae st ++
           [{| MediaEmbedDeclaration.Anchor := slugify E (Soup.attr firstChild "src") false;
               MediaEmbedDeclaration.ID := id;
               MediaEmbedDeclaration.Alt := alt;
               MediaEmbedDeclaration.Title := Soup.attr firstChild "title";
               MediaEmbedDeclaration.Source := Soup.attr firstChild "src";
               MediaEmbedDeclaration.Attributes := attributes |}];
         b_links := b_links st;
         b_abbreviations := b_abbreviations st;
         b_order := b_order st ++ [id] |}
  | None =>
  match isOnly "a" with
  | Some firstChild =>
      (* An isolated link *)
      {| b_paragraphs := b_paragraphs st;
         b_mediae := b_mediae st;
         b_links := b_links st ++
           [{| Link.ID := id;
               Link.Anchor := slugify E (Soup.FullText firstChild) true;
               Link.Text := innerHTML firstChild;
               Link.Title := Soup.attr firstChild "title";
               Link.URL := Soup.attr firstChild "href" |}];
         b_abbreviations := b_abbreviations st;
         b_order := b_order st ++ [id] |}
  | None =>
  match Regexp.abbreviationDefinition (innerHTML paragraph) with
  | Some (name, definition) =>
      (* An abbreviation definition *)
      {| b_paragraphs := b_paragraphs st; b_mediae := b_mediae st; b_links := b_links st;
         b_abbreviations := <[name := definition]> (b_abbreviations st);
         b_order := b_order st |}
  | None =>
  match Regexp.languageMarker (innerHTML paragraph) with
  | Some _ =>
      (* A language marker (ignored) *)
      st
  | None =>
      (* A paragraph (anything else) *)
      {| b_paragraphs := b_paragraphs st ++
           [{| Paragraph.ID := id; Paragraph.Index := 0;
               Paragraph.Anchor := Soup.attr paragraph "id";
               Paragraph.Content := Soup.HTML paragraph |}];
         b_mediae := b_mediae st; b_links := b_links st;
         b_abbreviations := b_abbreviations st;
         b_order := b_order st ++ [id] |}
  end end end end.

(** The classification loop; [n] counts the identifiers drawn so far. *)
Fixpoint classifyAll (n : nat) (elements : list Soup.Root) (st : blocks) : blocks :=
  match elements with
  | [] => st
  | paragraph :: rest => classifyAll (S n) rest (classify st (ids n) paragraph)
  end.

(** The footnotes of the [div]s whose class is [footnotes]. *)
Definition collectFootnotes (htmlTree : Soup.Root) : gmap string string :=
  fold_left (λ footnotes div,
    if String.eqb (Soup.attr div "class") "footnotes" then
      fold_left (λ footnotes li,
                   <[Str.TrimPrefix (Soup.attr li "id") "fn:" :=
                       trimHTMLWhitespace (innerHTML li)]> footnotes)
        (Soup.FindAll "li" div) footnotes
    else footnotes)
    (Soup.FindAll "div" htmlTree) ∅.

Definition isPreformatted (paragraph : Paragraph.t) : bool :=
  Str.HasPrefix (Paragraph.Content paragraph) "<pre>"
  && Str.HasSuffix (Paragraph.Content paragraph) "</pre>".

(** The last loop of the function: the paragraphs with their abbreviations
    replaced, preformatted ones left out. *)
Definition processParagraphs (paragraphs : list Paragraph.t)
    (abbreviations : gmap string string) : list Paragraph.t :=
  fold_left (λ processedParagraphs paragraph,
               if isPreformatted paragraph then processedParagraphs
               else processedParagraphs
                    ++ [Abbr.ReplaceAbbreviations paragraph (map_to_list abbreviations)])
    paragraphs [].

(** ParseSingleLanguageDescription on the tree.  The function ends in a bare
    [return] of its named results; [processedParagraphs] is not one of
    them.  This is what the function returns when it returns: the
    [regexp.MustCompile] of ReplaceAbbreviations panics on a term that is no
    pattern, and nothing is returned then. *)
Definition parseTree (htmlTree : Soup.Root) : description :=
  let st := classifyAll 0 (paragraphLike htmlTree)
              {| b_paragraphs := []; b_mediae := []; b_links := [];
                 b_abbreviations := ∅; b_order := [] |} in
  let '(title, footnotes) :=
    match Soup.Find "h1" htmlTree with
    | Some h1 => (innerHTML h1, collectFootnotes htmlTree)
    | None => ("", ∅)
    end in
  let processedParagraphs := processParagraphs (b_paragraphs st) (b_abbreviations st) in
  {| title := title; paragraphs := b_paragraphs st; mediae := b_mediae st;
     links := b_links st; footnotes := footnotes;
     abbreviations := b_abbreviations st; order := b_order st |}.

(** ParseSingleLanguageDescription takes in raw markdown and returns parsed
    arrays of structs that make up each language's part. *)
Definition parseRendered (markdownRaw : string) : description :=
  parseTree (render E markdownRaw).

End Parse.

Definition ParseSingleLanguageDescription (E : externals) (markdownRaw : string) : description :=
  parseRendered E (idGenerator E markdownRaw) markdownRaw.

End Markup.

(** ** Works (ui.go) *)

(** Modelled from the spec: the declaration of ColorPalette is not in the
    sources; the data model speaks of a "color palette", taken here to be the
    list of its colours, [Empty()] holding of the empty list. *)
Definition ColorPalette : Type := list string.

(** An [interface{}] value as the YAML decoder produces it. *)
#[local] Unset Elimination Schemes.
Inductive yaml :=
| yamlScalar (value : string)
| yamlSequence (items : list yaml)
| yamlMapping (entries : list (string * yaml)).
#[local] Set Elimination Schemes.

Module WorkMetadata.
Record t := mk {
  Aliases : list string;
  Finished : string;
  Started : string;
  MadeWith : list string;
  Tags : list string;
  Thumbnail : string;
  TitleStyle : string;
  Colors : ColorPalette;
  PageBackground : string;
  WIP : bool;
  Private : bool;
  AdditionalMetadata : gmap string yaml
}.

(** [WorkMetadata{}] *)
Definition zero : t :=
  {| Aliases := []; Finished := ""; Started := ""; MadeWith := []; Tags := [];
     Thumbnail := ""; TitleStyle := ""; Colors := []; PageBackground := "";
     WIP := false; Private := false; AdditionalMetadata := ∅ |}.

(** [metadata.Colors = colors] *)
Definition withColors (colors : ColorPalette) (m : t) : t :=
  {| Aliases := Aliases m; Finished := Finished m; Started := Started m;
     MadeWith := MadeWith m; Tags := Tags m; Thumbnail := Thumbnail m;
     TitleStyle := TitleStyle m; Colors := colors; PageBackground := PageBackground m;
     WIP := WIP m; Private := Private m; AdditionalMetadata := AdditionalMetadata m |}.
End WorkMetadata.

Module ParsedWork.
(** ParsedWork represents a work, but without analyzed media. *)
Record t := mk {
  Metadata : WorkMetadata.t;
  Title : gmap string string;
  Paragraphs : gmap string (list Paragraph.t);
  MediaEmbedDeclarations : gmap string (list MediaEmbedDeclaration.t);
  Links : gmap string (list Link.t);
  Footnotes : gmap string (gmap string string);
  ContentBlocksOrders : gmap string (list string)
}.
End ParsedWork.

Module Description.

(** The YAML collaborators: [Unmarshal] is [yaml.Unmarshal] into a map
    ([None] when the map is left nil), [Decode] is [mapstructure.Decode]
    into a WorkMetadata. *)
Record externals := mkExternals {
  Unmarshal : string → option (gmap string yaml);
  Decode : gmap string yaml → WorkMetadata.t;
  markup : Markup.externals
}.

(** [strings.ReplaceAll(key, " ", "_")] *)
Definition underscored (key : string) : string :=
  Str.ofRunes (map (λ c : ascii, if Ascii.eqb c " " then "_"%char else c) (Str.runes key)).

(** Keys with spaces are stored again under their underscored form. *)
Definition normalizeKeys (parsedYAMLPart : gmap string yaml) : gmap string yaml :=
  map_fold (λ key value m,
              if Str.Contains key " " then delete key (<[underscored key := value]> m)
              else m)
    parsedYAMLPart parsedYAMLPart.

(** ParseYAMLHeader parses the YAML header of a description markdown file and
    returns the rest of the content (all except the YAML header). *)
Definition ParseYAMLHeader (X : externals) (descriptionRaw : string) : WorkMetadata.t * string :=
  let st := Header.splitHeader descriptionRaw in
  let parsedYAMLPart := default ∅ (Unmarshal X (Header.rawYAMLPart st)) in
  (Decode X (normalizeKeys parsedYAMLPart), Header.markdownPart st).

(** The body of [for _, language := range allLanguages]. *)
Definition parseLanguage (X : externals) (notLocalizedRaw : string) (localized : bool)
    (localizedRawBlocks : gmap string string) (work : ParsedWork.t) (language : string)
  : ParsedWork.t :=
  let raw :=
    if localized then notLocalizedRaw +:+ default "" (localizedRawBlocks !! language)
    else notLocalizedRaw in
  let d := Markup.ParseSingleLanguageDescription (markup X) raw in
  {| ParsedWork.Metadata := ParsedWork.Metadata work;
     ParsedWork.Title := <[language := Markup.title d]> (ParsedWork.Title work);
     ParsedWork.Paragraphs := <[language := Markup.paragraphs d]> (ParsedWork.Paragraphs work);
     ParsedWork.MediaEmbedDeclarations :=
       <[language := Markup.mediae d]> (ParsedWork.MediaEmbedDeclarations work);
     ParsedWork.Links := <[language := Markup.links d]> (ParsedWork.Links work);
     ParsedWork.Footnotes := <[language := Markup.footnotes d]> (ParsedWork.Footnotes work);
     ParsedWork.ContentBlocksOrders :=
       <[language := Markup.order d]> (ParsedWork.ContentBlocksOrders work) |}.

(** ParseDescription parses the markdown string from a description.md file
    and returns a ParsedDescription. *)
Definition ParseDescription (X : externals) (markdownRaw : string) : ParsedWork.t :=
  let '(metadata, markdownRaw) := ParseYAMLHeader X markdownRaw in
  let '(notLocalizedRaw, localizedRawBlocks) := Sectioner.SplitOnLanguageMarkers markdownRaw in
  let localized := negb (Nat.eqb (size localizedRawBlocks) 0) in
  let allLanguages :=
    if localized then (map_to_list localizedRawBlocks).*1 else ["default"] in
  fold_left (parseLanguage X notLocalizedRaw localized localizedRawBlocks) allLanguages
    {| ParsedWork.Metadata := metadata; ParsedWork.Title := ∅; ParsedWork.Paragraphs := ∅;
       ParsedWork.MediaEmbedDeclarations := ∅; ParsedWork.Links := ∅;
       ParsedWork.Footnotes := ∅; ParsedWork.ContentBlocksOrders := ∅ |}.

End Description.

(** ** Layout resolution *)

Module Layouts.

(** LayoutCell is a single cell in the layout. It corresponds to the content
    block's ID. *)
Definition LayoutCell : Type := string.

(** Layout is a 2D array of content block IDs *)
Definition Layout : Type := list (list LayoutCell).

(** A layout as the author declares it: rows of cells, a cell naming a block
    or being empty. *)
Definition declared : Type := list (list (option string)).

(** Modelled from the spec: the sentinel of an empty cell (data model,
    Layout); its value is not in the sources. *)
Definition emptyCell : LayoutCell := "".

Definition resolveCell (order : list string) (language : string) (cell : option string)
  : LayoutCell + error :=
  match cell with
  | None => inl emptyCell
  | Some blockID =>
      if bool_decide (blockID ∈ order) then inl blockID
      else inr (danglingReference language blockID)
  end.

Fixpoint resolveRow (order : list string) (language : string) (row : list (option string))
  : list LayoutCell + error :=
  match row with
  | [] => inl []
  | cell :: row' =>
      match resolveCell order language cell with
      | inr err => inr err
      | inl c =>
          match resolveRow order language row' with
          | inr err => inr err
          | inl cs => inl (c :: cs)
          end
      end
  end.

Fixpoint resolveRows (order : list string) (language : string) (rows : declared)
  : Layout + error :=
  match rows with
  | [] => inl []
  | row :: rows' =>
      match resolveRow order language row with
      | inr err => inr err
      | inl r =>
          match resolveRows order language rows' with
          | inr err => inr err
          | inl rs => inl (r :: rs)
          end
      end
  end.

(** Modelled from the spec: ResolveLayout is called by Build but is not in
    the sources.  Section 4.7: without a declared layout, one block per row,
    in order sequence; with one, every block ID it references must exist in
    the language's order sequence, and resolution fails with an error
    identifying the language and the dangling reference if not; it neither
    drops nor substitutes, and invents no block. *)
Definition ResolveLayout (layout : option declared) (order : list string) (language : string)
  : Layout + error :=
  match layout with
  | None => inl (map (λ blockID, [blockID]) order)
  | Some rows => resolveRows order language rows
  end.

(** The block IDs a declared layout references. *)
Definition references (rows : declared) : list string :=
  omap id (concat rows).

End Layouts.

(** ** The file system and the log *)

Module OS.

(** [fs.DirEntry] *)
Record DirEntry := mkDirEntry {
  Name : string;
  IsDir : bool
}.

Inductive logLine :=
| Error (message : string)
| Info (message : string).

(** The part of the world a build touches: the regular files and their
    content, the directories and their listings, the paths on which [os.Stat]
    fails for another reason than absence, what was printed on the standard
    streams, the log and the clock. *)
Record World := mkWorld {
  files : gmap string string;
  directories : gmap string (list DirEntry);
  statErrors : gmap string error;
  stdout : list string;
  log : list logLine;
  clock : Z
}.

Definition withFiles (f : gmap string string) (w : World) : World :=
  {| files := f; directories := directories w; statErrors := statErrors w;
     stdout := stdout w; log := log w; clock := clock w |}.

Definition withDirectories (d : gmap string (list DirEntry)) (w : World) : World :=
  {| files := files w; directories := d; statErrors := statErrors w;
     stdout := stdout w; log := log w; clock := clock w |}.

Definition logged (line : logLine) (w : World) : World :=
  {| files := files w; directories := directories w; statErrors := statErrors w;
     stdout := stdout w; log := log w ++ [line]; clock := clock w |}.

Definition printed (text : string) (w : World) : World :=
  {| files := files w; directories := directories w; statErrors := statErrors w;
     stdout := stdout w ++ [text]; log := log w; clock := clock w |}.

Inductive stat := Exists | NotExist | StatError (err : error).

(** [os.Stat] *)
Definition Stat (path : string) (w : World) : stat :=
  match statErrors w !! path with
  | Some err => StatError err
  | None =>
      if bool_decide (is_Some (files w !! path) ∨ is_Some (directories w !! path))
      then Exists else NotExist
  end.

(** [os.ReadFile] *)
Definition ReadFile (path : string) (w : World) : string + error :=
  match files w !! path with
  | Some content => inl content
  | None =>
      match directories w !! path with
      | Some _ => inr (errorString ("read " +:+ path +:+ ": is a directory"))
      | None => inr (errNotExist path)
      end
  end.

(** [os.WriteFile]: creates or replaces a regular file; fails on a
    directory, and when the directory that is to hold the file ([parent] is
    [filepath.Dir]) does not exist. *)
Definition WriteFile (parent : string → string) (path content : string) (w : World)
  : World * option error :=
  match directories w !! path with
  | Some _ => (w, Some (errorString ("open " +:+ path +:+ ": is a directory")))
  | None =>
      match directories w !! parent path with
      | Some _ => (withFiles (<[path := content]> (files w)) w, None)
      | None =>
          match files w !! parent path with
          | Some _ => (w, Some (errorString ("open " +:+ path +:+ ": not a directory")))
          | None => (w, Some (errNotExist ("open " +:+ path)))
          end
      end
  end.

(** [os.Remove]: removes a regular file or an empty directory. *)
Definition Remove (path : string) (w : World) : World * option error :=
  match files w !! path, directories w !! path with
  | Some _, _ => (withFiles (delete path (files w)) w, None)
  | None, Some [] => (withDirectories (delete path (directories w)) w, None)
  | None, Some (_ :: _) =>
      (w, Some (errorString ("remove " +:+ path +:+ ": directory not empty")))
  | None, None => (w, Some (errNotExist path))
  end.

(** The directories that [os.MkdirAll] has to make for [path]: the path
    and the directories above it ([parent] is [filepath.Dir]), going up to
    the first one that exists; a regular file met on the way is the error.
    Every step up shortens a path, so its length is fuel enough. *)
Fixpoint missingDirectories (parent : string → string) (fuel : nat) (path : string)
    (w : World) : list string + error :=
  match files w !! path with
  | Some _ => inr (errorString ("mkdir " +:+ path +:+ ": not a directory"))
  | None =>
      match directories w !! path with
      | Some _ => inl []
      | None =>
          match fuel with
          | O => inl [path]
          | S fuel =>
              if String.eqb (parent path) path then inl [path]
              else
                match missingDirectories parent fuel (parent path) w with
                | inr err => inr err
                | inl above => inl (path :: above)
                end
          end
      end
  end.

(** [os.MkdirAll]: makes the directory and the directories above it that do
    not exist; fails when the path or one of those is a regular file, does
    nothing when the path is a directory already. *)
Definition MkdirAll (parent : string → string) (path : string) (w : World)
  : World * option error :=
  match missingDirectories parent (String.length path) path w with
  | inr err => (w, Some err)
  | inl [] => (w, None)
  | inl made =>
      (withDirectories (fold_right (λ directory, <[directory := []]>) (directories w) made) w,
       None)
  end.

(** [os.ReadDir] *)
Definition ReadDir (path : string) (w : World) : list DirEntry + error :=
  match directories w !! path with
  | Some entries => inl entries
  | None =>
      match files w !! path with
      | Some _ => inr (errorString ("open " +:+ path +:+ ": not a directory"))
      | None => inr (errNotExist path)
      end
  end.

End OS.

(** ** Build orchestrator (build.go) *)

Module Orchestrator.

Module Media.
(** Media as the orchestrator and the content blocks use it. *)
Record t := mk {
  ID : string;
  Anchor : string;
  Alt : string;
  Title : string;
  DistSource : string;
  RelativeSource : string;
  ContentType : string;
  Size : N;
  Dimensions : ImageDimensions;
  Online : bool;
  Duration : N;
  Colors : ColorPalette;
  Thumbnails : gmap Z string;
  Attributes : MediaAttributes
}.

Definition zero : t :=
  {| ID := ""; Anchor := ""; Alt := ""; Title := ""; DistSource := "";
     RelativeSource := ""; ContentType := ""; Size := 0; Dimensions := noDimensions;
     Online := false; Duration := 0; Colors := []; Thumbnails := ∅;
     Attributes := Media.noAttributes |}.
End Media.

(** ContentBlockType is one of "paragraph", "media" or "link" *)
Definition ContentBlockType : Type := string.

Module ContentBlock.
Record t := mk {
  Type_ : ContentBlockType;
  Media : Media.t;
  Paragraph : Paragraph.t;
  Link : Link.t
}.
End ContentBlock.

Definition noParagraph : Paragraph.t :=
  {| Paragraph.ID := ""; Paragraph.Index := 0; Paragraph.Anchor := "";
     Paragraph.Content := "" |}.

Definition noLink : Link.t :=
  {| Link.ID := ""; Link.Anchor := ""; Link.Text := ""; Link.Title := ""; Link.URL := "" |}.

Module LocalizedWorkContent.
Record t := mk {
  Layout : Layouts.Layout;
  Blocks : list ContentBlock.t;
  Title : string;
  Footnotes : gmap string string
}.
End LocalizedWorkContent.

Module AnalyzedWork.
(** AnalyzedWork represents a complete work, with analyzed mediae. *)
Record t := mk {
  ID : string;
  Metadata : WorkMetadata.t;
  Localized : gmap string LocalizedWorkContent.t
}.

(** [AnalyzedWork{}] *)
Definition zero : t := {| ID := ""; Metadata := WorkMetadata.zero; Localized := ∅ |}.
End AnalyzedWork.

(** Works *)
Definition Works : Type := gmap string AnalyzedWork.t.

Record Flags := mkFlags {
  Scattered : bool;
  Silent : bool;
  Minified : bool;
  Config_ : string;
  ProgressFile : string;
  NoCache : bool
}.

(** The fields of Configuration that the orchestrator reads (its declaration
    is not in the sources). *)
Record Configuration := mkConfiguration {
  MediaAt : string;
  BuildMetadataFilepath : string;
  ScatteredModeFolder : string;
  ExtractColorsEnabled : bool;
  IsDefault : bool
}.

(** BuildMetadata: the date of the previous build, a point in time. *)
Record BuildMetadata := mkBuildMetadata {
  PreviousBuildDate : Z
}.

(** RunContext holds several "global" references used throughout all the
    functions of a command.  The spinner and the progress details, which
    only the progress display reads, are left out. *)
Record RunContext := mkRunContext {
  Config : Configuration;
  CurrentWorkID : string;
  DatabaseDirectory : string;
  OutputDatabaseFile : string;
  PreviousBuiltDatabase : list AnalyzedWork.t;
  flags : Flags;
  ProgressCurrent : Z;
  ProgressTotal : Z;
  buildMetadata : BuildMetadata
}.

Definition withPreviousBuiltDatabase (works : list AnalyzedWork.t) (ctx : RunContext) : RunContext :=
  {| Config := Config ctx; CurrentWorkID := CurrentWorkID ctx;
     DatabaseDirectory := DatabaseDirectory ctx; OutputDatabaseFile := OutputDatabaseFile ctx;
     PreviousBuiltDatabase := works; flags := flags ctx;
     ProgressCurrent := ProgressCurrent ctx; ProgressTotal := ProgressTotal ctx;
     buildMetadata := buildMetadata ctx |}.

Definition withBuildMetadata (metadata : BuildMetadata) (ctx : RunContext) : RunContext :=
  {| Config := Config ctx; CurrentWorkID := CurrentWorkID ctx;
     DatabaseDirectory := DatabaseDirectory ctx; OutputDatabaseFile := OutputDatabaseFile ctx;
     PreviousBuiltDatabase := PreviousBuiltDatabase ctx; flags := flags ctx;
     ProgressCurrent := ProgressCurrent ctx; ProgressTotal := ProgressTotal ctx;
     buildMetadata := metadata |}.

Definition withCurrentWorkID (workID : string) (ctx : RunContext) : RunContext :=
  {| Config := Config ctx; CurrentWorkID := workID;
     DatabaseDirectory := DatabaseDirectory ctx; OutputDatabaseFile := OutputDatabaseFile ctx;
     PreviousBuiltDatabase := PreviousBuiltDatabase ctx; flags := flags ctx;
     ProgressCurrent := ProgressCurrent ctx; ProgressTotal := ProgressTotal ctx;
     buildMetadata := buildMetadata ctx |}.

Definition withProgressTotal (total : Z) (ctx : RunContext) : RunContext :=
  {| Config := Config ctx; CurrentWorkID := CurrentWorkID ctx;
     DatabaseDirectory := DatabaseDirectory ctx; OutputDatabaseFile := OutputDatabaseFile ctx;
     PreviousBuiltDatabase := PreviousBuiltDatabase ctx; flags := flags ctx;
     ProgressCurrent := ProgressCurrent ctx; ProgressTotal := total;
     buildMetadata := buildMetadata ctx |}.

(** The collaborators of the orchestrator: the path functions of the Go
    library ([path.Join] and [filepath.Join] as [Join], [filepath.Dir],
    [filepath.Match]), the JSON encoders and decoders, and the functions of
    the package that are not in these sources: FindWork, HandleMedia (the
    media analyzer, which reads and writes files and so takes the world and
    gives it back) and the reading of the layout that the author declared
    for a language.  The progress display (Status, IncrementProgress, the
    spinner) has no part in what follows and is left out. *)
Record externals := mkExternals {
  Join : list string → string;
  Dir : string → string;
  Match : string → string → bool + error;
  unmarshalWorks : string → list AnalyzedWork.t + error;
  unmarshalBuildMetadata : string → BuildMetadata + error;
  marshalWorks : bool → Works → string;
  marshalBuildMetadata : BuildMetadata → string + error;
  FindWork : list AnalyzedWork.t → string → bool * AnalyzedWork.t;
  HandleMedia : string → MediaEmbedDeclaration.t → string → OS.World
                → OS.World * (Media.t + error);
  declaredLayout : ParsedWork.t → string → option Layouts.declared;
  description : Description.externals
}.

Section Build.
Context (X : externals).

Definition buildLockFilepath (outputFilename : string) : string :=
  Join X [Dir X outputFilename; ".ortfomk-build-lock"].

(** AcquireBuildLock ensures that only one process touches the output
    database file at the same time.  An error is returned if the lock could
    not be acquired.  The error of [os.WriteFile] is not looked at. *)
Definition AcquireBuildLock (outputFilename : string) (w : OS.World) : OS.World * option error :=
  let lock := buildLockFilepath outputFilename in
  match OS.Stat lock w with
  | OS.NotExist => ((OS.WriteFile (Dir X) lock "" w).1, None)
  | OS.Exists => (w, Some (errorString ("file " +:+ lock +:+ " exists")))
  | OS.StatError err =>
      (w, Some (wrapError ("while checking if file " +:+ lock +:+ " exists") err))
  end.

(** LogError logs non-fatal errors. *)
Definition LogError (message : string) (w : OS.World) : OS.World :=
  OS.logged (OS.Error message) w.

(** LogInfo logs infos. *)
Definition LogInfo (message : string) (w : OS.World) : OS.World :=
  OS.logged (OS.Info message) w.

Definition ReleaseBuildLock (outputFilename : string) (w : OS.World) : OS.World :=
  let lock := buildLockFilepath outputFilename in
  match OS.Remove lock w with
  | (w', Some err) =>
      LogError ("could not release build lockfile " +:+ lock +:+ ": " +:+ errorMessage err) w'
  | (w', None) => w'
  end.

Definition couldNotUse (outputFilename : string) (err : error) : string :=
  "Couldn't use previous built database file " +:+ outputFilename +:+ ": "
  +:+ errorMessage err.

Definition PrepareBuild (databaseDirectory outputFilename : string) (flags : Flags)
    (config : Configuration) (w : OS.World) : OS.World * RunContext * option error :=
  let ctx := {| Config := config; CurrentWorkID := ""; DatabaseDirectory := databaseDirectory;
                OutputDatabaseFile := outputFilename; PreviousBuiltDatabase := [];
                flags := flags; ProgressCurrent := 0; ProgressTotal := 0;
                buildMetadata := {| PreviousBuildDate := 0 |} |} in
  let '(w, ctx) :=
    match OS.ReadFile outputFilename w with
    | inr err =>
        (if negb (IsNotExist err) then LogError (couldNotUse outputFilename err) w else w,
         withPreviousBuiltDatabase [] ctx)
    | inl previousBuiltDatabaseRaw =>
        match unmarshalWorks X previousBuiltDatabaseRaw with
        | inr err =>
            (LogError (couldNotUse outputFilename err) w, withPreviousBuiltDatabase [] ctx)
        | inl works => (w, withPreviousBuiltDatabase works ctx)
        end
    end in
  let ctx :=
    match OS.ReadFile (BuildMetadataFilepath config) w with
    | inl raw =>
        match unmarshalBuildMetadata X raw with
        | inl metadata => withBuildMetadata metadata ctx
        | inr _ => ctx
        end
    | inr _ => ctx
    end in
  let w :=
    if IsDefault (Config ctx)
    then LogInfo "No configuration file found. The default configuration was used." w
    else w in
  match OS.MkdirAll (Dir X) (MediaAt config) w with
  | (w, Some err) => (w, ctx, Some (wrapError "while creating the media output directory" err))
  | (w, None) =>
      match AcquireBuildLock outputFilename w with
      | (w, Some err) =>
          (w, ctx,
           Some (wrapError "another ortfo build is in progress (could not acquire build lock)" err))
      | (w, None) => (w, ctx, None)
      end
  end.

(** The description file of a work directory. *)
Definition descriptionFilenameOf (ctx : RunContext) (directory : list string) : string :=
  if Scattered (flags ctx)
  then Join X (directory ++ [ScatteredModeFolder (Config ctx); "description.md"])
  else Join X (directory ++ ["description.md"]).

(** The filter of ComputeProgressTotal. *)
Definition isWorkDirectory (ctx : RunContext) (w : OS.World) (dirEntry : OS.DirEntry) : bool :=
  let dirEntryAbsPath := Join X [DatabaseDirectory ctx; OS.Name dirEntry] in
  if negb (OS.IsDir dirEntry) then false
  else if String.eqb (OS.Name dirEntry) "../" || String.eqb (OS.Name dirEntry) "./" then false
  else
    match OS.Stat (descriptionFilenameOf ctx [dirEntryAbsPath]) w with
    | OS.NotExist => false
    | _ => true
    end.

Definition ComputeProgressTotal (ctx : RunContext) (w : OS.World)
  : RunContext * (list OS.DirEntry + error) :=
  match OS.ReadDir (DatabaseDirectory ctx) w with
  | inr err => (ctx, inr err)
  | inl databaseFiles =>
      let workDirectories := List.filter (isWorkDirectory ctx w) databaseFiles in
      (withProgressTotal (Z.of_nat (List.length workDirectories)) ctx, inl workDirectories)
  end.

(** The first element of the lists of a map, in the order the nested [range]
    loops visit them, that satisfies [P]. *)
Definition findInAll {A} (P : A → bool) (perLanguage : gmap string (list A)) : option A :=
  List.find P (concat (map_to_list perLanguage).*2).

Definition ContentBlockByID (id : string)
    (allLanguagesParagraphs : gmap string (list Paragraph.t))
    (allLanguagesMediae : gmap string (list Media.t))
    (allLanguagesLinks : gmap string (list Link.t)) : ContentBlock.t * bool :=
  match findInAll (λ paragraph, String.eqb (Paragraph.ID paragraph) id) allLanguagesParagraphs with
  | Some paragraph =>
      ({| ContentBlock.Type_ := "paragraph"; ContentBlock.Media := Media.zero;
          ContentBlock.Paragraph := paragraph; ContentBlock.Link := noLink |}, true)
  | None =>
  match findInAll (λ media, String.eqb (Media.ID media) id) allLanguagesMediae with
  | Some media =>
      ({| ContentBlock.Type_ := "media"; ContentBlock.Media := media;
          ContentBlock.Paragraph := noParagraph; ContentBlock.Link := noLink |}, true)
  | None =>
  match findInAll (λ link, String.eqb (Link.ID link) id) allLanguagesLinks with
  | Some link =>
      ({| ContentBlock.Type_ := "link"; ContentBlock.Media := Media.zero;
          ContentBlock.Paragraph := noParagraph; ContentBlock.Link := link |}, true)
  | None =>
      ({| ContentBlock.Type_ := ""; ContentBlock.Media := Media.zero;
          ContentBlock.Paragraph := noParagraph; ContentBlock.Link := noLink |}, false)
  end end end.

(** Handle mediae: the media of one language; a media that fails is logged
    and left out. *)
Definition handleMediae (workID lang : string) (mediae : list MediaEmbedDeclaration.t)
    (w : OS.World) : OS.World * list Media.t :=
  fold_left (λ '(w, analyzed) media,
               match HandleMedia X workID media lang w with
               | (w, inr err) => (LogError (errorMessage err) w, analyzed)
               | (w, inl m) => (w, analyzed ++ [m])
               end)
    mediae (w, []).

Definition handleAllMediae (workID : string)
    (declarations : gmap string (list MediaEmbedDeclaration.t)) (w : OS.World)
  : OS.World * gmap string (list Media.t) :=
  fold_left (λ '(w, analyzedMediae) '(lang, mediae),
               let '(w, analyzed) := handleMediae workID lang mediae w in
               (w, <[lang := analyzed]> analyzedMediae))
    (map_to_list declarations) (w, ∅).

(** Extract colors *)
Definition extractColors (ctx : RunContext) (metadata : WorkMetadata.t)
    (analyzedMediae : gmap string (list Media.t)) : WorkMetadata.t :=
  if ExtractColorsEnabled (Config ctx) && bool_decide (WorkMetadata.Colors metadata = []) then
    if negb (String.eqb (WorkMetadata.Thumbnail metadata) "") then
      match findInAll (λ m, String.eqb (Media.RelativeSource m) (WorkMetadata.Thumbnail metadata))
              analyzedMediae with
      | Some m => WorkMetadata.withColors (Media.Colors m) metadata
      | None => metadata
      end
    else
      match List.find (λ ms : list Media.t, negb (Nat.eqb (List.length ms) 0))
              (map_to_list analyzedMediae).*2 with
      | Some (m :: _) => WorkMetadata.withColors (Media.Colors m) metadata
      | _ => metadata
      end
  else metadata.

(** The blocks of one language: a block that cannot be found is logged and
    left out. *)
Definition assembleBlocks (description : ParsedWork.t)
    (analyzedMediae : gmap string (list Media.t)) (order : list string) (w : OS.World)
  : OS.World * list ContentBlock.t :=
  fold_left (λ '(w, blocks) blockID,
               match ContentBlockByID blockID (ParsedWork.Paragraphs description)
                       analyzedMediae (ParsedWork.Links description) with
               | (block, true) => (w, blocks ++ [block])
               | (_, false) => (LogError ("Could not find block with ID " +:+ blockID) w, blocks)
               end)
    order (w, []).

(** [ResolveLayout(description, lang)] *)
Definition resolveLayoutOf (description : ParsedWork.t) (lang : string)
  : Layouts.Layout + error :=
  Layouts.ResolveLayout (declaredLayout X description lang)
    (default [] (ParsedWork.ContentBlocksOrders description !! lang)) lang.

(** [for lang := range description.Paragraphs]: the first layout that does
    not resolve ends the build of the work. *)
Fixpoint localize (workID : string) (description : ParsedWork.t)
    (analyzedMediae : gmap string (list Media.t)) (langs : list string)
    (localizedContent : gmap string LocalizedWorkContent.t) (w : OS.World)
  : OS.World * (gmap string LocalizedWorkContent.t + error) :=
  match langs with
  | [] => (w, inl localizedContent)
  | lang :: langs' =>
      match resolveLayoutOf description lang with
      | inr err =>
          (w, inr (wrapError ("while resolving " +:+ lang +:+ " layout of " +:+ workID) err))
      | inl layout =>
          let '(w, blocks) :=
            assembleBlocks description analyzedMediae
              (default [] (ParsedWork.ContentBlocksOrders description !! lang)) w in
          localize workID description analyzedMediae langs'
            (<[lang := {| LocalizedWorkContent.Layout := layout;
                          LocalizedWorkContent.Title :=
                            default "" (ParsedWork.Title description !! lang);
                          LocalizedWorkContent.Footnotes :=
                            default ∅ (ParsedWork.Footnotes description !! lang);
                          LocalizedWorkContent.Blocks := blocks |}]> localizedContent) w
      end
  end.

(** UpdateBuildMetadata updates metadata about the latest build. *)
Definition UpdateBuildMetadata (ctx : RunContext) (w : OS.World) : RunContext :=
  withBuildMetadata {| PreviousBuildDate := OS.clock w |} ctx.

(** WriteBuildMetadata writes the latest build metadata file. *)
Definition WriteBuildMetadata (ctx : RunContext) (w : OS.World) : OS.World * option error :=
  let path := BuildMetadataFilepath (Config ctx) in
  let continue (w : OS.World) :=
    match marshalBuildMetadata X (buildMetadata ctx) with
    | inr err => (w, Some (wrapError "while marshaling build metadata to JSON" err))
    | inl raw => OS.WriteFile (Dir X) path raw w
    end in
  match OS.Stat path w with
  | OS.NotExist => continue (OS.MkdirAll (Dir X) (Dir X path) w).1
  | OS.StatError err =>
      (w, Some (wrapError "while creating parent directories for build metadata file" err))
  | OS.Exists => continue w
  end.

(** Build builds a single work given the database & output folders, as
    wells as a work ID. *)
Definition Build (databaseDirectory outputFilename workID : string)
    (ctx : RunContext) (w : OS.World)
  : OS.World * RunContext * (AnalyzedWork.t * option error) :=
  let descriptionFilename := descriptionFilenameOf ctx [databaseDirectory; workID] in
  let ctx := withCurrentWorkID workID ctx in
  match OS.ReadFile descriptionFilename w with
  | inr err => (w, ctx, (AnalyzedWork.zero, Some err))
  | inl descriptionRaw =>
      let description := Description.ParseDescription (description X) descriptionRaw in
      let '(w, analyzedMediae) :=
        handleAllMediae workID (ParsedWork.MediaEmbedDeclarations description) w in
      let metadata := extractColors ctx (ParsedWork.Metadata description) analyzedMediae in
      match localize workID description analyzedMediae
              (map_to_list (ParsedWork.Paragraphs description)).*1 ∅ w with
      | (w, inr err) => (w, ctx, (AnalyzedWork.zero, Some err))
      | (w, inl localizedContent) =>
          let ctx := UpdateBuildMetadata ctx w in
          let w := (WriteBuildMetadata ctx w).1 in
          (w, ctx,
           ({| AnalyzedWork.ID := workID; AnalyzedWork.Metadata := metadata;
               AnalyzedWork.Localized := localizedContent |}, None))
      end
  end.

Definition WriteDatabase (ctx : RunContext) (works : Works) (outputFilename : string)
    (w : OS.World) : OS.World :=
  let worksJSON := marshalWorks X (Minified (flags ctx)) works in
  if String.eqb outputFilename "-" then OS.printed worksJSON w
  else
    match OS.WriteFile (Dir X) outputFilename worksJSON w with
    | (w, Some err) => OS.printed (errorMessage err) w
    | (w, None) => w
    end.

(** [%q] of a string without characters to escape. *)
Definition quoted (s : string) : string := String Str.quote (s +:+ String Str.quote "").

(** [for _, dirEntry := range workDirectories] of BuildSome: the map of
    works at the end of the loop, or the error that ends the loop early. *)
Fixpoint buildWorks (include databaseDirectory outputFilename : string)
    (workDirectories : list OS.DirEntry) (works : Works)
    (ctx : RunContext) (w : OS.World) : OS.World * RunContext * (Works + error) :=
  match workDirectories with
  | [] => (w, ctx, inl works)
  | dirEntry :: rest =>
      let workID := OS.Name dirEntry in
      let '(presentBefore, oldWork) := FindWork X (PreviousBuiltDatabase ctx) workID in
      let included :=
        if String.eqb include "*" then inl true else Match X include workID in
      match included with
      | inr err =>
          (w, ctx,
           inr (wrapError ("while testing include-works pattern " +:+ quoted include) err))
      | inl true =>
          let '(w, ctx, (newWork, err)) := Build databaseDirectory outputFilename workID ctx w in
          let w :=
            match err with
            | Some err =>
                LogError ("while building " +:+ workID +:+ ": " +:+ errorMessage err) w
            | None => w
            end in
          buildWorks include databaseDirectory outputFilename rest
            (<[workID := newWork]> works) ctx w
      | inl false =>
          if presentBefore then
            buildWorks include databaseDirectory outputFilename rest
              (<[workID := oldWork]> works) ctx w
          else
            buildWorks include databaseDirectory outputFilename rest works ctx
              (LogInfo ("Skipped building of work " +:+ workID
                        +:+ ", as it is neither included in " +:+ include
                        +:+ " nor formerly present in " +:+ outputFilename +:+ ".") w)
      end
  end.

(** BuildSome between the acquisition of the lock and its deferred
    release. *)
Definition buildLocked (include databaseDirectory outputFilename : string)
    (ctx : RunContext) (w : OS.World) : OS.World * option error :=
  let ctx := withProgressTotal 1 ctx in
  match ComputeProgressTotal ctx w with
  | (ctx, inr err) =>
      (w, Some (wrapError "while computing total number of works to build" err))
  | (ctx, inl workDirectories) =>
      match buildWorks include databaseDirectory outputFilename workDirectories ∅ ctx w with
      | (w, ctx, inr err) => (w, Some err)
      | (w, ctx, inl works) => (WriteDatabase ctx works outputFilename w, None)
      end
  end.

Definition BuildSome (include databaseDirectory outputFilename : string) (flags : Flags)
    (config : Configuration) (w : OS.World) : OS.World * option error :=
  match PrepareBuild databaseDirectory outputFilename flags config w with
  | (w, ctx, Some err) => (w, Some err)
  | (w, ctx, None) =>
      let '(w, err) := buildLocked include databaseDirectory outputFilename ctx w in
      (ReleaseBuildLock outputFilename w, err)
  end.

(** BuildAll builds the database at outputFilename from databaseDirectory. *)
Definition BuildAll (databaseDirectory outputFilename : string) (flags : Flags)
    (config : Configuration) (w : OS.World) : OS.World * option error :=
  BuildSome "*" databaseDirectory outputFilename flags config w.

End Build.
End Orchestrator.

(** ** What the steps of a build leave alone *)

Module Frame.

(** [path] is a regular file. *)
Definition isFile (path : string) (w : OS.World) : Prop :=
  is_Some (OS.files w !! path) ∧ OS.directories w !! path = None.

(** From [w] to [w'] a regular file at [path] stays one, and [os.Stat] fails
    on the same paths. *)
Definition keeps (path : string) (w w' : OS.World) : Prop :=
  (isFile path w → isFile path w') ∧ OS.statErrors w' = OS.statErrors w.

(** From [w] to [w'] no regular file changed and no directory went away. *)
Definition extends (w w' : OS.World) : Prop :=
  OS.files w' = OS.files w
  ∧ OS.statErrors w' = OS.statErrors w
  ∧ ∀ path, is_Some (OS.directories w !! path) → is_Some (OS.directories w' !! path).

End Frame.

(** ** Sample inputs *)

Module Sample.

Definition textNode (s : string) : Soup.Root :=
  Soup.mkRoot Soup.TextNode s ∅ s s [].

Definition elementNode (tag html fullText : string) (children : list Soup.Root) : Soup.Root :=
  Soup.mkRoot Soup.ElementNode tag ∅ html fullText children.

Definition abbreviationMarkdown : string :=
  "*[API]: Application Programming Interface" +:+ Str.newline +:+ Str.newline
  +:+ "Use the API now".

(** The tree of the document above, as rendered and parsed: two [p]
    elements under the body, each followed by a text node of line breaks. *)
Definition abbreviationTree : Soup.Root :=
  let p1 := elementNode "p" "<p>*[API]: Application Programming Interface</p>"
              "*[API]: Application Programming Interface"
              [textNode "*[API]: Application Programming Interface"] in
  let p2 := elementNode "p" "<p>Use the API now</p>" "Use the API now"
              [textNode "Use the API now"] in
  let body := [p1; textNode (Str.newline +:+ Str.newline); p2; textNode Str.newline] in
  elementNode "html" "" ""
    [elementNode "head" "<head></head>" "" [];
     elementNode "body" "" "" body].

Definition markup : Markup.externals :=
  {| Markup.render := λ _, abbreviationTree;
     Markup.idGenerator := λ _ n, String (ascii_of_nat (97 + n)) "";
     Markup.slugify := λ s _, s;
     Markup.TrimSpace := λ s, s |}.

Definition theParagraph : Paragraph.t :=
  {| Paragraph.ID := "b"; Paragraph.Index := 0; Paragraph.Anchor := "";
     Paragraph.Content := "<p>Use the API now</p>" |}.

(** A work directory whose description can be listed but not read:
    [db/broken/description.md] is a directory. *)
Definition join (parts : list string) : string :=
  match parts with
  | [] => ""
  | p :: ps => fold_left (λ acc q, acc +:+ "/" +:+ q) ps p
  end.

Definition description : Description.externals :=
  {| Description.Unmarshal := λ _, None;
     Description.Decode := λ _, WorkMetadata.zero;
     Description.markup := markup |}.

(** The encoder of the sample lists the identifiers: each entry as its key,
    an equals sign and the [ID] of the work stored under it. *)
Definition listWorks (works : Orchestrator.Works) : string :=
  fold_right (λ '(key, work) acc,
                key +:+ "=" +:+ Orchestrator.AnalyzedWork.ID work +:+ ";" +:+ acc)
    "" (map_to_list works).

Definition orchestrator (layout : option Layouts.declared) : Orchestrator.externals :=
  {| Orchestrator.Join := join;
     Orchestrator.Dir := λ _, "out";
     Orchestrator.Match := λ pattern name, inl (String.eqb pattern name);
     Orchestrator.unmarshalWorks := λ _, inl [];
     Orchestrator.unmarshalBuildMetadata := λ _, inr (errorString "unexpected end of JSON input");
     Orchestrator.marshalWorks := λ _ works, listWorks works;
     Orchestrator.marshalBuildMetadata := λ _, inl "{}";
     Orchestrator.FindWork := λ works workID,
       match List.find (λ work, String.eqb (Orchestrator.AnalyzedWork.ID work) workID) works with
       | Some work => (true, work)
       | None => (false, Orchestrator.AnalyzedWork.zero)
       end;
     Orchestrator.HandleMedia := λ _ _ _ w, (w, inr (errorString "no analyzer"));
     Orchestrator.declaredLayout := λ _ _, layout;
     Orchestrator.description := description |}.

Definition flags : Orchestrator.Flags :=
  {| Orchestrator.Scattered := false; Orchestrator.Silent := true;
     Orchestrator.Minified := false; Orchestrator.Config_ := "";
     Orchestrator.ProgressFile := ""; Orchestrator.NoCache := false |}.

Definition config : Orchestrator.Configuration :=
  {| Orchestrator.MediaAt := "out/media";
     Orchestrator.BuildMetadataFilepath := "out/meta.json";
     Orchestrator.ScatteredModeFolder := ".ortfo";
     Orchestrator.ExtractColorsEnabled := false;
     Orchestrator.IsDefault := false |}.

Definition world (files : list (string * string))
    (directories : list (string * list OS.DirEntry)) : OS.World :=
  {| OS.files := list_to_map files; OS.directories := list_to_map directories;
     OS.statErrors := ∅; OS.stdout := []; OS.log := []; OS.clock := 1 |}.

Definition brokenWorld : OS.World :=
  world []
    [("db", [{| OS.Name := "broken"; OS.IsDir := true |}]);
     ("db/broken", [{| OS.Name := "description.md"; OS.IsDir := true |}]);
     ("db/broken/description.md", []);
     ("out", [])].

(** A build is in progress ([out/.ortfomk-build-lock] exists) and a database
    was written before. *)
Definition lockedWorld : OS.World :=
  world [("out/.ortfomk-build-lock", ""); ("out/database.json", "{}")]
    [("db", []); ("out", [])].

(** As [lockedWorld], but the media output directory of the configuration is
    a regular file. *)
Definition lockedWorldMediaFile : OS.World :=
  world [("out/.ortfomk-build-lock", ""); ("out/database.json", "{}"); ("out/media", "")]
    [("db", []); ("out", [])].

(** One work with a readable description and nothing else in the way. *)
Definition readyWorld : OS.World :=
  world [("db/work/description.md", abbreviationMarkdown)]
    [("db", [{| OS.Name := "work"; OS.IsDir := true |}]);
     ("db/work", [{| OS.Name := "description.md"; OS.IsDir := false |}]);
     ("out", [])].

Definition context : Orchestrator.RunContext :=
  {| Orchestrator.Config := config; Orchestrator.CurrentWorkID := "";
     Orchestrator.DatabaseDirectory := "db";
     Orchestrator.OutputDatabaseFile := "out/database.json";
     Orchestrator.PreviousBuiltDatabase := []; Orchestrator.flags := flags;
     Orchestrator.ProgressCurrent := 0; Orchestrator.ProgressTotal := 0;
     Orchestrator.buildMetadata := {| Orchestrator.PreviousBuildDate := 0 |} |}.

(** A declared layout that names the block [b] and a block [zz] that no
    description has. *)
Definition danglingLayout : Layouts.declared := [[Some "b"; Some "zz"]].

(** The same picture embedded in two languages, with different alt texts. *)
Definition analyzer : Analysis.externals :=
  {| Analysis.probe := λ _,
       inl {| Analysis.contentType := "image/png"; Analysis.size := 2048;
              Analysis.dimensions := {| Width := 640; Height := 480;
                                        AspectRatio := float32_of_bits 1068149419 |};
              Analysis.duration := 0; Analysis.hasSound := false |};
     Analysis.isValidURL := λ s, Str.HasPrefix s "https://";
     Analysis.IsAbs := λ s, Str.HasPrefix s "/";
     Analysis.Abs := λ s, s;
     Analysis.Join := λ a b, join [a; b];
     Analysis.Clean := λ s, s;
     Analysis.slugify := λ s _, s;
     Analysis.filepathBaseNoExt := λ s, s |}.

Definition analysisContext : Analysis.context :=
  {| Analysis.Scattered := false; Analysis.ScatteredModeFolder := ".ortfo" |}.

Definition embed (alt title : string) : MediaEmbedDeclaration.t :=
  {| MediaEmbedDeclaration.Anchor := "cat-png"; MediaEmbedDeclaration.ID := "";
     MediaEmbedDeclaration.Alt := alt; MediaEmbedDeclaration.Title := title;
     MediaEmbedDeclaration.Source := "cat.png";
     MediaEmbedDeclaration.Attributes := Sigils.defaultAttributes |}.

Definition twoLanguages : list (string * list MediaEmbedDeclaration.t) :=
  [("en", [embed "a cat" "Cat"]); ("fr", [embed "un chat" "Chat"])].

End Sample.

(** ** Further definitions *)

(** ** Valid UTF-8

    A string of which [[]rune(s)] loses nothing: the conversion reads one
    rune from each well-formed sequence below, and gives U+FFFD for every
    other byte. *)

Module Utf8.

Definition between (lo hi : nat) (b : ascii) : bool :=
  Nat.leb lo (nat_of_ascii b) && Nat.leb (nat_of_ascii b) hi.

(** A continuation byte, 80 to BF. *)
Definition continuation (b : ascii) : bool := between 128 191 b.

(** [utf8.Valid]: the first byte chooses the length of the sequence and the
    range of the second byte (no overlong form, no surrogate, nothing above
    U+10FFFF). *)
Fixpoint valid (bytes : list ascii) : bool :=
  match bytes with
  | [] => true
  | b0 :: rest =>
      if between 0 127 b0 then valid rest
      else if between 194 223 b0 then
        match rest with
        | b1 :: rest => continuation b1 && valid rest
        | _ => false
        end
      else if between 224 239 b0 then
        match rest with
        | b1 :: b2 :: rest =>
            (if between 224 224 b0 then between 160 191 b1
             else if between 237 237 b0 then between 128 159 b1
             else continuation b1)
            && continuation b2 && valid rest
        | _ => false
        end
      else if between 240 244 b0 then
        match rest with
        | b1 :: b2 :: b3 :: rest =>
            (if between 240 240 b0 then between 144 191 b1
             else if between 244 244 b0 then between 128 143 b1
             else continuation b1)
            && continuation b2 && continuation b3 && valid rest
        | _ => false
        end
      else false
  end.

(** [utf8.ValidString] *)
Definition ValidString (s : string) : bool := valid (Str.runes s).

End Utf8.

Module AbbrMatch.

(** Whether [\bname\b] matches somewhere in [text], [prev] being the
    character before it. *)
Fixpoint matchesAnywhere (name : list ascii) (prev : option ascii) (text : list ascii) : bool :=
  match text with
  | [] => false
  | c :: rest => Abbr.matchesAt name prev text || matchesAnywhere name (Some c) rest
  end.

(** A term that reads as itself in a pattern: not empty and made of word
    characters only.  [`\b` + name + `\b`] is then a valid pattern that
    matches the term and nothing else. *)
Definition plainTerm (name : string) : bool :=
  negb (String.eqb name "") && forallb Abbr.isWord (Str.runes name).

(** A replacement that ReplaceAllString inserts as it is: it holds no [$]
    for the expansion of submatches. *)
Definition plainTemplate (repl : string) : bool :=
  negb (existsb (Ascii.eqb "$") (Str.runes repl)).

End AbbrMatch.

(** ** Content blocks (ui.go) *)

Module Blocks.
Import Orchestrator.

(** [ContentBlock.ID]; [None] stands for the panic on an unknown block
    type. *)
Definition ID (b : ContentBlock.t) : option string :=
  if String.eqb (ContentBlock.Type_ b) "media" then Some (Media.ID (ContentBlock.Media b))
  else if String.eqb (ContentBlock.Type_ b) "paragraph"
       then Some (Paragraph.ID (ContentBlock.Paragraph b))
  else if String.eqb (ContentBlock.Type_ b) "link" then Some (Link.ID (ContentBlock.Link b))
  else None.

(** [ContentBlock.AsMedia]; [None] stands for the panic. *)
Definition AsMedia (b : ContentBlock.t) : option Media.t :=
  if negb (String.eqb (ContentBlock.Type_ b) "media") then None
  else Some (ContentBlock.Media b).

(** [ContentBlock.AsLink]; [None] stands for the panic. *)
Definition AsLink (b : ContentBlock.t) : option Link.t :=
  if negb (String.eqb (ContentBlock.Type_ b) "link") then None
  else Some (ContentBlock.Link b).

(** [ContentBlock.AsParagraph]; [None] stands for the panic.  The paragraph
    returned is built from the identifier, the anchor and the content
    alone. *)
Definition AsParagraph (b : ContentBlock.t) : option Paragraph.t :=
  if negb (String.eqb (ContentBlock.Type_ b) "paragraph") then None
  else Some {| Paragraph.ID := Paragraph.ID (ContentBlock.Paragraph b);
               Paragraph.Index := 0;
               Paragraph.Anchor := Paragraph.Anchor (ContentBlock.Paragraph b);
               Paragraph.Content := Paragraph.Content (ContentBlock.Paragraph b) |}.

(** Some list of the map holds an element with the identifier [id]. *)
Definition holds {A} (getID : A → string) (id : string) (perLanguage : gmap string (list A))
  : Prop :=
  ∃ language items item,
    perLanguage !! language = Some items ∧ item ∈ items ∧ getID item = id.

End Blocks.

(** ** What a built work holds *)

Module BuiltWork.
Import Orchestrator.

(** The content of the language [lang] is made from the description: its
    title and footnotes, the layout resolved for the language, and the
    blocks of the identifiers of its order that ContentBlockByID finds. *)
Definition localizes (X : externals) (description : ParsedWork.t)
    (analyzedMediae : gmap string (list Media.t)) (lang : string)
    (content : LocalizedWorkContent.t) : Prop :=
  LocalizedWorkContent.Title content = default "" (ParsedWork.Title description !! lang)
  ∧ LocalizedWorkContent.Footnotes content
    = default ∅ (ParsedWork.Footnotes description !! lang)
  ∧ resolveLayoutOf X description lang = inl (LocalizedWorkContent.Layout content)
  ∧ Blocks.ID <$> LocalizedWorkContent.Blocks content
    = Some <$> List.filter
                 (λ blockID,
                    (ContentBlockByID blockID (ParsedWork.Paragraphs description)
                       analyzedMediae (ParsedWork.Links description)).2)
                 (default [] (ParsedWork.ContentBlocksOrders description !! lang)).

End BuiltWork.

(** ** Where the media analysis fails *)

Module AnalysisFailure.
Import Analysis.

(** The declaration names a local file whose probe fails. *)
Definition failing (E : externals) (currentDirectory : string)
    (media : MediaEmbedDeclaration.t) : bool :=
  negb (isValidURL E (MediaEmbedDeclaration.Source media))
  && match probe E (resolve E currentDirectory media) with
     | inr _ => true
     | inl _ => false
     end.

(** The error of the first failing declaration, if there is one. *)
Definition firstFailure (E : externals) (currentDirectory : string)
    (declarations : list MediaEmbedDeclaration.t) : option error :=
  match List.find (failing E currentDirectory) declarations with
  | Some media =>
      match probe E (resolve E currentDirectory media) with
      | inr err => Some err
      | inl _ => None
      end
  | None => None
  end.

End AnalysisFailure.

(** ** From an analyzed work back to a parsed one (ui.go, AnalyzedWork.Parsed) *)

Module Unanalyzed.
Import Orchestrator.

(** A Go map that may be nil: [None] is the nil map. *)
Definition nilable (A : Type) : Type := option (gmap string A).

(** [m[key] = value]; [None] stands for the panic on an assignment to an
    entry of a nil map. *)
Definition assignEntry {A} (m : nilable A) (key : string) (value : A) : option (nilable A) :=
  match m with
  | None => None
  | Some entries => Some (Some (<[key := value]> entries))
  end.

(** [m[key]], which on a nil map and on a missing key is the zero value. *)
Definition entry {A} (zero : A) (m : nilable A) (key : string) : A :=
  match m with
  | None => zero
  | Some entries => default zero (entries !! key)
  end.

(** ParsedWork, with its maps as Go has them. *)
Record t := mk {
  Metadata : WorkMetadata.t;
  Title : nilable string;
  Paragraphs : nilable (list Paragraph.t);
  MediaEmbedDeclarations : nilable (list MediaEmbedDeclaration.t);
  Links : nilable (list Link.t);
  Footnotes : nilable (gmap string string);
  ContentBlocksOrders : nilable (list string)
}.

(** The named result [p ParsedWork] when the function starts. *)
Definition zero : t :=
  {| Metadata := WorkMetadata.zero; Title := None; Paragraphs := None;
     MediaEmbedDeclarations := None; Links := None; Footnotes := None;
     ContentBlocksOrders := None |}.

Definition withMetadata (metadata : WorkMetadata.t) (p : t) : t :=
  {| Metadata := metadata; Title := Title p; Paragraphs := Paragraphs p;
     MediaEmbedDeclarations := MediaEmbedDeclarations p; Links := Links p;
     Footnotes := Footnotes p; ContentBlocksOrders := ContentBlocksOrders p |}.

Definition withTitle (title : nilable string) (p : t) : t :=
  {| Metadata := Metadata p; Title := title; Paragraphs := Paragraphs p;
     MediaEmbedDeclarations := MediaEmbedDeclarations p; Links := Links p;
     Footnotes := Footnotes p; ContentBlocksOrders := ContentBlocksOrders p |}.

Definition withParagraphs (paragraphs : nilable (list Paragraph.t)) (p : t) : t :=
  {| Metadata := Metadata p; Title := Title p; Paragraphs := paragraphs;
     MediaEmbedDeclarations := MediaEmbedDeclarations p; Links := Links p;
     Footnotes := Footnotes p; ContentBlocksOrders := ContentBlocksOrders p |}.

Definition withMediaEmbedDeclarations (mediae : nilable (list MediaEmbedDeclaration.t))
    (p : t) : t :=
  {| Metadata := Metadata p; Title := Title p; Paragraphs := Paragraphs p;
     MediaEmbedDeclarations := mediae; Links := Links p;
     Footnotes := Footnotes p; ContentBlocksOrders := ContentBlocksOrders p |}.

Definition withLinks (links : nilable (list Link.t)) (p : t) : t :=
  {| Metadata := Metadata p; Title := Title p; Paragraphs := Paragraphs p;
     MediaEmbedDeclarations := MediaEmbedDeclarations p; Links := links;
     Footnotes := Footnotes p; ContentBlocksOrders := ContentBlocksOrders p |}.

Definition withFootnotes (footnotes : nilable (gmap string string)) (p : t) : t :=
  {| Metadata := Metadata p; Title := Title p; Paragraphs := Paragraphs p;
     MediaEmbedDeclarations := MediaEmbedDeclarations p; Links := Links p;
     Footnotes := footnotes; ContentBlocksOrders := ContentBlocksOrders p |}.

Definition withContentBlocksOrders (orders : nilable (list string)) (p : t) : t :=
  {| Metadata := Metadata p; Title := Title p; Paragraphs := Paragraphs p;
     MediaEmbedDeclarations := MediaEmbedDeclarations p; Links := Links p;
     Footnotes := Footnotes p; ContentBlocksOrders := orders |}.

Section Parsed.
(** [Media.EmbedDeclaration], which is not in these sources. *)
Context (EmbedDeclaration : Media.t → MediaEmbedDeclaration.t).

(** The body of [for _, block := range localized.Blocks]. *)
Definition parseBlock (language : string) (p : t) (block : ContentBlock.t) : option t :=
  p ← (if String.eqb (ContentBlock.Type_ block) "paragraph" then
         paragraphs ← assignEntry (Paragraphs p) language
                        (entry [] (Paragraphs p) language ++ [ContentBlock.Paragraph block]);
         Some (withParagraphs paragraphs p)
       else if String.eqb (ContentBlock.Type_ block) "media" then
         mediae ← assignEntry (MediaEmbedDeclarations p) language
                    (entry [] (MediaEmbedDeclarations p) language
                     ++ [EmbedDeclaration (ContentBlock.Media block)]);
         Some (withMediaEmbedDeclarations mediae p)
       else if String.eqb (ContentBlock.Type_ block) "link" then
         links ← assignEntry (Links p) language
                   (entry [] (Links p) language ++ [ContentBlock.Link block]);
         Some (withLinks links p)
       else Some p);
  blockID ← Blocks.ID block;
  orders ← assignEntry (ContentBlocksOrders p) language
             (entry [] (ContentBlocksOrders p) language ++ [blockID]);
  Some (withContentBlocksOrders orders p).

Fixpoint parseBlocks (language : string) (blocks : list ContentBlock.t) (p : t) : option t :=
  match blocks with
  | [] => Some p
  | block :: blocks' => p ← parseBlock language p block; parseBlocks language blocks' p
  end.

(** The body of [for language, localized := range w.Localized]. *)
Definition parseLocalized (language : string) (localized : LocalizedWorkContent.t) (p : t)
  : option t :=
  paragraphs ← assignEntry (Paragraphs p) language [];
  let p := withParagraphs paragraphs p in
  mediae ← assignEntry (MediaEmbedDeclarations p) language [];
  let p := withMediaEmbedDeclarations mediae p in
  links ← assignEntry (Links p) language [];
  let p := withLinks links p in
  title ← assignEntry (Title p) language (LocalizedWorkContent.Title localized);
  let p := withTitle title p in
  footnotes ← assignEntry (Footnotes p) language (LocalizedWorkContent.Footnotes localized);
  let p := withFootnotes footnotes p in
  orders ← assignEntry (ContentBlocksOrders p) language [];
  let p := withContentBlocksOrders orders p in
  parseBlocks language (LocalizedWorkContent.Blocks localized) p.

Fixpoint parseAllLocalized (entries : list (string * LocalizedWorkContent.t)) (p : t)
  : option t :=
  match entries with
  | [] => Some p
  | (language, localized) :: entries' =>
      p ← parseLocalized language localized p; parseAllLocalized entries' p
  end.

(** Parsed returns a parsed work from the analyzed work, dropping analysis
    information.  [None] stands for a panic. *)
Definition Parsed (w : AnalyzedWork.t) : option t :=
  parseAllLocalized (map_to_list (AnalyzedWork.Localized w))
    (withMetadata (AnalyzedWork.Metadata w) zero).

End Parsed.
End Unanalyzed.

(** ** The mediae of a work *)

Module Handled.
Import Orchestrator.

(** [outcome] is what HandleMedia gave for [media], in some state of the
    world. *)
Definition outcomeOf (X : externals) (workID lang : string)
    (media : MediaEmbedDeclaration.t) (outcome : Media.t + error) : Prop :=
  ∃ w, (HandleMedia X workID media lang w).2 = outcome.

(** The mediae among the outcomes, in order. *)
Definition kept (outcomes : list (Media.t + error)) : list Media.t :=
  omap (λ outcome, match outcome with
                   | inl analyzed => Some analyzed
                   | inr _ => None
                   end) outcomes.

(** The log of [w] holds the error of the outcome, when it is one. *)
Definition logs (w : OS.World) (outcome : Media.t + error) : Prop :=
  match outcome with
  | inl _ => True
  | inr err => OS.Error (errorMessage err) ∈ OS.log w
  end.

(** The log of [w'] is the log of [w] with lines added at its end. *)
Definition grows (w w' : OS.World) : Prop :=
  ∃ lines, OS.log w' = OS.log w ++ lines.

(** HandleMedia writes to the log only by adding lines at its end. *)
Definition appendsToLog (X : externals) : Prop :=
  ∀ workID media lang w, grows w (HandleMedia X workID media lang w).1.

End Handled.
(** * Properties *)

(** ** Strings *)

Lemma ofRunes_runes s : Str.ofRunes (Str.runes s) = s.
Proof. apply string_of_list_ascii_of_string. Qed.

Lemma runes_ofRunes rs : Str.runes (Str.ofRunes rs) = rs.
Proof. apply list_ascii_of_string_of_list_ascii. Qed.

Lemma str_app_cons c (s t : string) : String c s +:+ t = String c (s +:+ t).
Proof. reflexivity. Qed.

Lemma str_app_nil (t : string) : "" +:+ t = t.
Proof. reflexivity. Qed.

Lemma runes_app s t : Str.runes (s +:+ t) = Str.runes s ++ Str.runes t.
Proof.
  induction s as [|c s IH]; [done |].
  rewrite str_app_cons. simpl. by rewrite IH.
Qed.

Lemma ofRunes_app rs ts : Str.ofRunes (rs ++ ts) = Str.ofRunes rs +:+ Str.ofRunes ts.
Proof.
  induction rs as [|c rs IH]; [done |].
  simpl. rewrite str_app_cons. by rewrite <- IH.
Qed.

Lemma runes_inj s t : Str.runes s = Str.runes t → s = t.
Proof. intros H. by rewrite <- (ofRunes_runes s), <- (ofRunes_runes t), H. Qed.

Lemma str_app_assoc (s t u : string) : (s +:+ t) +:+ u = s +:+ (t +:+ u).
Proof.
  induction s as [|c s IH]; [done |].
  rewrite !str_app_cons. by rewrite IH.
Qed.

Lemma str_app_empty_r (s : string) : s +:+ "" = s.
Proof.
  induction s as [|c s IH]; [done |].
  rewrite str_app_cons. by rewrite IH.
Qed.

(** ** Attribute sigils *)

Section SigilLoop.
Import Sigils.

Lemma decodeLoop_cons c l st : decodeLoop (c :: l) st = decodeLoop l (decodeRune st c).
Proof. reflexivity. Qed.

Lemma decodeLoop_outside l st :
  inAttributesZone st = false →
  attrs (decodeLoop l st) = attrs st
  ∧ altText (decodeLoop l st) = Str.ofRunes (rev l) +:+ altText st
  ∧ inAttributesZone (decodeLoop l st) = false.
Proof.
  revert st. induction l as [|c l IH]; intros st Hz; [done |].
  rewrite decodeLoop_cons.
  assert (Hstep : decodeRune st c =
    {| attrs := attrs st; altText := String c (altText st); inAttributesZone := false |}).
  { unfold decodeRune. rewrite Hz, andb_false_r. done. }
  rewrite Hstep.
  destruct (IH {| attrs := attrs st; altText := String c (altText st);
                  inAttributesZone := false |} eq_refl) as (Ha & Ht & Hi).
  rewrite Ha, Ht, Hi. simpl. repeat split.
  rewrite ofRunes_app, str_app_assoc. done.
Qed.

Lemma occurs_cons x c l : occurs x (c :: l) = Ascii.eqb c x || occurs x l.
Proof. unfold occurs. simpl. by rewrite (Ascii.eqb_sym x c). Qed.

Lemma zoneEffect_nil a : zoneEffect [] a = a.
Proof. destruct a; unfold zoneEffect; simpl. by rewrite !orb_false_r, andb_true_r. Qed.

Lemma decodeLoop_inside l st :
  inAttributesZone st = true →
  attrs (decodeLoop l st) = zoneEffect (zoneOf l) (attrs st).
Proof.
  revert st. induction l as [|c l IH]; intros st Hz.
  - simpl. by rewrite zoneEffect_nil.
  - rewrite decodeLoop_cons. simpl zoneOf.
    unfold decodeRune. rewrite Hz, andb_true_r.
    destruct (Ascii.eqb c " ") eqn:Hsp.
    + rewrite zoneEffect_nil.
      by destruct (decodeLoop_outside l
        {| attrs := attrs st; altText := altText st; inAttributesZone := false |} eq_refl)
        as (-> & _ & _).
    + rewrite IH by done. unfold zoneEffect. rewrite !occurs_cons.
      destruct (attrs st) as [lo au mu pl co].
      cbn [attrs Loop Autoplay Muted Playsinline Controls].
      destruct (Ascii.eqb c RuneAutoplay) eqn:E1.
      { apply Ascii.eqb_eq in E1 as ->. cbn.
        rewrite ?orb_true_r, ?orb_false_r, ?orb_true_l. done. }
      destruct (Ascii.eqb c RuneLoop) eqn:E2.
      { apply Ascii.eqb_eq in E2 as ->. cbn.
        rewrite ?orb_true_r, ?orb_false_r, ?orb_true_l. done. }
      destruct (Ascii.eqb c RuneHideControls) eqn:E3.
      { apply Ascii.eqb_eq in E3 as ->. cbn.
        rewrite ?orb_true_r, ?orb_false_r, ?orb_true_l, ?andb_false_r. done. }
      cbn. done.
Qed.

Lemma ExtractAttributesFromAlt_attrs alt :
  (ExtractAttributesFromAlt alt).2 = zoneEffect (consumed alt) defaultAttributes.
Proof.
  unfold ExtractAttributesFromAlt, consumed.
  destruct (lastRuneIsAttribute alt); simpl.
  - by rewrite decodeLoop_inside.
  - by rewrite zoneEffect_nil.
Qed.

End SigilLoop.

(** C5.  For every alt text, the decoded attribute set is determined flag by
    flag by the sigils that were consumed: [Controls] is true unless the
    hide-controls sigil was consumed; [Loop], [Autoplay], [Muted] and
    [Playsinline] are false unless their sigil was consumed (the loop sigil,
    the autoplay sigil, the autoplay sigil and the hide-controls sigil); hence
    autoplay implies muted, and cleared controls imply playsinline. *)
Theorem C5_sigil_invariants (alt : string) :
  let a := (Sigils.ExtractAttributesFromAlt alt).2 in
  let zone := Sigils.consumed alt in
  Controls a = negb (Sigils.occurs Sigils.RuneHideControls zone)
  ∧ Loop a = Sigils.occurs Sigils.RuneLoop zone
  ∧ Autoplay a = Sigils.occurs Sigils.RuneAutoplay zone
  ∧ Muted a = Sigils.occurs Sigils.RuneAutoplay zone
  ∧ Playsinline a = Sigils.occurs Sigils.RuneHideControls zone
  ∧ (Autoplay a = true → Muted a = true)
  ∧ (Controls a = false → Playsinline a = true).
Proof.
  intros a zone. subst a zone. rewrite ExtractAttributesFromAlt_attrs.
  unfold Sigils.zoneEffect, Sigils.defaultAttributes. simpl.
  repeat split; try done.
  destruct (Sigils.occurs Sigils.RuneHideControls (Sigils.consumed alt)); done.
Qed.

Lemma C5_sigil_invariants_witness :
  let a := (Sigils.ExtractAttributesFromAlt "clip =>").2 in
  Autoplay a = true ∧ Muted a = true ∧ Controls a = false ∧ Playsinline a = true.
Proof.
  pose proof (C5_sigil_invariants "clip =>") as (_ & _ & _ & _ & _ & Hm & Hp).
  split; [reflexivity |]. split; [apply Hm; reflexivity |].
  split; [reflexivity |]. apply Hp; reflexivity.
Defined.

(** C4, as the specification words it, fails: without a separating space the
    attribute zone runs back to the last space of the alt text, so the clean
    alt of ["a photo>"] is ["a"]. *)
Lemma C4_no_separator_counterexample :
  Sigils.ExtractAttributesFromAlt "a photo>"
  = ("a", {| Loop := false; Autoplay := true; Muted := true;
             Playsinline := false; Controls := true |})
  ∧ (Sigils.ExtractAttributesFromAlt "a photo>").1 ≠ "a photo".
Proof. split; [reflexivity | discriminate]. Qed.

(** C4, amended.  With the separating space the sigil is decoded and the alt
    text kept: ["a photo >"] gives clean alt ["a photo"] with autoplay, muted
    and controls set, loop and playsinline clear; and an alt text whose final
    character is no sigil is returned unchanged with the default attributes
    (controls set, all others clear). *)
Theorem C4_sigil_decoding :
  Sigils.ExtractAttributesFromAlt "a photo >"
  = ("a photo", {| Loop := false; Autoplay := true; Muted := true;
                   Playsinline := false; Controls := true |})
  ∧ Sigils.ExtractAttributesFromAlt "a photo" = ("a photo", Sigils.defaultAttributes)
  ∧ ∀ alt, Sigils.lastRuneIsAttribute alt = false →
      Sigils.ExtractAttributesFromAlt alt = (alt, Sigils.defaultAttributes).
Proof.
  split; [reflexivity |]. split; [reflexivity |].
  intros alt H. unfold Sigils.ExtractAttributesFromAlt. by rewrite H.
Qed.

Lemma C4_sigil_decoding_witness :
  Sigils.lastRuneIsAttribute "a photo" = false
  ∧ Sigils.ExtractAttributesFromAlt "a photo" = ("a photo", Sigils.defaultAttributes).
Proof.
  split; [reflexivity |].
  destruct C4_sigil_decoding as (_ & _ & H). apply (H "a photo"). reflexivity.
Defined.

(** ** Header/body splitter *)

Lemma substring_all (s : string) : String.substring 0 (String.length s) s = s.
Proof. induction s as [|c s IH]; simpl; [done | by rewrite IH]. Qed.

Lemma HasPrefix_tab_cons c rest :
  Str.HasPrefix (String c rest) (String Str.tab "") = Ascii.eqb Str.tab c.
Proof.
  unfold Str.HasPrefix. cbn [String.prefix].
  destruct (ascii_dec Str.tab c) as [<- | Hne].
  - rewrite Ascii.eqb_refl. by destruct rest.
  - symmetry. by apply Ascii.eqb_neq.
Qed.

Lemma TrimPrefix_tab rest :
  Str.TrimPrefix (String Str.tab rest) (String Str.tab "") = rest.
Proof.
  unfold Str.TrimPrefix. rewrite HasPrefix_tab_cons, Ascii.eqb_refl.
  cbn [String.length String.substring Nat.sub].
  rewrite Nat.sub_0_r. apply substring_all.
Qed.

(** The tab loop stops after at most one turn: two units of fuel are enough,
    and more fuel gives the same line. *)
Lemma expandTabsLoop_total (line : string) (fuel : nat) :
  (2 <= fuel)%nat →
  Header.expandTabsLoop fuel line = Some (Header.expandTabs line).
Proof.
  intros Hfuel. destruct fuel as [|[|fuel]]; [lia | lia |].
  unfold Header.expandTabs. destruct line as [|c rest]; [done |].
  cbn [Header.expandTabsLoop]. rewrite HasPrefix_tab_cons.
  destruct (Ascii.eqb_spec Str.tab c) as [<- | Hne]; [| done].
  rewrite TrimPrefix_tab. done.
Qed.

Lemma expandTabs_no_leading_tab (line : string) :
  Str.HasPrefix line (String Str.tab "") = false → Header.expandTabs line = line.
Proof.
  intros H. unfold Header.expandTabs. cbn [Header.expandTabsLoop]. by rewrite H.
Qed.

Lemma expandTabs_leading_tab (rest : string) :
  Header.expandTabs (String Str.tab rest) = "    " +:+ rest.
Proof.
  unfold Header.expandTabs. cbn [Header.expandTabsLoop].
  rewrite HasPrefix_tab_cons, Ascii.eqb_refl, TrimPrefix_tab. done.
Qed.

Lemma splitHeader_expanded (descriptionRaw : string) :
  Header.splitHeader descriptionRaw
  = fold_left Header.accumulate (Header.expandedLines descriptionRaw)
      {| Header.inYAMLHeader := false; Header.rawYAMLPart := "";
         Header.markdownPart := "" |}.
Proof.
  unfold Header.splitHeader, Header.expandedLines.
  generalize ({| Header.inYAMLHeader := false; Header.rawYAMLPart := "";
                 Header.markdownPart := "" |}).
  induction (Str.Lines descriptionRaw) as [|l ls IH]; intros st; [done |].
  simpl. apply IH.
Qed.

(** C8, as the specification words it, fails: a tab that is not the first
    character of its line reaches the body unexpanded, and of two leading
    tabs only the first is expanded. *)
Lemma C8_inner_tab_counterexample :
  Header.markdownPart (Header.splitHeader ("a" +:+ String Str.tab "b"))
  = "a" +:+ String Str.tab "b" +:+ Str.newline
  ∧ Header.hasTab (Header.markdownPart (Header.splitHeader ("a" +:+ String Str.tab "b"))) = true
  ∧ Header.expandedLines (String Str.tab (String Str.tab "x")) = ["    " +:+ String Str.tab "x"].
Proof. repeat split; reflexivity. Qed.

(** C8, amended.  Before header-delimiter detection a tab at the start of a
    line is expanded to four spaces, and a line that does not start with a tab
    is left as it is, tabs inside it included; delimiter detection and the
    header/body accumulation then run on the lines so expanded. *)
Theorem C8_leading_tab_expanded (descriptionRaw : string) :
  (∀ line, Str.HasPrefix line (String Str.tab "") = false →
     Header.expandTabs line = line)
  ∧ (∀ rest, Str.HasPrefix rest (String Str.tab "") = false →
       Header.expandTabs (String Str.tab rest) = "    " +:+ rest)
  ∧ Header.splitHeader descriptionRaw
    = fold_left Header.accumulate (map Header.expandTabs (Str.Lines descriptionRaw))
        {| Header.inYAMLHeader := false; Header.rawYAMLPart := "";
           Header.markdownPart := "" |}.
Proof.
  split; [apply expandTabs_no_leading_tab |].
  split; [intros rest _; apply expandTabs_leading_tab |].
  apply splitHeader_expanded.
Qed.

Lemma C8_leading_tab_expanded_witness :
  Header.expandTabs ("key: a" +:+ String Str.tab "b") = "key: a" +:+ String Str.tab "b"
  ∧ Header.expandTabs (String Str.tab "- item") = "    - item".
Proof.
  destruct (C8_leading_tab_expanded "") as (Ha & Hb & _). split.
  - apply Ha. reflexivity.
  - apply (Hb "- item"). reflexivity.
Defined.

(** ** Language sectioner *)

Section SectionerLoop.
Import Sectioner.

Lemma ofRunes_nonempty c l : Str.ofRunes (c :: l) ≠ "".
Proof. done. Qed.

Lemma spacesThenRest_nonempty l g : Regexp.spacesThenRest l = Some g → g ≠ [].
Proof.
  unfold Regexp.spacesThenRest. destruct (Regexp.spanSpaces l) as [ws rest].
  destruct ws as [|w ws]; [done |]. destruct rest as [|r rest].
  - destruct (rev (w :: ws)) as [|c [|c' tl]]; try done.
    destruct (Ascii.eqb c Str.nl); [done |]. by intros [= <-].
  - destruct (existsb _ _); [done |]. by intros [= <-].
Qed.

(** A language name captured by the marker pattern is never empty. *)
Lemma languageMarker_nonempty line language :
  Regexp.languageMarker line = Some language → language ≠ "".
Proof.
  unfold Regexp.languageMarker.
  destruct (Str.runes line) as [|c1 [|c2 l]]; try done.
  destruct (Ascii.eqb c1 ":" && Ascii.eqb c2 ":"); [| done].
  destruct (Regexp.spacesThenRest l) as [g|] eqn:Hg; [| done].
  apply spacesThenRest_nonempty in Hg. intros [= <-].
  destruct g; [done | apply ofRunes_nonempty].
Qed.

Lemma splitLoop_cons line lines st :
  splitLoop (line :: lines) st = splitLoop lines (splitLine st line).
Proof. reflexivity. Qed.

Lemma splitLoop_app pre post st :
  splitLoop (pre ++ post) st = splitLoop post (splitLoop pre st).
Proof. apply fold_left_app. Qed.

Lemma eqb_empty_false (s : string) : s ≠ "" → String.eqb s "" = false.
Proof. intros H. by apply String.eqb_neq. Qed.

(** The loop body on a marker line: the bucket of the marker's language is
    emptied, and then receives the marker line itself. *)
Lemma splitLine_marker st line language :
  Regexp.languageMarker line = Some language →
  splitLine st line =
    {| currentLanguage := language; before := before st;
       markdownRawPerLanguage :=
         <[language := line +:+ Str.newline]> (markdownRawPerLanguage st) |}.
Proof.
  intros Hm. unfold splitLine. rewrite Hm.
  cbn [currentLanguage before markdownRawPerLanguage].
  rewrite (eqb_empty_false language) by eauto using languageMarker_nonempty.
  rewrite lookup_insert_eq, insert_insert_eq. done.
Qed.

Lemma splitLine_preamble st line :
  Regexp.languageMarker line = None → currentLanguage st = "" →
  splitLine st line =
    {| currentLanguage := ""; before := before st +:+ line +:+ Str.newline;
       markdownRawPerLanguage := markdownRawPerLanguage st |}.
Proof. intros Hm Hc. unfold splitLine. rewrite Hm, Hc. done. Qed.

Lemma splitLine_bucket st line :
  Regexp.languageMarker line = None → currentLanguage st ≠ "" →
  splitLine st line =
    {| currentLanguage := currentLanguage st; before := before st;
       markdownRawPerLanguage :=
         <[currentLanguage st :=
             default "" (markdownRawPerLanguage st !! currentLanguage st)
             +:+ line +:+ Str.newline]> (markdownRawPerLanguage st) |}.
Proof. intros Hm Hc. unfold splitLine. rewrite Hm, (eqb_empty_false _ Hc). done. Qed.

Lemma isMarker_true line : isMarker line = true ↔ is_Some (Regexp.languageMarker line).
Proof. unfold isMarker. by rewrite bool_decide_eq_true. Qed.

Lemma isMarker_false line : isMarker line = false ↔ Regexp.languageMarker line = None.
Proof.
  unfold isMarker. rewrite bool_decide_eq_false, <- eq_None_not_Some. done.
Qed.

Lemma joinLines_cons line lines :
  joinLines (line :: lines) = line +:+ Str.newline +:+ joinLines lines.
Proof. reflexivity. Qed.

(** The preamble: once a language is current nothing more is added; before
    that, exactly the lines up to the first marker are. *)
Lemma splitLoop_before lines st :
  before (splitLoop lines st) =
    if String.eqb (currentLanguage st) "" then before st +:+ joinLines (unmarkedPrefix lines)
    else before st.
Proof.
  revert st. induction lines as [|line lines IH]; intros st.
  - simpl. rewrite str_app_empty_r. by destruct (String.eqb _ _).
  - rewrite splitLoop_cons, IH. cbn [unmarkedPrefix].
    destruct (Regexp.languageMarker line) as [language|] eqn:Hm.
    + rewrite (splitLine_marker _ _ _ Hm). cbn [currentLanguage before].
      rewrite (eqb_empty_false language) by eauto using languageMarker_nonempty.
      assert (isMarker line = true) as -> by (apply isMarker_true; eauto).
      simpl. rewrite str_app_empty_r. by destruct (String.eqb _ _).
    + assert (isMarker line = false) as -> by by apply isMarker_false.
      destruct (String.eqb_spec (currentLanguage st) "") as [Hc | Hc].
      * rewrite (splitLine_preamble _ _ Hm Hc). cbn [currentLanguage before].
        rewrite joinLines_cons, !str_app_assoc. done.
      * rewrite (splitLine_bucket _ _ Hm Hc). cbn [currentLanguage before].
        by rewrite (eqb_empty_false _ Hc).
Qed.

(** A language that is not current keeps its bucket as long as no marker
    names it. *)
Lemma splitLoop_other language lines st :
  (currentLanguage st = language → language = "") →
  Forall (λ l, Regexp.languageMarker l ≠ Some language) lines →
  markdownRawPerLanguage (splitLoop lines st) !! language
  = markdownRawPerLanguage st !! language.
Proof.
  intros Hc Hall. revert st Hc.
  induction Hall as [|line lines Hline Hall IH]; intros st Hc; [done |].
  rewrite splitLoop_cons.
  destruct (Regexp.languageMarker line) as [language'|] eqn:Hm.
  - rewrite (splitLine_marker _ _ _ Hm). rewrite IH; cbn.
    + apply lookup_insert_ne. congruence.
    + congruence.
  - destruct (String.eqb_spec (currentLanguage st) "") as [Hcur | Hcur].
    + rewrite (splitLine_preamble _ _ Hm Hcur). rewrite IH; cbn; [done |].
      intros <-. done.
    + rewrite (splitLine_bucket _ _ Hm Hcur). rewrite IH; cbn; [| done].
      apply lookup_insert_ne. intros Heq. apply Hcur. rewrite Heq. by apply Hc.
Qed.

(** The current language receives the lines up to the next marker. *)
Lemma splitLoop_current language text lines st :
  currentLanguage st = language → language ≠ "" →
  markdownRawPerLanguage st !! language = Some text →
  Forall (λ l, Regexp.languageMarker l ≠ Some language) lines →
  markdownRawPerLanguage (splitLoop lines st) !! language
  = Some (text +:+ joinLines (unmarkedPrefix lines)).
Proof.
  intros Hc Hne Ht Hall. revert st text Hc Ht.
  induction Hall as [|line lines Hline Hall IH]; intros st text Hc Ht.
  - simpl. by rewrite str_app_empty_r.
  - rewrite splitLoop_cons. cbn [unmarkedPrefix].
    destruct (Regexp.languageMarker line) as [language'|] eqn:Hm.
    + assert (isMarker line = true) as -> by (apply isMarker_true; eauto).
      rewrite (splitLine_marker _ _ _ Hm).
      rewrite splitLoop_other; [| cbn; congruence | done]. cbn.
      rewrite lookup_insert_ne by congruence. by rewrite Ht, str_app_empty_r.
    + assert (isMarker line = false) as -> by by apply isMarker_false.
      assert (Hcur : currentLanguage st ≠ "") by congruence.
      rewrite (splitLine_bucket _ _ Hm Hcur).
      rewrite (IH _ (text +:+ line +:+ Str.newline));
        cbn [currentLanguage before markdownRawPerLanguage].
      * rewrite joinLines_cons, !str_app_assoc. done.
      * done.
      * rewrite Hc, Ht. cbn [default]. by rewrite lookup_insert_eq.
Qed.

(** The bucket of a language is decided by the last marker line naming it. *)
Lemma splitLoop_last_marker language pre m post st :
  Regexp.languageMarker m = Some language →
  Forall (λ l, Regexp.languageMarker l ≠ Some language) post →
  markdownRawPerLanguage (splitLoop (pre ++ m :: post) st) !! language
  = Some (m +:+ Str.newline +:+ joinLines (unmarkedPrefix post)).
Proof.
  intros Hm Hpost. rewrite splitLoop_app, splitLoop_cons, (splitLine_marker _ _ _ Hm).
  rewrite (splitLoop_current language (m +:+ Str.newline)); cbn;
    eauto using languageMarker_nonempty.
  - by rewrite str_app_assoc.
  - apply lookup_insert_eq.
Qed.

Lemma last_marker_split language (lines : list string) :
  Exists (λ l, Regexp.languageMarker l = Some language) lines →
  ∃ pre m post, lines = pre ++ m :: post
    ∧ Regexp.languageMarker m = Some language
    ∧ Forall (λ l, Regexp.languageMarker l ≠ Some language) post.
Proof.
  induction lines as [|line lines IH]; intros Hex; [by apply Exists_nil in Hex |].
  destruct (decide (Exists (λ l, Regexp.languageMarker l = Some language) lines)) as [Hin | Hout].
  - destruct (IH Hin) as (pre & m & post & -> & Hm & Hpost).
    by exists (line :: pre), m, post.
  - apply Exists_cons in Hex as [Hm | Hin]; [| done].
    exists [], line, lines. repeat split; [done |].
    by apply not_Exists_Forall in Hout; [| intros l; apply _].
Qed.

(** Every bucket was opened by a marker line. *)
Lemma splitLoop_bucket_origin language text lines :
  markdownRawPerLanguage (splitLoop lines
    {| currentLanguage := ""; before := ""; markdownRawPerLanguage := ∅ |}) !! language
  = Some text →
  Exists (λ l, Regexp.languageMarker l = Some language) lines.
Proof.
  intros Hsome.
  destruct (decide (Exists (λ l, Regexp.languageMarker l = Some language) lines))
    as [Hin | Hout]; [done |].
  apply not_Exists_Forall in Hout; [| intros l; apply _].
  rewrite splitLoop_other in Hsome; [done | by cbn; intros <- |].
  eapply Forall_impl; [exact Hout | done].
Qed.

Lemma unmarkedPrefix_Forall lines :
  Forall (λ l, Regexp.languageMarker l = None) (unmarkedPrefix lines).
Proof.
  induction lines as [|line lines IH]; [constructor |].
  cbn [unmarkedPrefix]. destruct (isMarker line) eqn:Hm; [constructor |].
  constructor; [by apply isMarker_false | done].
Qed.

Lemma unmarkedPrefix_all lines :
  Forall (λ l, Regexp.languageMarker l = None) lines → unmarkedPrefix lines = lines.
Proof.
  induction 1 as [|line lines Hl _ IH]; [done |].
  cbn [unmarkedPrefix]. apply isMarker_false in Hl as ->. by rewrite IH.
Qed.

Lemma unmarkedPrefix_until content m rest :
  Forall (λ l, Regexp.languageMarker l = None) content →
  is_Some (Regexp.languageMarker m) →
  unmarkedPrefix (content ++ m :: rest) = content.
Proof.
  intros Hc Hm. induction Hc as [|line lines Hl _ IH].
  - cbn. by apply isMarker_true in Hm as ->.
  - cbn [app unmarkedPrefix]. apply isMarker_false in Hl as ->. by rewrite IH.
Qed.

End SectionerLoop.

(** C3.  The marker lines are not consumed: the loop body has no early
    exit on a marker line, so the line that opens a bucket is also the first
    line appended to it.  On the document made of the marker [:: en], its
    content, the marker [:: fr] and its content, each of the two buckets
    starts with its own marker line, so that what is handed to
    ParseSingleLanguageDescription for a language is not, as that function
    expects, markdown without language markers. *)
Theorem C3_marker_line_stays_in_bucket :
  let doc := ":: en" +:+ Str.newline +:+ "Hello" +:+ Str.newline
             +:+ ":: fr" +:+ Str.newline +:+ "Bonjour" in
  let buckets := (Sectioner.SplitOnLanguageMarkers doc).2 in
  buckets !! "en" = Some (":: en" +:+ Str.newline +:+ "Hello" +:+ Str.newline)
  ∧ buckets !! "fr" = Some (":: fr" +:+ Str.newline +:+ "Bonjour" +:+ Str.newline)
  ∧ ¬ (∀ language text line, buckets !! language = Some text →
         line ∈ Str.Lines text → Regexp.languageMarker line = None).
Proof.
  split; [reflexivity |]. split; [reflexivity |].
  intros H. specialize (H "en" _ ":: en" eq_refl).
  assert (Hin : ":: en" ∈ Str.Lines (":: en" +:+ Str.newline +:+ "Hello" +:+ Str.newline)).
  { vm_compute. apply list_elem_of_here. }
  specialize (H Hin). vm_compute in H. discriminate.
Qed.

(** What the split gives for every body text: the preamble consists of the
    lines before the first marker line, so no marker line is in it; every
    language bucket starts with the marker line that opened it, followed by
    the lines up to the next marker line; and a document made of the marker
    [:: en], its content, the marker [:: fr] and its content yields an empty
    preamble and exactly two buckets, each starting with its own marker
    line. *)
Lemma marker_lines_open_buckets (markdownRaw : string) :
  let lines := Str.Lines markdownRaw in
  let result := Sectioner.SplitOnLanguageMarkers markdownRaw in
  result.1 = Sectioner.joinLines (Sectioner.unmarkedPrefix lines)
  ∧ Forall (λ l, Regexp.languageMarker l = None) (Sectioner.unmarkedPrefix lines)
  ∧ (∀ language text, result.2 !! language = Some text →
       ∃ pre m post, lines = pre ++ m :: post
         ∧ Regexp.languageMarker m = Some language
         ∧ text = m +:+ Str.newline
                  +:+ Sectioner.joinLines (Sectioner.unmarkedPrefix post))
  ∧ (∀ en fr,
       Forall (λ l, Regexp.languageMarker l = None) en →
       Forall (λ l, Regexp.languageMarker l = None) fr →
       lines = ":: en" :: en ++ ":: fr" :: fr →
       result = ("", <["en" := ":: en" +:+ Str.newline +:+ Sectioner.joinLines en]>
                      (<["fr" := ":: fr" +:+ Str.newline +:+ Sectioner.joinLines fr]> ∅))).
Proof.
  intros lines result. subst result. unfold Sectioner.SplitOnLanguageMarkers.
  fold lines. cbn [fst snd].
  split; [by rewrite splitLoop_before |].
  split; [apply unmarkedPrefix_Forall |].
  split.
  - intros language text Hsome.
    destruct (last_marker_split language lines) as (pre & m & post & Hl & Hm & Hpost);
      [by eapply splitLoop_bucket_origin |].
    exists pre, m, post. repeat split; [done | done |].
    rewrite Hl, (splitLoop_last_marker _ _ _ _ _ Hm Hpost) in Hsome. congruence.
  - intros en fr Hen Hfr Hl. f_equal.
    { rewrite splitLoop_before, Hl. done. }
    assert (Hmen : Regexp.languageMarker ":: en" = Some "en") by reflexivity.
    assert (Hmfr : Regexp.languageMarker ":: fr" = Some "fr") by reflexivity.
    apply map_eq. intros language.
    destruct (decide (language = "en")) as [-> | Hnen].
    { rewrite lookup_insert_eq, Hl.
      rewrite (splitLoop_last_marker "en" [] ":: en" (en ++ ":: fr" :: fr)); [| done |].
      - rewrite unmarkedPrefix_until; [done | done | by rewrite Hmfr].
      - apply Forall_app. split; [eapply Forall_impl; [exact Hen | by intros ? ->] |].
        constructor; [by rewrite Hmfr |].
        eapply Forall_impl; [exact Hfr | by intros ? ->]. }
    rewrite lookup_insert_ne by done.
    destruct (decide (language = "fr")) as [-> | Hnfr].
    { rewrite lookup_insert_eq, Hl.
      rewrite (splitLoop_last_marker "fr" (":: en" :: en) ":: fr" fr); [| done |].
      - by rewrite unmarkedPrefix_all.
      - eapply Forall_impl; [exact Hfr | by intros ? ->]. }
    rewrite lookup_insert_ne by done. rewrite lookup_empty.
    apply eq_None_not_Some. intros [text Hsome].
    apply splitLoop_bucket_origin in Hsome. rewrite Hl in Hsome.
    apply Exists_cons in Hsome as [Hsome | Hsome]; [rewrite Hmen in Hsome; congruence |].
    apply Exists_app in Hsome as [Hsome | Hsome].
    + apply Exists_exists in Hsome as (l & Hin & Hsome).
      rewrite Forall_forall in Hen. rewrite (Hen l Hin) in Hsome. done.
    + apply Exists_cons in Hsome as [Hsome | Hsome]; [rewrite Hmfr in Hsome; congruence |].
      apply Exists_exists in Hsome as (l & Hin & Hsome).
      rewrite Forall_forall in Hfr. rewrite (Hfr l Hin) in Hsome. done.
Qed.

Lemma marker_lines_open_buckets_example :
  Sectioner.SplitOnLanguageMarkers
    (":: en" +:+ Str.newline +:+ "Hello" +:+ Str.newline
     +:+ ":: fr" +:+ Str.newline +:+ "Bonjour")
  = ("", <["en" := ":: en" +:+ Str.newline +:+ Sectioner.joinLines ["Hello"]]>
          (<["fr" := ":: fr" +:+ Str.newline +:+ Sectioner.joinLines ["Bonjour"]]> ∅)).
Proof.
  destruct (marker_lines_open_buckets (":: en" +:+ Str.newline +:+ "Hello" +:+ Str.newline
     +:+ ":: fr" +:+ Str.newline +:+ "Bonjour")) as (_ & _ & _ & H).
  apply (H ["Hello"] ["Bonjour"]).
  - repeat constructor.
  - repeat constructor.
  - reflexivity.
Defined.

(** When two marker lines name the same language, the second one
    re-initialises that language's bucket: whatever was accumulated before it
    (the first marker line and the lines between the two markers included) is
    discarded, and the bucket holds what a text starting at the last marker
    line alone would give, namely that marker line and the lines after it up
    to the next marker line. *)
Lemma repeated_marker_reinitialises (markdownRaw language m1 m2 : string)
    (pre mid post : list string) :
  Str.Lines markdownRaw = pre ++ m1 :: mid ++ m2 :: post →
  Regexp.languageMarker m1 = Some language →
  Regexp.languageMarker m2 = Some language →
  Forall (λ l, Regexp.languageMarker l ≠ Some language) post →
  (Sectioner.SplitOnLanguageMarkers markdownRaw).2 !! language
  = Sectioner.markdownRawPerLanguage
      (Sectioner.splitLoop (m2 :: post)
         {| Sectioner.currentLanguage := ""; Sectioner.before := "";
            Sectioner.markdownRawPerLanguage := ∅ |}) !! language
  ∧ (Sectioner.SplitOnLanguageMarkers markdownRaw).2 !! language
    = Some (m2 +:+ Str.newline +:+ Sectioner.joinLines (Sectioner.unmarkedPrefix post)).
Proof.
  intros Hl Hm1 Hm2 Hpost. unfold Sectioner.SplitOnLanguageMarkers. cbn [snd].
  rewrite Hl.
  replace (pre ++ m1 :: mid ++ m2 :: post) with ((pre ++ m1 :: mid) ++ m2 :: post)
    by by rewrite <- app_assoc.
  rewrite (splitLoop_last_marker _ _ _ _ _ Hm2 Hpost).
  split; [| done].
  by rewrite (splitLoop_last_marker language [] m2 post _ Hm2 Hpost).
Qed.

(** C10.  A repeated marker re-initialises the bucket of its language, and
    the lines between the two markers are discarded; but it is not only the
    lines after the last marker that survive: the marker line itself is
    appended to the bucket it has just emptied.  On the text made of the
    marker [:: en], the line [old], the marker [:: en] again and the line
    [new], the bucket holds the marker line and [new]. *)
Theorem C10_last_marker_line_survives :
  let doc := ":: en" +:+ Str.newline +:+ "old" +:+ Str.newline
             +:+ ":: en" +:+ Str.newline +:+ "new" in
  let bucket := (Sectioner.SplitOnLanguageMarkers doc).2 !! "en" in
  bucket = Some (":: en" +:+ Str.newline +:+ "new" +:+ Str.newline)
  ∧ bucket ≠ Some ("new" +:+ Str.newline)
  ∧ ∃ text, bucket = Some text
            ∧ Str.Lines text = [":: en"; "new"; ""]
            ∧ Regexp.languageMarker ":: en" = Some "en".
Proof.
  cbv zeta.
  destruct (repeated_marker_reinitialises
              (":: en" +:+ Str.newline +:+ "old" +:+ Str.newline
               +:+ ":: en" +:+ Str.newline +:+ "new")
              "en" ":: en" ":: en" [] ["old"] ["new"]) as [_ ->].
  - reflexivity.
  - reflexivity.
  - reflexivity.
  - repeat constructor. vm_compute. discriminate.
  - split; [reflexivity |]. split; [by vm_compute |].
    eexists. split; [reflexivity |]. split; reflexivity.
Qed.

(** ** Media analysis *)

Section AnalysisLoop.
Import Analysis.
Context (E : externals) (ctx : context) (dir : string).

Local Abbreviation firstOcc := (firstOccurrence E dir).
Local Abbreviation entry := (entryOf E ctx dir).
Local Abbreviation Inv := (invariant E ctx dir).

Lemma firstOccurrence_app_Some filename p q first :
  firstOcc filename p = Some first → firstOcc filename (p ++ q) = Some first.
Proof.
  unfold firstOccurrence. induction p as [|d p IH]; [done |].
  simpl. by destruct (_ && _).
Qed.

Lemma firstOccurrence_app_None filename p q :
  firstOcc filename p = None → firstOcc filename (p ++ q) = firstOcc filename q.
Proof.
  unfold firstOccurrence. induction p as [|d p IH]; [done |].
  simpl. by destruct (_ && _).
Qed.

Lemma firstOccurrence_single filename d :
  firstOcc filename [d] =
    if negb (isValidURL E (MediaEmbedDeclaration.Source d))
       && String.eqb (resolve E dir d) filename
    then Some d else None.
Proof. reflexivity. Qed.

Lemma entryOf_mono p q media m : entry p media m → entry (p ++ q) media m.
Proof.
  unfold entryOf. destruct (isValidURL E _); [done |].
  intros (first & analyzed & Hf & Ha & ->).
  exists first, analyzed. eauto using firstOccurrence_app_Some.
Qed.

(** AnalyzeMediaFile already gives the media the alt, title and attributes
    of the declaration it is called with. *)
Lemma AnalyzeMediaFile_presentation filename media analyzed :
  AnalyzeMediaFile E ctx filename media = inl analyzed →
  Media.withPresentation (MediaEmbedDeclaration.Alt media)
    (MediaEmbedDeclaration.Title media) (MediaEmbedDeclaration.Attributes media) analyzed
  = analyzed.
Proof.
  unfold AnalyzeMediaFile. destruct (probe E filename); [| done].
  by intros [= <-].
Qed.

Lemma analyzeMedia_step language p st media st' :
  Inv p st →
  analyzeMedia E ctx dir language st media = inl st' →
  Inv (p ++ [media]) st'
  ∧ ∃ m, entry (p ++ [media]) media m
      ∧ analyzedMediae st'
        = <[language := default [] (analyzedMediae st !! language) ++ [m]]> (analyzedMediae st).
Proof.
  unfold invariant. intros (Hsrc & Hnodup & Hfiles). unfold analyzeMedia.
  destruct (isValidURL E (MediaEmbedDeclaration.Source media)) eqn:Hurl.
  { intros [= <-]. cbn [analyzedMediae analyzedMediaeBySource analyzedFiles appendMedia].
    split.
    - split; [| done]. intros filename. specialize (Hsrc filename).
      destruct (firstOcc filename p) as [first|] eqn:Hfirst.
      + by rewrite (firstOccurrence_app_Some _ _ _ _ Hfirst).
      + rewrite (firstOccurrence_app_None _ _ _ Hfirst), firstOccurrence_single, Hurl.
        done.
    - exists (onlineMedia media). split; [| done]. unfold entryOf. by rewrite Hurl. }
  set (filename := resolve E dir media).
  destruct (analyzedMediaeBySource st !! filename) as [already|] eqn:Halready.
  { intros [= <-]. cbn [analyzedMediae analyzedMediaeBySource analyzedFiles appendMedia].
    pose proof (Hsrc filename) as Hthis.
    destruct (firstOcc filename p) as [first|] eqn:Hfirst; [| congruence].
    destruct Hthis as (analyzed & Han & Hlook).
    assert (analyzed = already) as -> by congruence.
    split.
    - split; [| done]. intros filename'. specialize (Hsrc filename').
      destruct (firstOcc filename' p) as [first'|] eqn:Hfirst'.
      + by rewrite (firstOccurrence_app_Some _ _ _ _ Hfirst').
      + rewrite (firstOccurrence_app_None _ _ _ Hfirst'), firstOccurrence_single, Hurl.
        cbn [negb andb]. fold filename.
        destruct (String.eqb_spec filename filename') as [<- | Hne]; [congruence | done].
    - eexists. split; [| done]. unfold entryOf. rewrite Hurl. fold filename.
      exists first, already. eauto using firstOccurrence_app_Some. }
  destruct (AnalyzeMediaFile E ctx filename media) as [analyzed|err] eqn:Han; [| done].
  intros [= <-]. cbn [analyzedMediae analyzedMediaeBySource analyzedFiles appendMedia].
  pose proof (Hsrc filename) as Hthis.
  destruct (firstOcc filename p) as [first|] eqn:Hfirst.
  { destruct Hthis as (? & _ & ?). congruence. }
  split.
  - split; [| split].
    + intros filename'. specialize (Hsrc filename').
      destruct (decide (filename' = filename)) as [-> | Hne].
      * rewrite (firstOccurrence_app_None _ _ _ Hfirst), firstOccurrence_single, Hurl.
        cbn [negb andb]. fold filename. rewrite String.eqb_refl.
        exists analyzed. by rewrite lookup_insert_eq.
      * rewrite lookup_insert_ne by done.
        destruct (firstOcc filename' p) as [first'|] eqn:Hfirst'.
        -- by rewrite (firstOccurrence_app_Some _ _ _ _ Hfirst').
        -- rewrite (firstOccurrence_app_None _ _ _ Hfirst'), firstOccurrence_single, Hurl.
           cbn [negb andb]. fold filename.
           destruct (String.eqb_spec filename filename') as [<- | _]; done.
    + apply NoDup_app. split; [done |]. split; [| apply NoDup_singleton].
      intros f Hin ->%list_elem_of_singleton.
      apply Hfiles in Hin as [? ?]. congruence.
    + intros f [Hin | ->%list_elem_of_singleton]%elem_of_app.
      * destruct (decide (f = filename)) as [-> | Hne].
        -- rewrite lookup_insert_eq. eauto.
        -- rewrite lookup_insert_ne by done. auto.
      * rewrite lookup_insert_eq. eauto.
  - exists analyzed. split; [| done]. unfold entryOf. rewrite Hurl. fold filename.
    exists media, analyzed. split; [| split; [done |]].
    + rewrite (firstOccurrence_app_None _ _ _ Hfirst), firstOccurrence_single, Hurl.
      cbn [negb andb]. fold filename. by rewrite String.eqb_refl.
    + symmetry. by eapply AnalyzeMediaFile_presentation.
Qed.

Lemma analyzeMediae_loop language mediae p st ms0 st' :
  Inv p st →
  analyzedMediae st !! language = Some ms0 →
  analyzeMediae E ctx dir language mediae st = inl st' →
  Inv (p ++ mediae) st'
  ∧ ∃ ms, analyzedMediae st' = <[language := ms0 ++ ms]> (analyzedMediae st)
      ∧ Forall2 (entry (p ++ mediae)) mediae ms.
Proof.
  revert p st ms0. induction mediae as [|media mediae IH]; intros p st ms0 Hinv Hms0.
  - intros [= <-]. rewrite !app_nil_r. split; [done |].
    exists []. rewrite app_nil_r. split; [| constructor].
    symmetry. by apply insert_id.
  - cbn [analyzeMediae].
    destruct (analyzeMedia E ctx dir language st media) as [st1|err] eqn:Hstep; [| done].
    intros Hrest.
    destruct (analyzeMedia_step _ _ _ _ _ Hinv Hstep) as (Hinv1 & m & Hm & Hmap1).
    rewrite Hms0 in Hmap1. change (default [] (Some ms0)) with ms0 in Hmap1.
    assert (Hms1 : analyzedMediae st1 !! language = Some (ms0 ++ [m])).
    { rewrite Hmap1. apply lookup_insert_eq. }
    destruct (IH (p ++ [media]) st1 (ms0 ++ [m]) Hinv1 Hms1 Hrest)
      as (Hinv' & ms & Hmap' & Hall).
    rewrite <- app_assoc in Hinv', Hall. cbn [app] in Hinv', Hall.
    split; [done |]. exists (m :: ms). split.
    + rewrite Hmap', Hmap1, insert_insert_eq, <- app_assoc. done.
    + constructor; [| done].
      replace (p ++ media :: mediae) with ((p ++ [media]) ++ mediae)
        by by rewrite <- app_assoc.
      by apply entryOf_mono.
Qed.

Lemma analyzeLanguages_loop declarations p st st' :
  Inv p st →
  NoDup declarations.*1 →
  analyzeLanguages E ctx dir declarations st = inl st' →
  Inv (p ++ visited declarations) st'
  ∧ (∀ language mediae, (language, mediae) ∈ declarations →
       ∃ ms, analyzedMediae st' !! language = Some ms
             ∧ Forall2 (entry (p ++ visited declarations)) mediae ms)
  ∧ (∀ language, language ∉ declarations.*1 →
       analyzedMediae st' !! language = analyzedMediae st !! language).
Proof.
  unfold visited. revert p st.
  induction declarations as [|[language mediae] rest IH]; intros p st Hinv Hnodup.
  - intros [= <-]. cbn. rewrite app_nil_r. split; [done |]. split; [| done].
    intros ?? Hin. by apply elem_of_nil in Hin.
  - cbn [analyzeLanguages fmap list_fmap snd fst concat] in *.
    apply NoDup_cons in Hnodup as [Hfresh Hnodup].
    set (st0 := {| analyzedMediae := <[language := []]> (analyzedMediae st);
                   analyzedMediaeBySource := analyzedMediaeBySource st;
                   analyzedFiles := analyzedFiles st |}).
    destruct (analyzeMediae E ctx dir language mediae st0) as [st1|err] eqn:Hinner; [| done].
    intros Hrest.
    assert (Hinv0 : Inv p st0) by exact Hinv.
    assert (Hms0 : analyzedMediae st0 !! language = Some []) by apply lookup_insert_eq.
    destruct (analyzeMediae_loop language mediae p st0 [] st1 Hinv0 Hms0 Hinner)
      as (Hinv1 & ms & Hmap1 & Hall1).
    destruct (IH (p ++ mediae) st1 Hinv1 Hnodup Hrest) as (Hinv' & Hlangs & Hframe).
    rewrite <- app_assoc in Hinv', Hlangs.
    split; [done |]. split.
    + intros language' mediae' [[= -> ->] | Hin]%elem_of_cons.
      * exists ms. split.
        -- rewrite (Hframe language Hfresh), Hmap1. apply lookup_insert_eq.
        -- rewrite app_assoc. eapply Forall2_impl; [exact Hall1 |].
           intros ???. by apply entryOf_mono.
      * by apply Hlangs.
    + intros language' [Hne Hnotin]%not_elem_of_cons.
      rewrite (Hframe language' Hnotin), Hmap1. cbn [app].
      subst st0. cbn [analyzedMediae].
      rewrite insert_insert_eq. by apply lookup_insert_ne.
Qed.

End AnalysisLoop.

(** C7.  In a run of AnalyzeAllMediae that succeeds, no file is analysed
    twice, and the entry of every declaration whose source is a local file
    carries the analysis of the first visited declaration resolving to that
    file (content type, size, dimensions, duration, sound flag) with alt,
    title and attributes taken from the entry's own declaration. *)
Theorem C7_duplicate_media_sources (E : Analysis.externals) (ctx : Analysis.context)
    (embedDeclarations : list (string * list MediaEmbedDeclaration.t))
    (currentDirectory : string) (st : Analysis.analysis) :
  NoDup embedDeclarations.*1 →
  Analysis.run E ctx embedDeclarations currentDirectory = inl st →
  let dir := Analysis.mediaDirectory E ctx currentDirectory in
  Analysis.AnalyzeAllMediae E ctx embedDeclarations currentDirectory
  = (Analysis.analyzedMediae st, None)
  ∧ NoDup (Analysis.analyzedFiles st)
  ∧ ∀ language mediae, (language, mediae) ∈ embedDeclarations →
      ∃ ms, Analysis.analyzedMediae st !! language = Some ms
        ∧ Forall2 (λ media m,
            Analysis.entryOf E ctx dir (Analysis.visited embedDeclarations) media m
            ∧ Media.Alt m = MediaEmbedDeclaration.Alt media
            ∧ Media.Title m = MediaEmbedDeclaration.Title media
            ∧ Media.Attributes m = MediaEmbedDeclaration.Attributes media) mediae ms.
Proof.
  intros Hnodup Hrun dir. unfold Analysis.AnalyzeAllMediae. rewrite Hrun.
  split; [done |].
  unfold Analysis.run in Hrun. fold dir in Hrun.
  assert (Hinit : Analysis.invariant E ctx dir []
    {| Analysis.analyzedMediae := ∅; Analysis.analyzedMediaeBySource := ∅;
       Analysis.analyzedFiles := [] |}).
  { split; [| split].
    - intros filename. cbn. apply lookup_empty.
    - cbn. apply NoDup_nil_2.
    - cbn. intros ? Hin. by apply elem_of_nil in Hin. }
  destruct (analyzeLanguages_loop E ctx dir embedDeclarations [] _ st Hinit Hnodup Hrun)
    as ((_ & Hfiles & _) & Hlangs & _).
  split; [done |].
  intros language mediae Hin. destruct (Hlangs language mediae Hin) as (ms & Hms & Hall).
  exists ms. split; [done |].
  eapply Forall2_impl; [exact Hall |]. cbn [app].
  intros media m Hentry. split; [done |].
  unfold Analysis.entryOf in Hentry.
  destruct (Analysis.isValidURL E _).
  - by subst m.
  - by destruct Hentry as (? & ? & _ & _ & ->).
Qed.

(** ** Block classification and abbreviations *)

Section ClassificationLoop.
Import Markup.
Context (E : externals) (ids : nat → string).

(** Whatever the abbreviations are, the content of a classified paragraph is
    the markup of its node, as rendered. *)
Lemma classifyAll_contents n elements st :
  Forall (λ p, ∃ node, node ∈ elements ∧ Paragraph.Content p = Soup.HTML node)
         (drop (List.length (b_paragraphs st)) (b_paragraphs (classifyAll E ids n elements st)))
  ∧ take (List.length (b_paragraphs st)) (b_paragraphs (classifyAll E ids n elements st))
    = b_paragraphs st.
Proof.
  revert n st. induction elements as [|paragraph rest IH]; intros n st.
  - cbn [classifyAll]. rewrite drop_all, firstn_all. by split.
  - cbn [classifyAll].
    destruct (IH (S n) (classify E st (ids n) paragraph)) as [Hnew Hold].
    set (st1 := classify E st (ids n) paragraph) in *.
    set (final := b_paragraphs (classifyAll E ids (S n) rest st1)) in *.
    assert (Hstep : b_paragraphs st1 = b_paragraphs st
                    ∨ ∃ p, b_paragraphs st1 = b_paragraphs st ++ [p]
                           ∧ Paragraph.Content p = Soup.HTML paragraph).
    { subst st1. unfold classify.
      repeat (case_match; cbn [b_paragraphs]; eauto). }
    destruct Hstep as [Heq | (p & Heq & Hp)].
    + rewrite Heq in Hnew, Hold. split; [| done].
      eapply Forall_impl; [exact Hnew |].
      intros ? (node & ? & ?). exists node. split; [by right | done].
    + rewrite Heq, length_app in Hnew, Hold. cbn [List.length] in Hnew, Hold.
      assert (Hfinal : final = b_paragraphs st ++ [p]
                         ++ drop (List.length (b_paragraphs st) + 1) final).
      { rewrite app_assoc, <- Hold. symmetry. apply take_drop. }
      split.
      * rewrite Hfinal at 1. rewrite drop_app_length. constructor.
        -- exists paragraph. split; [by left | done].
        -- eapply Forall_impl; [exact Hnew |].
           intros ? (node & ? & ?). exists node. split; [by right | done].
      * rewrite Hfinal. by rewrite take_app_length.
Qed.

Lemma parseTree_contents htmlTree :
  Forall (λ p, ∃ node, node ∈ paragraphLike htmlTree
                       ∧ Paragraph.Content p = Soup.HTML node)
         (paragraphs (parseTree E ids htmlTree)).
Proof.
  unfold parseTree. destruct (Soup.Find "h1" htmlTree); cbn [paragraphs];
    apply (classifyAll_contents 0 (paragraphLike htmlTree)
             {| b_paragraphs := []; b_mediae := []; b_links := [];
                b_abbreviations := ∅; b_order := [] |}).
Qed.

End ClassificationLoop.

(** C2 at the input of the specification.  The abbreviation [API] is
    recorded and ReplaceAbbreviations does wrap it in the paragraph, but
    ParseSingleLanguageDescription returns its [paragraphs] result as the
    classification loop left it: the processed paragraphs are built and
    dropped, and the returned content carries no annotation. *)
Theorem C2_abbreviations_not_applied :
  let parsed := Markup.ParseSingleLanguageDescription Sample.markup Sample.abbreviationMarkdown in
  let definition := "Application Programming Interface" in
  Markup.abbreviations parsed !! "API" = Some definition
  ∧ Markup.paragraphs parsed = [Sample.theParagraph]
  ∧ Paragraph.Content Sample.theParagraph = "<p>Use the API now</p>"
  ∧ Paragraph.Content
      (Abbr.ReplaceAbbreviations Sample.theParagraph [("API", definition)])
    = "<p>Use the " +:+ Abbr.annotation "API" definition +:+ " now</p>"
  ∧ Abbr.replaceWholeWord "API" "_" "the API, not APIs" = "the _, not APIs".
Proof. repeat split; vm_compute; reflexivity. Qed.

(** ** The file system *)

Section FrameLemmas.
Import Frame.
Context (path : string).

Lemma keeps_refl w : keeps path w w.
Proof. by split. Qed.

Lemma keeps_trans w1 w2 w3 : keeps path w1 w2 → keeps path w2 w3 → keeps path w1 w3.
Proof. intros [H1 E1] [H2 E2]. split; [auto | congruence]. Qed.

Lemma keeps_logged line w : keeps path w (OS.logged line w).
Proof. by split. Qed.

Lemma keeps_printed text w : keeps path w (OS.printed text w).
Proof. by split. Qed.

Lemma keeps_WriteFile parent q content w :
  keeps path w (OS.WriteFile parent q content w).1.
Proof.
  unfold OS.WriteFile. destruct (OS.directories w !! q) eqn:Hq; [apply keeps_refl |].
  destruct (OS.directories w !! parent q); [| destruct (OS.files w !! parent q); apply keeps_refl].
  split; [| done]. intros [Hf Hd]. split; [| done]. cbn.
  destruct (decide (q = path)) as [-> | Hne].
  - rewrite lookup_insert_eq. eauto.
  - by rewrite lookup_insert_ne.
Qed.

(** The directories that MkdirAll makes are at paths where no regular file
    is. *)
Lemma missingDirectories_no_file parent fuel q w made :
  OS.missingDirectories parent fuel q w = inl made →
  Forall (λ directory, OS.files w !! directory = None) made.
Proof.
  revert q made. induction fuel as [|fuel IH]; intros q made; cbn [OS.missingDirectories];
    destruct (OS.files w !! q) eqn:Hf; try done;
    destruct (OS.directories w !! q); try (intros [= <-]; by repeat constructor).
  destruct (String.eqb (parent q) q); [intros [= <-]; by repeat constructor |].
  destruct (OS.missingDirectories parent fuel (parent q) w) as [above|err] eqn:Habove;
    [| done].
  intros [= <-]. constructor; [done |]. by apply (IH (parent q)).
Qed.

Lemma MkdirAll_cases parent q w :
  (∃ err, OS.MkdirAll parent q w = (w, Some err))
  ∨ ∃ made,
      Forall (λ directory, OS.files w !! directory = None) made
      ∧ OS.MkdirAll parent q w
        = (OS.withDirectories
             (fold_right (λ directory, <[directory := []]>) (OS.directories w) made) w,
           None)
      ∧ (OS.MkdirAll parent q w).1
        = OS.withDirectories
            (fold_right (λ directory, <[directory := []]>) (OS.directories w) made) w.
Proof.
  unfold OS.MkdirAll.
  destruct (OS.missingDirectories parent (String.length q) q w) as [made|err] eqn:Hmade;
    [| left; by eexists].
  right. apply missingDirectories_no_file in Hmade.
  destruct made as [|directory made].
  - exists []. cbn. split; [done |]. by destruct w.
  - by exists (directory :: made).
Qed.

Lemma lookup_made (directories : gmap string (list OS.DirEntry)) made q :
  (q ∉ made) →
  fold_right (λ directory, <[directory := []]>) directories made !! q = directories !! q.
Proof.
  induction made as [|directory made IH]; [done |].
  intros [Hne Hnotin]%not_elem_of_cons. cbn [fold_right].
  rewrite lookup_insert_ne by done. by apply IH.
Qed.

Lemma lookup_made_is_Some (directories : gmap string (list OS.DirEntry)) made q :
  is_Some (directories !! q) →
  is_Some (fold_right (λ directory, <[directory := []]>) directories made !! q).
Proof.
  intros Hq. induction made as [|directory made IH]; [done |]. cbn [fold_right].
  destruct (decide (directory = q)) as [->|Hne].
  - rewrite lookup_insert_eq. by eexists.
  - by rewrite lookup_insert_ne.
Qed.

Lemma keeps_MkdirAll parent q w : keeps path w (OS.MkdirAll parent q w).1.
Proof.
  destruct (MkdirAll_cases parent q w) as [[err ->] | (made & Hmade & _ & ->)];
    [apply keeps_refl |].
  split; [| done]. intros [Hfile Hdir]. split; [done |]. cbn.
  rewrite lookup_made; [done |]. intros Hin.
  rewrite Forall_forall in Hmade. rewrite (Hmade _ Hin) in Hfile. by destruct Hfile.
Qed.

End FrameLemmas.

Section OrchestratorFrame.
Import Orchestrator Frame.
Context (X : externals) (path : string).


Lemma keeps_LogError message w : keeps path w (LogError message w).
Proof. apply keeps_logged. Qed.

Lemma keeps_LogInfo message w : keeps path w (LogInfo message w).
Proof. apply keeps_logged. Qed.

Lemma keeps_fold {A S} (step : OS.World * S → A → OS.World * S) (l : list A) :
  (∀ acc a, keeps path acc.1 (step acc a).1) →
  ∀ acc, keeps path acc.1 (fold_left step l acc).1.
Proof.
  intros Hstep. induction l as [|a l IH]; intros acc; [apply keeps_refl |].
  cbn [fold_left]. eapply keeps_trans; [apply Hstep | apply IH].
Qed.

(** What follows needs the media handler, which is not in the sources, to
    leave a regular file at [path] in place. *)
Hypothesis HandleMedia_keeps :
  ∀ workID media lang w, keeps path w (HandleMedia X workID media lang w).1.

Lemma keeps_handleMediae workID lang mediae w :
  keeps path w (handleMediae X workID lang mediae w).1.
Proof.
  unfold handleMediae.
  match goal with
  | |- keeps _ _ (fold_left ?f ?l ?acc0).1 => refine (keeps_fold f l _ acc0)
  end.
  intros [w0 analyzed] media. cbn [fst].
  pose proof (HandleMedia_keeps workID media lang w0) as Hstep.
  destruct (HandleMedia X workID media lang w0) as [w1 [m|err]]; cbn [fst] in *;
    [done |]. eapply keeps_trans; [exact Hstep | apply keeps_LogError].
Qed.

Lemma keeps_handleAllMediae workID declarations w :
  keeps path w (handleAllMediae X workID declarations w).1.
Proof.
  unfold handleAllMediae.
  match goal with
  | |- keeps _ _ (fold_left ?f ?l ?acc0).1 => refine (keeps_fold f l _ acc0)
  end.
  intros [w0 analyzedMediae] [lang mediae]. cbn [fst].
  pose proof (keeps_handleMediae workID lang mediae w0) as Hstep.
  by destruct (handleMediae X workID lang mediae w0).
Qed.

Lemma keeps_assembleBlocks description analyzedMediae order w :
  keeps path w (assembleBlocks description analyzedMediae order w).1.
Proof.
  unfold assembleBlocks.
  match goal with
  | |- keeps _ _ (fold_left ?f ?l ?acc0).1 => refine (keeps_fold f l _ acc0)
  end.
  intros [w0 blocks] blockID. cbn [fst].
  destruct (ContentBlockByID _ _ _ _) as [block [|]]; [apply keeps_refl | apply keeps_LogError].
Qed.

Lemma keeps_localize workID description analyzedMediae langs content w :
  keeps path w (localize X workID description analyzedMediae langs content w).1.
Proof.
  revert content w. induction langs as [|lang langs IH]; intros content w.
  - apply keeps_refl.
  - cbn [localize]. destruct (resolveLayoutOf X description lang); [| apply keeps_refl].
    pose proof (keeps_assembleBlocks description analyzedMediae
                  (default [] (ParsedWork.ContentBlocksOrders description !! lang)) w) as Hstep.
    destruct (assembleBlocks _ _ _ w) as [w1 blocks].
    eapply keeps_trans; [exact Hstep | apply IH].
Qed.

Lemma keeps_WriteBuildMetadata ctx w : keeps path w (WriteBuildMetadata X ctx w).1.
Proof.
  unfold WriteBuildMetadata.
  destruct (OS.Stat _ w); [| | apply keeps_refl];
    destruct (marshalBuildMetadata X (buildMetadata ctx));
    eauto using keeps_trans, keeps_refl, keeps_WriteFile, keeps_MkdirAll.
Qed.

Lemma keeps_Build databaseDirectory outputFilename workID ctx w :
  keeps path w (Build X databaseDirectory outputFilename workID ctx w).1.1.
Proof.
  unfold Build. destruct (OS.ReadFile _ w) as [raw|err]; [| apply keeps_refl].
  pose proof (keeps_handleAllMediae workID
    (ParsedWork.MediaEmbedDeclarations
       (Description.ParseDescription (description X) raw)) w) as H1.
  destruct (handleAllMediae X workID _ w) as [w1 analyzedMediae].
  match goal with
  | |- context [localize X workID ?d ?a ?l ?c w1] =>
      pose proof (keeps_localize workID d a l c w1) as H2;
      destruct (localize X workID d a l c w1) as [w2 [localized|err]]
  end; cbn [fst snd] in *.
  - eapply keeps_trans; [exact H1 |]. eapply keeps_trans; [exact H2 |].
    apply keeps_WriteBuildMetadata.
  - eapply keeps_trans; [exact H1 | exact H2].
Qed.

Lemma keeps_WriteDatabase ctx works outputFilename w :
  keeps path w (WriteDatabase X ctx works outputFilename w).
Proof.
  unfold WriteDatabase. destruct (String.eqb outputFilename "-"); [apply keeps_printed |].
  pose proof (keeps_WriteFile path (Dir X) outputFilename
                (marshalWorks X (Minified (flags ctx)) works) w) as H.
  destruct (OS.WriteFile _ _ _ w) as [w1 [err|]]; cbn [fst] in H; [| done].
  eapply keeps_trans; [exact H | apply keeps_printed].
Qed.

Lemma keeps_buildWorks include databaseDirectory outputFilename workDirectories works ctx w :
  keeps path w
    (buildWorks X include databaseDirectory outputFilename workDirectories works ctx w).1.1.
Proof.
  revert works ctx w.
  induction workDirectories as [|dirEntry rest IH]; intros works ctx w; [apply keeps_refl |].
  cbn [buildWorks].
  destruct (FindWork X (PreviousBuiltDatabase ctx) (OS.Name dirEntry)) as [presentBefore oldWork].
  destruct (if String.eqb include "*" then inl true else Match X include (OS.Name dirEntry))
    as [[|]|err]; [| | apply keeps_refl].
  - pose proof (keeps_Build databaseDirectory outputFilename (OS.Name dirEntry) ctx w) as H.
    destruct (Build X databaseDirectory outputFilename (OS.Name dirEntry) ctx w)
      as [[w1 ctx1] [newWork [err|]]]; cbn [fst] in H.
    + eapply keeps_trans; [exact H |]. eapply keeps_trans; [apply keeps_LogError | apply IH].
    + eapply keeps_trans; [exact H | apply IH].
  - destruct presentBefore; [apply IH |].
    eapply keeps_trans; [apply keeps_LogInfo | apply IH].
Qed.

Lemma keeps_buildLocked include databaseDirectory outputFilename ctx w :
  keeps path w (buildLocked X include databaseDirectory outputFilename ctx w).1.
Proof.
  unfold buildLocked.
  destruct (ComputeProgressTotal X _ w) as [ctx1 [workDirectories|err]]; [| apply keeps_refl].
  pose proof (keeps_buildWorks include databaseDirectory outputFilename
                workDirectories ∅ ctx1 w) as H.
  destruct (buildWorks X include databaseDirectory outputFilename workDirectories ∅ ctx1 w)
    as [[w1 ctx2] [works|err]]; cbn [fst] in *; [| done].
  eapply keeps_trans; [exact H | apply keeps_WriteDatabase].
Qed.

End OrchestratorFrame.

(** ** The build lock *)

Section BuildLock.
Import Orchestrator Frame.
Context (X : externals).

Lemma extends_refl w : extends w w.
Proof. by repeat split. Qed.

Lemma extends_trans w1 w2 w3 : extends w1 w2 → extends w2 w3 → extends w1 w3.
Proof.
  intros (F1 & S1 & D1) (F2 & S2 & D2). repeat split; [congruence | congruence | auto].
Qed.

Lemma extends_logged line w : extends w (OS.logged line w).
Proof. by repeat split. Qed.

(** MkdirAll changes no file, and directories are only added. *)
Lemma extends_MkdirAll parent path w : extends w (OS.MkdirAll parent path w).1.
Proof.
  destruct (MkdirAll_cases parent path w) as [[err ->] | (made & Hmade & _ & ->)];
    [apply extends_refl |].
  repeat split. cbn. intros q Hq. by apply lookup_made_is_Some.
Qed.

Lemma missingDirectories_extends parent fuel path w w' made :
  extends w w' →
  OS.missingDirectories parent fuel path w = inl made →
  ∃ made', OS.missingDirectories parent fuel path w' = inl made'.
Proof.
  intros (Hf & Hs & Hd). revert path made.
  induction fuel as [|fuel IH]; intros path made; cbn [OS.missingDirectories];
    rewrite Hf; destruct (OS.files w !! path); try done;
    destruct (OS.directories w !! path) eqn:Hdir.
  - intros _. destruct (Hd path) as [entries ->]; [by eexists |]. by eexists.
  - intros _. destruct (OS.directories w' !! path); by eexists.
  - intros _. destruct (Hd path) as [entries ->]; [by eexists |]. by eexists.
  - destruct (OS.directories w' !! path); [intros _; by eexists |].
    destruct (String.eqb (parent path) path); [intros _; by eexists |].
    destruct (OS.missingDirectories parent fuel (parent path) w) as [above|err] eqn:Habove;
      [| done].
    intros _. destruct (IH _ _ Habove) as [above' ->]. by eexists.
Qed.

Lemma MkdirAll_error_extends parent path w w' :
  extends w w' →
  (OS.MkdirAll parent path w).2 = None → (OS.MkdirAll parent path w').2 = None.
Proof.
  intros Hextends. unfold OS.MkdirAll.
  destruct (OS.missingDirectories parent (String.length path) path w) as [made|err] eqn:Hmade;
    [| done].
  intros _. destruct (missingDirectories_extends _ _ _ _ _ _ Hextends Hmade) as [made' ->].
  by destruct made'.
Qed.

Lemma Stat_Exists_extends path w w' :
  extends w w' → OS.Stat path w = OS.Exists → OS.Stat path w' = OS.Exists.
Proof.
  intros (Hf & Hs & Hd). unfold OS.Stat. rewrite Hs, Hf.
  destruct (OS.statErrors w !! path); [done |].
  case_bool_decide as Hw; [| done]. intros _.
  rewrite bool_decide_eq_true_2; [done |].
  destruct Hw as [Hw | Hw]; [by left | right; auto].
Qed.

Lemma Stat_NotExist path w :
  OS.Stat path w = OS.NotExist →
  OS.statErrors w !! path = None ∧ OS.files w !! path = None
  ∧ OS.directories w !! path = None.
Proof.
  unfold OS.Stat. destruct (OS.statErrors w !! path); [done |].
  case_bool_decide as Hw; [done |]. intros _.
  split; [done |]. split; apply eq_None_not_Some; intros H; apply Hw; auto.
Qed.

(** PrepareBuild up to its last two steps: reading the previous database and
    the build metadata changes nothing but the log. *)
Lemma PrepareBuild_cases databaseDirectory outputFilename flags config w :
  ∃ wl ctx,
    extends w wl
    ∧ PrepareBuild X databaseDirectory outputFilename flags config w
      = match OS.MkdirAll (Dir X) (MediaAt config) wl with
        | (w, Some err) =>
            (w, ctx, Some (wrapError "while creating the media output directory" err))
        | (w, None) =>
            match AcquireBuildLock X outputFilename w with
            | (w, Some err) =>
                (w, ctx,
                 Some (wrapError
                   "another ortfo build is in progress (could not acquire build lock)" err))
            | (w, None) => (w, ctx, None)
            end
        end.
Proof.
  unfold PrepareBuild.
  assert (Hlog : ∀ line w0, extends w w0 → extends w (OS.logged line w0))
    by eauto using extends_logged, extends_trans.
  destruct (OS.ReadFile outputFilename w) as [raw|err];
    [destruct (unmarshalWorks X raw) as [works|err] | destruct (IsNotExist err)];
    cbn [negb];
    match goal with
    | |- context [OS.ReadFile (BuildMetadataFilepath config) ?w0] =>
        destruct (OS.ReadFile (BuildMetadataFilepath config) w0) as [meta|?];
        [destruct (unmarshalBuildMetadata X meta) |]
    end;
    cbn [IsDefault Config withBuildMetadata withPreviousBuiltDatabase];
    destruct (IsDefault config);
    eexists _, _; (split; [| reflexivity]);
    unfold LogError, LogInfo; auto using extends_refl.
Qed.

(** An acquisition that reports no error found nothing at the path of the
    lock; it has created the lock file when the directory of the lock
    exists, and has changed nothing otherwise. *)
Lemma AcquireBuildLock_acquired outputFilename w w1 :
  AcquireBuildLock X outputFilename w = (w1, None) →
  let lock := buildLockFilepath X outputFilename in
  OS.statErrors w !! lock = None ∧ OS.files w !! lock = None
  ∧ OS.directories w !! lock = None
  ∧ w1 = match OS.directories w !! Dir X lock with
         | Some _ => OS.withFiles (<[lock := ""]> (OS.files w)) w
         | None => w
         end.
Proof.
  unfold AcquireBuildLock.
  destruct (OS.Stat _ w) eqn:Hstat; [done | | done].
  apply Stat_NotExist in Hstat as (Hs & Hf & Hd).
  unfold OS.WriteFile. rewrite Hd. intros [= <-]. cbv zeta.
  split; [done |]. split; [done |]. split; [done |].
  destruct (OS.directories w !! Dir X _); [done |]. by destruct (OS.files w !! Dir X _).
Qed.

Lemma AcquireBuildLock_held outputFilename w w1 :
  AcquireBuildLock X outputFilename w = (w1, None) →
  OS.statErrors w1 !! buildLockFilepath X outputFilename = None
  ∧ (isFile (buildLockFilepath X outputFilename) w1
     ↔ is_Some (OS.directories w1 !! Dir X (buildLockFilepath X outputFilename))).
Proof.
  intros (Hs & Hf & Hd & ->)%AcquireBuildLock_acquired.
  destruct (OS.directories w !! Dir X _) as [entries|] eqn:Hdir.
  - unfold isFile, OS.withFiles. cbn [OS.files OS.directories OS.statErrors].
    rewrite lookup_insert_eq, Hdir. split; [done |]. split; [by eexists | eauto].
  - split; [done |]. unfold isFile. rewrite Hf, Hdir.
    split; [by intros [[? ?] _] | by intros [? ?]].
Qed.

Lemma ReleaseBuildLock_no_file outputFilename w :
  OS.files (ReleaseBuildLock X outputFilename w) !! buildLockFilepath X outputFilename = None.
Proof.
  unfold ReleaseBuildLock, OS.Remove.
  destruct (OS.files w !! buildLockFilepath X outputFilename) eqn:Hf.
  - cbn. apply lookup_delete_eq.
  - by destruct (OS.directories w !! buildLockFilepath X outputFilename) as [[|? ?]|].
Qed.

Lemma ReleaseBuildLock_released outputFilename w :
  isFile (buildLockFilepath X outputFilename) w →
  OS.statErrors w !! buildLockFilepath X outputFilename = None →
  OS.Stat (buildLockFilepath X outputFilename) (ReleaseBuildLock X outputFilename w)
  = OS.NotExist.
Proof.
  intros [[content Hf] Hd] Hs. unfold ReleaseBuildLock, OS.Remove. rewrite Hf.
  unfold OS.Stat. cbn. rewrite Hs, lookup_delete_eq, Hd.
  rewrite bool_decide_eq_false_2; [done |].
  intros [[? ?] | [? ?]]; done.
Qed.

End BuildLock.




(** ** The works of a build *)

(** An included work whose build fails is logged, and what Build returned
    next to the error is stored under its identifier all the same. *)
Lemma buildWorks_failed_item (X : Orchestrator.externals)
    (databaseDirectory outputFilename : string) (dirEntry : OS.DirEntry)
    (rest : list OS.DirEntry) (works : Orchestrator.Works) (ctx ctx' : Orchestrator.RunContext)
    (w w' : OS.World) (newWork : Orchestrator.AnalyzedWork.t) (err : error) :
  Orchestrator.Build X databaseDirectory outputFilename (OS.Name dirEntry) ctx w
  = (w', ctx', (newWork, Some err)) →
  Orchestrator.buildWorks X "*" databaseDirectory outputFilename (dirEntry :: rest) works ctx w
  = Orchestrator.buildWorks X "*" databaseDirectory outputFilename rest
      (<[OS.Name dirEntry := newWork]> works) ctx'
      (Orchestrator.LogError
         ("while building " +:+ OS.Name dirEntry +:+ ": " +:+ errorMessage err) w').
Proof.
  intros Hbuild. cbn [Orchestrator.buildWorks].
  destruct (Orchestrator.FindWork X _ _) as [presentBefore oldWork].
  cbn. by rewrite Hbuild.
Qed.

(** C1 at a work whose description cannot be read.  The error is logged and
    the run goes on to write the database, but the work is not left out: the
    zero AnalyzedWork that Build returns with the error is stored under the
    work's identifier and written. *)
Theorem C1_failed_item_is_stored :
  let X := Sample.orchestrator None in
  let build := Orchestrator.Build X "db" "out/database.json" "broken" in
  let result := Orchestrator.BuildSome X "*" "db" "out/database.json"
                  Sample.flags Sample.config Sample.brokenWorld in
  (build Sample.context Sample.brokenWorld).2
  = (Orchestrator.AnalyzedWork.zero,
     Some (errorString "read db/broken/description.md: is a directory"))
  ∧ result.2 = None
  ∧ OS.log result.1
    = [OS.Error "while building broken: read db/broken/description.md: is a directory"]
  ∧ OS.files result.1 !! "out/database.json"
    = Some (Orchestrator.marshalWorks X false
              (<["broken" := Orchestrator.AnalyzedWork.zero]> ∅))
  ∧ Orchestrator.marshalWorks X false (<["broken" := Orchestrator.AnalyzedWork.zero]> ∅)
    ≠ Orchestrator.marshalWorks X false ∅.
Proof.
  intros X build result.
  split; [by vm_compute |]. split; [by vm_compute |].
  split; [by vm_compute |]. split; by vm_compute.
Qed.

(** ** Layout resolution *)

Section LayoutResolution.
Import Layouts.

Lemma resolveCell_error order language cell err :
  resolveCell order language cell = inr err →
  ∃ blockID, cell = Some blockID ∧ (blockID ∉ order)
             ∧ err = danglingReference language blockID.
Proof.
  destruct cell as [blockID|]; [| done]. cbn.
  case_bool_decide; [done |]. intros [= <-]. eauto.
Qed.

Lemma resolveCell_ok order language cell c :
  resolveCell order language cell = inl c →
  c = default emptyCell cell ∧ (∀ blockID, cell = Some blockID → blockID ∈ order).
Proof.
  destruct cell as [blockID|]; cbn.
  - case_bool_decide; [| done]. intros [= <-]. split; [done |]. by intros ? [= <-].
  - intros [= <-]. by split.
Qed.

Lemma resolveRow_error order language row err :
  resolveRow order language row = inr err →
  ∃ blockID, Some blockID ∈ row ∧ (blockID ∉ order)
             ∧ err = danglingReference language blockID.
Proof.
  induction row as [|cell row IH]; [done |]. cbn [resolveRow].
  destruct (resolveCell order language cell) as [c|e] eqn:Hcell.
  - destruct (resolveRow order language row) as [cs|e]; [done |].
    intros [= <-]. destruct (IH eq_refl) as (blockID & Hin & Hout & ->).
    exists blockID. split; [by right | done].
  - intros [= <-]. apply resolveCell_error in Hcell as (blockID & -> & Hout & ->).
    exists blockID. split; [by left | done].
Qed.

Lemma resolveRow_ok order language row cells :
  resolveRow order language row = inl cells →
  cells = map (default emptyCell) row ∧ (∀ blockID, Some blockID ∈ row → blockID ∈ order).
Proof.
  revert cells. induction row as [|cell row IH]; intros cells.
  - intros [= <-]. split; [done |]. intros ? Hin. by apply elem_of_nil in Hin.
  - cbn [resolveRow].
    destruct (resolveCell order language cell) as [c|e] eqn:Hcell; [| done].
    destruct (resolveRow order language row) as [cs|e]; [| done].
    intros [= <-]. apply resolveCell_ok in Hcell as [-> Hcell].
    destruct (IH cs eq_refl) as [-> Hrow]. split; [done |].
    intros blockID [Heq | Hin]%elem_of_cons; [by apply Hcell | by apply Hrow].
Qed.

Lemma resolveRows_error order language rows err :
  resolveRows order language rows = inr err →
  ∃ blockID, blockID ∈ references rows ∧ (blockID ∉ order)
             ∧ err = danglingReference language blockID.
Proof.
  unfold references. induction rows as [|row rows IH]; [done |]. cbn [resolveRows].
  destruct (resolveRow order language row) as [r|e] eqn:Hrow.
  - destruct (resolveRows order language rows) as [rs|e]; [done |].
    intros [= <-]. destruct (IH eq_refl) as (blockID & Hin & Hout & ->).
    exists blockID. split; [| done]. cbn [concat].
    rewrite omap_app. apply elem_of_app. by right.
  - intros [= <-]. apply resolveRow_error in Hrow as (blockID & Hin & Hout & ->).
    exists blockID. split; [| done]. cbn [concat].
    rewrite omap_app. apply elem_of_app. left.
    apply list_elem_of_omap. by exists (Some blockID).
Qed.

Lemma resolveRows_ok order language rows layout :
  resolveRows order language rows = inl layout →
  layout = map (map (default emptyCell)) rows
  ∧ (∀ blockID, blockID ∈ references rows → blockID ∈ order).
Proof.
  unfold references. revert layout. induction rows as [|row rows IH]; intros layout.
  - intros [= <-]. split; [done |]. intros ? Hin. by apply elem_of_nil in Hin.
  - cbn [resolveRows].
    destruct (resolveRow order language row) as [r|e] eqn:Hrow; [| done].
    destruct (resolveRows order language rows) as [rs|e]; [| done].
    intros [= <-]. apply resolveRow_ok in Hrow as [-> Hrow].
    destruct (IH rs eq_refl) as [-> Hrows]. split; [done |].
    intros blockID. cbn [concat]. rewrite omap_app.
    intros [Hin | Hin]%elem_of_app; [| auto].
    apply list_elem_of_omap in Hin as ([b|] & Hin & [= <-]). auto.
Qed.

(** A declared layout with a dangling reference never resolves. *)
Lemma ResolveLayout_dangling rows order language blockID :
  blockID ∈ references rows → blockID ∉ order →
  ∃ dangling, ResolveLayout (Some rows) order language
              = inr (danglingReference language dangling)
              ∧ dangling ∈ references rows ∧ dangling ∉ order.
Proof.
  intros Hin Hout. cbn [ResolveLayout].
  destruct (resolveRows order language rows) as [layout|err] eqn:Hres.
  - apply resolveRows_ok in Hres as [_ Hall]. by specialize (Hall blockID Hin).
  - apply resolveRows_error in Hres as (dangling & ? & ? & ->). eauto.
Qed.

End LayoutResolution.

Section LayoutCallSite.
Import Orchestrator.
Context (X : externals).

(** The loop over the languages stops at the first layout that does not
    resolve, and reports it with its language and the work. *)
Lemma localize_dangling workID description analyzedMediae langs content w lang err :
  lang ∈ langs →
  resolveLayoutOf X description lang = inr err →
  ∃ lang' err',
    lang' ∈ langs
    ∧ resolveLayoutOf X description lang' = inr err'
    ∧ (localize X workID description analyzedMediae langs content w).2
      = inr (wrapError ("while resolving " +:+ lang' +:+ " layout of " +:+ workID) err').
Proof.
  intros Hin Herr. revert content w.
  induction langs as [|lang0 langs IH]; intros content w; [by apply elem_of_nil in Hin |].
  cbn [localize].
  destruct (resolveLayoutOf X description lang0) as [layout|err0] eqn:Hres.
  - destruct (assembleBlocks _ _ _ w) as [w1 blocks].
    apply elem_of_cons in Hin as [-> | Hin]; [congruence |].
    match goal with
    | |- context [localize X workID description analyzedMediae langs ?c w1] =>
        destruct (IH Hin c w1) as (lang' & err' & Hin' & Herr' & Heq)
    end.
    exists lang', err'. split; [by right | done].
  - exists lang0, err0. split; [by left | done].
Qed.

End LayoutCallSite.

(** C9.  For every language of a parsed work whose declared layout
    references a block ID that is not in the language's order sequence,
    resolving that layout fails with the error naming the language and a
    dangling ID of that layout, and the build of the work fails with the
    error of the first language it cannot resolve, wrapped with that
    language and the work; nothing is dropped or substituted, for a declared
    layout that does resolve comes back as declared, cell by cell, and all
    its references are in the order sequence. *)
Theorem C9_dangling_layout_reference (X : Orchestrator.externals)
    (databaseDirectory outputFilename workID descriptionRaw lang blockID : string)
    (ctx : Orchestrator.RunContext) (w : OS.World) (rows : Layouts.declared) :
  let description :=
    Description.ParseDescription (Orchestrator.description X) descriptionRaw in
  let order lang := default [] (ParsedWork.ContentBlocksOrders description !! lang) in
  OS.ReadFile (Orchestrator.descriptionFilenameOf X ctx [databaseDirectory; workID]) w
  = inl descriptionRaw →
  is_Some (ParsedWork.Paragraphs description !! lang) →
  Orchestrator.declaredLayout X description lang = Some rows →
  blockID ∈ Layouts.references rows →
  blockID ∉ order lang →
  (∃ dangling,
     Orchestrator.resolveLayoutOf X description lang
     = inr (danglingReference lang dangling)
     ∧ dangling ∈ Layouts.references rows ∧ dangling ∉ order lang)
  ∧ (∃ lang' dangling',
       (dangling' ∉ order lang')
       ∧ (Orchestrator.Build X databaseDirectory outputFilename workID ctx w).2
         = (Orchestrator.AnalyzedWork.zero,
            Some (wrapError ("while resolving " +:+ lang' +:+ " layout of " +:+ workID)
                    (danglingReference lang' dangling'))))
  ∧ (∀ rows' blocks lang' layout,
       Layouts.ResolveLayout (Some rows') blocks lang' = inl layout →
       layout = map (map (default Layouts.emptyCell)) rows'
       ∧ ∀ reference, reference ∈ Layouts.references rows' → reference ∈ blocks).
Proof.
  intros description order Hread [paragraphs Hlang] Hdeclared Hin Hout.
  assert (Hres : ∃ dangling,
    Orchestrator.resolveLayoutOf X description lang = inr (danglingReference lang dangling)
    ∧ dangling ∈ Layouts.references rows ∧ dangling ∉ order lang).
  { unfold Orchestrator.resolveLayoutOf. rewrite Hdeclared.
    by apply ResolveLayout_dangling with blockID. }
  split; [done |]. split.
  - destruct Hres as (dangling & Hres & _).
    unfold Orchestrator.Build. rewrite Hread. fold description.
    destruct (Orchestrator.handleAllMediae X workID _ w) as [w1 analyzedMediae].
    set (langs := (map_to_list (ParsedWork.Paragraphs description)).*1).
    assert (Hlangs : lang ∈ langs).
    { subst langs. apply list_elem_of_fmap. exists (lang, paragraphs).
      split; [done |]. by apply elem_of_map_to_list. }
    destruct (localize_dangling X workID description analyzedMediae langs ∅ w1 lang _
                Hlangs Hres) as (lang' & err' & _ & Herr' & Hloc).
    destruct (Orchestrator.localize X workID description analyzedMediae langs ∅ w1)
      as [w2 outcome]. cbn [snd] in Hloc. subst outcome. cbn [snd].
    unfold Orchestrator.resolveLayoutOf in Herr'.
    destruct (Orchestrator.declaredLayout X description lang') as [rows'|]; [| done].
    apply resolveRows_error in Herr' as (dangling' & _ & Hout' & ->).
    by exists lang', dangling'.
  - intros rows' blocks lang' layout Hlayout. by apply resolveRows_ok in Hlayout.
Qed.

Lemma C9_dangling_layout_reference_witness :
  let X := Sample.orchestrator (Some Sample.danglingLayout) in
  ∃ lang' dangling',
    (Orchestrator.Build X "db" "out/database.json" "work" Sample.context Sample.readyWorld).2
    = (Orchestrator.AnalyzedWork.zero,
       Some (wrapError ("while resolving " +:+ lang' +:+ " layout of work")
               (danglingReference lang' dangling'))).
Proof.
  intros X.
  destruct (C9_dangling_layout_reference X "db" "out/database.json" "work"
              Sample.abbreviationMarkdown "default" "zz" Sample.context Sample.readyWorld
              Sample.danglingLayout) as (_ & (lang' & dangling' & _ & Hbuild) & _).
  - reflexivity.
  - vm_compute. eauto.
  - reflexivity.
  - apply (bool_decide_unpack _). vm_compute. reflexivity.
  - apply (bool_decide_unpack _). vm_compute. reflexivity.
  - exists lang', dangling'. exact Hbuild.
Defined.

Lemma C7_duplicate_media_sources_witness :
  ∃ st, Analysis.run Sample.analyzer Sample.analysisContext Sample.twoLanguages "db/work"
        = inl st
    ∧ NoDup (Analysis.analyzedFiles st)
    ∧ ∃ ms, Analysis.analyzedMediae st !! "fr" = Some ms
        ∧ Forall2 (λ media m,
            Analysis.entryOf Sample.analyzer Sample.analysisContext
              (Analysis.mediaDirectory Sample.analyzer Sample.analysisContext "db/work")
              (Analysis.visited Sample.twoLanguages) media m
            ∧ Media.Alt m = MediaEmbedDeclaration.Alt media
            ∧ Media.Title m = MediaEmbedDeclaration.Title media
            ∧ Media.Attributes m = MediaEmbedDeclaration.Attributes media)
            [Sample.embed "un chat" "Chat"] ms.
Proof.
  destruct (Analysis.run Sample.analyzer Sample.analysisContext Sample.twoLanguages "db/work")
    as [st|err] eqn:Hrun; [| by vm_compute in Hrun].
  exists st. split; [done |].
  destruct (C7_duplicate_media_sources Sample.analyzer Sample.analysisContext
              Sample.twoLanguages "db/work" st) as (_ & Hfiles & Hlangs).
  - apply (bool_decide_unpack _). vm_compute. reflexivity.
  - exact Hrun.
  - split; [exact Hfiles |].
    apply (Hlangs "fr" [Sample.embed "un chat" "Chat"]).
    unfold Sample.twoLanguages. apply elem_of_cons. right. apply elem_of_cons. by left.
Defined.

(** * Further properties *)

(** ** Attribute sigils: the clean alt text *)

Section SigilZone.
Import Sigils.

Lemma occurs_false_no_space (zone : list ascii) :
  occurs " " zone = false → zoneOf zone = zone.
Proof.
  induction zone as [|c zone IH]; [done |]. rewrite occurs_cons. cbn [zoneOf].
  intros [Hc Hz]%orb_false_elim. rewrite Hc. by rewrite IH.
Qed.

(** In the zone and with no space to read, the loop only updates flags. *)
Lemma decodeLoop_zone (zone : list ascii) (st : decoder) :
  occurs " " zone = false → inAttributesZone st = true →
  decodeLoop zone st
  = {| attrs := zoneEffect zone (attrs st); altText := altText st;
       inAttributesZone := true |}.
Proof.
  revert st. induction zone as [|c zone IH]; intros st Hzone Hin.
  - cbn. rewrite zoneEffect_nil. by destruct st; cbn in *; subst.
  - rewrite occurs_cons in Hzone. apply orb_false_elim in Hzone as [Hc Hz].
    rewrite decodeLoop_cons.
    assert (Hstep : inAttributesZone (decodeRune st c) = true
                    ∧ altText (decodeRune st c) = altText st).
    { unfold decodeRune. rewrite Hc, Hin. by cbn. }
    destruct Hstep as [Hin' Halt'].
    rewrite (IH _ Hz Hin'), Halt'. f_equal.
    pose proof (decodeLoop_inside [c] st Hin) as Hone.
    change (decodeLoop [c] st) with (decodeRune st c) in Hone.
    rewrite Hone. cbn [zoneOf]. rewrite Hc.
    destruct (attrs st) as [lo au mu pl co]. unfold zoneEffect.
    rewrite !occurs_cons. cbn [occurs existsb Loop Autoplay Muted Playsinline Controls].
    rewrite !orb_false_r, negb_orb, !orb_assoc, andb_assoc. done.
Qed.

Lemma occurs_rev c (l : list ascii) : occurs c (rev l) = occurs c l.
Proof.
  unfold occurs. apply eq_true_iff_eq. rewrite !existsb_exists.
  split; intros (x & Hin & Hx); exists x; (split; [| done]).
  - by apply in_rev.
  - by apply in_rev in Hin.
Qed.

Lemma zoneEffect_ext zone zone' a :
  (∀ c, occurs c zone = occurs c zone') → zoneEffect zone a = zoneEffect zone' a.
Proof. intros H. unfold zoneEffect. by rewrite !H. Qed.

Lemma lastRune_app (s t : string) :
  t ≠ "" → lastRuneIsAttribute (s +:+ t) = lastRuneIsAttribute t.
Proof.
  intros Ht. unfold lastRuneIsAttribute, DecodeLastRuneInString.
  rewrite runes_app. destruct t as [|c t]; [done |].
  cbn [Str.runes list_ascii_of_string].
  destruct (list_ascii_of_string t) as [|c' l] using rev_ind.
  - by rewrite last_snoc.
  - rewrite app_comm_cons, app_assoc, !last_snoc. done.
Qed.

Lemma lastRune_nonempty (s : string) : lastRuneIsAttribute s = true → s ≠ "".
Proof. by intros H ->. Qed.

Lemma decodeLoop_app l1 l2 st : decodeLoop (l1 ++ l2) st = decodeLoop l2 (decodeLoop l1 st).
Proof. apply fold_left_app. Qed.

(** With a separating space, the clean alt is what stands before it. *)
Lemma ExtractAttributesFromAlt_separated (text zone : string) :
  occurs " " (Str.runes zone) = false →
  lastRuneIsAttribute zone = true →
  ExtractAttributesFromAlt (text +:+ " " +:+ zone)
  = (text, zoneEffect (Str.runes zone) defaultAttributes).
Proof.
  intros Hzone Hlast. unfold ExtractAttributesFromAlt.
  pose proof (lastRune_nonempty _ Hlast) as Hne.
  rewrite (lastRune_app text (" " +:+ zone)) by by destruct zone.
  rewrite (lastRune_app " " zone Hne), Hlast. cbn [negb].
  assert (Hrev : rev (Str.runes (text +:+ " " +:+ zone))
                 = rev (Str.runes zone) ++ " "%char :: rev (Str.runes text)).
  { rewrite !runes_app, !rev_app_distr. cbn [Str.runes list_ascii_of_string rev app].
    by rewrite <- app_assoc. }
  rewrite Hrev, decodeLoop_app.
  rewrite (decodeLoop_zone (rev (Str.runes zone))); [| by rewrite occurs_rev | done].
  rewrite decodeLoop_cons.
  set (st := decodeRune _ " ").
  assert (Hst : inAttributesZone st = false ∧ altText st = ""
                ∧ attrs st = zoneEffect (rev (Str.runes zone)) defaultAttributes)
    by by subst st.
  destruct Hst as (Hout & Halt & Hattrs).
  destruct (decodeLoop_outside (rev (Str.runes text)) st Hout) as (Ha & Ht & _).
  rewrite Ha, Ht, Halt, Hattrs, rev_involutive, str_app_empty_r, ofRunes_runes.
  f_equal. apply zoneEffect_ext. intros c. apply occurs_rev.
Qed.

End SigilZone.

(** X1.  When the alt text is a text in valid UTF-8, one space and a run
    of characters without space that ends in a sigil, the clean alt is the
    text before that space, whatever it contains, and each flag is set by
    the sigils of the run alone.  (Of a text that is not valid UTF-8 the
    conversion to runes keeps U+FFFD in place of the bytes it cannot
    read.) *)
Theorem X1_alt_before_last_space (text zone : string) :
  Utf8.ValidString text = true →
  Sigils.occurs " " (Str.runes zone) = false →
  Sigils.lastRuneIsAttribute zone = true →
  Sigils.ExtractAttributesFromAlt (text +:+ " " +:+ zone)
  = (text, Sigils.zoneEffect (Str.runes zone) Sigils.defaultAttributes).
Proof. intros _. apply ExtractAttributesFromAlt_separated. Qed.

Lemma X1_alt_before_last_space_witness :
  Sigils.ExtractAttributesFromAlt ("a > b" +:+ " " +:+ "~=")
  = ("a > b", Sigils.zoneEffect (Str.runes "~=") Sigils.defaultAttributes).
Proof. apply X1_alt_before_last_space; reflexivity. Defined.

(** X2.  When the alt text has no space at all and ends in a sigil, the whole
    of it is read as the attribute zone: the clean alt is empty, the
    characters that are no sigils being dropped. *)
Theorem X2_alt_without_space_is_lost (alt : string) :
  Sigils.occurs " " (Str.runes alt) = false →
  Sigils.lastRuneIsAttribute alt = true →
  Sigils.ExtractAttributesFromAlt alt
  = ("", Sigils.zoneEffect (Str.runes alt) Sigils.defaultAttributes).
Proof.
  intros Hzone Hlast. unfold Sigils.ExtractAttributesFromAlt. rewrite Hlast. cbn [negb].
  rewrite decodeLoop_zone; [| by rewrite occurs_rev | done].
  cbn [Sigils.attrs Sigils.altText]. f_equal.
  apply zoneEffect_ext. intros c. apply occurs_rev.
Qed.

Lemma X2_alt_without_space_is_lost_witness :
  Sigils.ExtractAttributesFromAlt "photo>"
  = ("", Sigils.zoneEffect (Str.runes "photo>") Sigils.defaultAttributes).
Proof. apply X2_alt_without_space_is_lost; reflexivity. Defined.

(** X3.  Decoding does not depend on the order of the sigils nor on how
    often each is written: two runs after the separating space in which the
    same sigils occur give the same clean alt and the same attributes. *)
Theorem X3_sigil_order_independent (text zone zone' : string) :
  Sigils.occurs " " (Str.runes zone) = false →
  Sigils.occurs " " (Str.runes zone') = false →
  Sigils.lastRuneIsAttribute zone = true →
  Sigils.lastRuneIsAttribute zone' = true →
  Forall (λ sigil, Sigils.occurs sigil (Str.runes zone)
                   = Sigils.occurs sigil (Str.runes zone'))
         [Sigils.RuneLoop; Sigils.RuneAutoplay; Sigils.RuneHideControls] →
  Sigils.ExtractAttributesFromAlt (text +:+ " " +:+ zone)
  = Sigils.ExtractAttributesFromAlt (text +:+ " " +:+ zone').
Proof.
  intros Hz Hz' Hl Hl' Hsame.
  rewrite !ExtractAttributesFromAlt_separated by done. f_equal.
  apply Forall_cons in Hsame as [Hloop Hsame].
  apply Forall_cons in Hsame as [Hauto Hsame].
  apply Forall_cons in Hsame as [Hhide _].
  unfold Sigils.zoneEffect. by rewrite Hloop, Hauto, Hhide.
Qed.

Lemma X3_sigil_order_independent_witness :
  Sigils.ExtractAttributesFromAlt ("cat" +:+ " " +:+ "~>")
  = Sigils.ExtractAttributesFromAlt ("cat" +:+ " " +:+ ">~~>").
Proof.
  apply X3_sigil_order_independent; try reflexivity.
  repeat constructor.
Defined.

(** ** Header/body splitter: separators and the two parts *)

Section HeaderParts.
Import Header.

Lemma strip_all_dashes_nil (l : list ascii) :
  forallb (Ascii.eqb "-") l = true →
  (fix strip (l : list ascii) : list ascii :=
     match l with
     | x :: l' => if Ascii.eqb x "-" then strip l' else l
     | [] => []
     end) l = [].
Proof.
  induction l as [|c l IH]; [done |]. cbn [forallb].
  intros [Hc Hl]%andb_prop. rewrite (Ascii.eqb_sym c "-"), Hc. by apply IH.
Qed.

Lemma strip_keeps_last (l : list ascii) (x : ascii) :
  Ascii.eqb x "-" = false →
  ∃ l', (fix strip (l : list ascii) : list ascii :=
           match l with
           | x :: l' => if Ascii.eqb x "-" then strip l' else l
           | [] => []
           end) (l ++ [x]) = l' ++ [x].
Proof.
  intros Hx. induction l as [|c l IH].
  - exists []. cbn. by rewrite Hx.
  - cbn [app]. destruct (Ascii.eqb c "-") eqn:Hc; [done |]. by exists (c :: l).
Qed.

Lemma strip_not_dashes (l : list ascii) :
  forallb (Ascii.eqb "-") l = false →
  ∃ x l', Ascii.eqb x "-" = false
    ∧ (fix strip (l : list ascii) : list ascii :=
         match l with
         | x :: l' => if Ascii.eqb x "-" then strip l' else l
         | [] => []
         end) l = x :: l'.
Proof.
  induction l as [|c l IH]; [done |]. cbn [forallb].
  rewrite (Ascii.eqb_sym "-" c). destruct (Ascii.eqb c "-") eqn:Hc; cbn [andb]; [done |].
  intros _. by exists c, l.
Qed.

Lemma ofRunes_eq_empty (l : list ascii) : Str.ofRunes l = "" → l = [].
Proof. by destruct l. Qed.

Lemma Trim_dash_empty (line : string) :
  String.eqb (Str.Trim line "-") "" = forallb (Ascii.eqb "-") (Str.runes line).
Proof.
  unfold Str.Trim.
  destruct (forallb (Ascii.eqb "-") (Str.runes line)) eqn:Hall.
  - rewrite (strip_all_dashes_nil _ Hall). done.
  - apply String.eqb_neq. intros Hempty%ofRunes_eq_empty.
    destruct (strip_not_dashes _ Hall) as (x & l' & Hx & Hstrip).
    rewrite Hstrip in Hempty. cbn [rev] in Hempty.
    destruct (strip_keeps_last (rev l') x Hx) as (l'' & Hlast).
    rewrite Hlast, rev_app_distr in Hempty. done.
Qed.

Lemma Count_all_dashes (line : string) :
  forallb (Ascii.eqb "-") (Str.runes line) = true →
  Str.Count line "-" = String.length line.
Proof.
  unfold Str.Count. induction line as [|c line IH]; [done |].
  cbn [Str.runes list_ascii_of_string forallb List.filter String.length].
  intros [Hc Hl]%andb_prop. rewrite Hc. cbn [List.length]. f_equal. by apply IH.
Qed.

(** The two accumulators after a run of the loop over [lines]. *)
Lemma accumulate_parts (lines : list string) (st : splitter) :
  ∃ header body,
    rawYAMLPart (fold_left accumulate lines st)
    = rawYAMLPart st +:+ Sectioner.joinLines header
    ∧ markdownPart (fold_left accumulate lines st)
      = markdownPart st +:+ Sectioner.joinLines body
    ∧ header ++ body ≡ₚ List.filter (λ line, negb (isSeparator line)) lines
    ∧ sublist header lines ∧ sublist body lines.
Proof.
  revert st. induction lines as [|line lines IH]; intros st.
  - exists [], []. cbn. by rewrite !str_app_empty_r.
  - cbn [fold_left List.filter]. destruct (IH (accumulate st line))
      as (header & body & Hh & Hb & Hperm & Hsh & Hsb).
    rewrite Hh, Hb. unfold accumulate.
    destruct (isSeparator line) eqn:Hsep; cbn [negb rawYAMLPart markdownPart].
    + exists header, body. repeat split; try done; by apply sublist_cons.
    + destruct (inYAMLHeader st); cbn [rawYAMLPart markdownPart].
      * exists (line :: header), body. rewrite joinLines_cons, !str_app_assoc.
        repeat split; [by constructor | by apply sublist_skip | by apply sublist_cons].
      * exists header, (line :: body). rewrite joinLines_cons, !str_app_assoc.
        repeat split; [| by apply sublist_cons | by apply sublist_skip].
        rewrite <- Hperm. symmetry. apply Permutation_middle.
Qed.

Lemma accumulate_no_separator (lines : list string) (st : splitter) :
  Forall (λ line, isSeparator line = false) lines →
  inYAMLHeader st = false →
  fold_left accumulate lines st
  = {| inYAMLHeader := false; rawYAMLPart := rawYAMLPart st;
       markdownPart := markdownPart st +:+ Sectioner.joinLines lines |}.
Proof.
  intros Hall. revert st. induction Hall as [|line lines Hline _ IH]; intros st Hin.
  - cbn. rewrite str_app_empty_r. by destruct st; cbn in *; subst.
  - cbn [fold_left]. rewrite IH.
    + unfold accumulate. rewrite Hline, Hin. cbn [rawYAMLPart markdownPart].
      by rewrite joinLines_cons, !str_app_assoc.
    + unfold accumulate. by rewrite Hline, Hin.
Qed.

Lemma splitRunes_nonempty sep l : Str.splitRunes sep l ≠ [].
Proof.
  destruct l as [|c l]; [done |]. cbn [Str.splitRunes].
  destruct (Ascii.eqb c sep); [done |]. by destruct (Str.splitRunes sep l).
Qed.

(** Splitting a text into lines and ending each line with a newline gives
    the text back, with one newline more. *)
Lemma joinLines_Lines (text : string) :
  Sectioner.joinLines (Str.Lines text) = text +:+ Str.newline.
Proof.
  unfold Str.Lines. rewrite <- (ofRunes_runes text) at 2.
  generalize (Str.runes text) as l. induction l as [|c l IH]; [done |].
  cbn [Str.splitRunes]. destruct (Ascii.eqb_spec c Str.nl) as [-> | Hne].
  - cbn [map]. rewrite joinLines_cons, IH. done.
  - destruct (Str.splitRunes Str.nl l) as [|cur rest] eqn:Hsplit;
      [by apply splitRunes_nonempty in Hsplit |].
    cbn [map] in *. rewrite joinLines_cons in *.
    change (Str.ofRunes (c :: cur)) with (String c (Str.ofRunes cur)).
    change (Str.ofRunes (c :: l)) with (String c (Str.ofRunes l)).
    rewrite !str_app_cons. by rewrite IH.
Qed.

End HeaderParts.

(** X4.  A line is a header separator exactly when it is made of dashes
    only, at least three of them; a blank, a comment or a trailing space
    after the dashes makes it an ordinary line. *)
Theorem X4_separator_is_three_dashes (line : string) :
  Header.isSeparator line
  = forallb (Ascii.eqb "-") (Str.runes line) && Nat.leb 3 (String.length line).
Proof.
  unfold Header.isSeparator. rewrite Trim_dash_empty.
  destruct (forallb (Ascii.eqb "-") (Str.runes line)) eqn:Hall; [| done].
  by rewrite Count_all_dashes.
Qed.

(** X5.  After the tab loop a line never starts with a tab, and running the
    expansion again changes nothing. *)
Theorem X5_expandTabs_no_leading_tab (line : string) :
  Str.HasPrefix (Header.expandTabs line) (String Str.tab "") = false
  ∧ Header.expandTabs (Header.expandTabs line) = Header.expandTabs line.
Proof.
  assert (Hfirst : Str.HasPrefix (Header.expandTabs line) (String Str.tab "") = false).
  { destruct line as [|c rest]; [done |].
    destruct (Ascii.eqb_spec Str.tab c) as [<- | Hne].
    - by rewrite expandTabs_leading_tab.
    - rewrite expandTabs_no_leading_tab; rewrite HasPrefix_tab_cons;
        by apply Ascii.eqb_neq. }
  split; [done | by apply expandTabs_no_leading_tab].
Qed.

(** X6.  The header text and the body text share out the lines of the
    document that are no separators, after tab expansion: every such line
    goes to exactly one of the two, each keeps the order of the document, and
    no separator line reaches either. *)
Theorem X6_header_and_body_partition (descriptionRaw : string) :
  let lines := Header.expandedLines descriptionRaw in
  let st := Header.splitHeader descriptionRaw in
  ∃ header body,
    Header.rawYAMLPart st = Sectioner.joinLines header
    ∧ Header.markdownPart st = Sectioner.joinLines body
    ∧ header ++ body ≡ₚ List.filter (λ line, negb (Header.isSeparator line)) lines
    ∧ sublist header lines ∧ sublist body lines.
Proof.
  intros lines st. subst st. rewrite splitHeader_expanded. fold lines.
  destruct (accumulate_parts lines
              {| Header.inYAMLHeader := false; Header.rawYAMLPart := "";
                 Header.markdownPart := "" |}) as (header & body & Hh & Hb & H).
  exists header, body. by rewrite Hh, Hb.
Qed.

(** X7.  A document without separator line has an empty header text, and
    its body is made of its lines after tab expansion, each followed by a
    newline; when moreover none of its lines starts with a tab, the body is
    the document itself with one newline added at its end. *)
Theorem X7_document_without_header (descriptionRaw : string) :
  Forall (λ line, Header.isSeparator line = false) (Header.expandedLines descriptionRaw) →
  Header.rawYAMLPart (Header.splitHeader descriptionRaw) = ""
  ∧ Header.markdownPart (Header.splitHeader descriptionRaw)
    = Sectioner.joinLines (Header.expandedLines descriptionRaw)
  ∧ (Forall (λ line, Str.HasPrefix line (String Str.tab "") = false)
       (Str.Lines descriptionRaw) →
     Header.markdownPart (Header.splitHeader descriptionRaw)
     = descriptionRaw +:+ Str.newline).
Proof.
  intros Hsep. rewrite splitHeader_expanded.
  rewrite accumulate_no_separator by done. cbn [Header.rawYAMLPart Header.markdownPart].
  rewrite str_app_nil. split; [done |]. split; [done |]. intros Htab.
  assert (Hsame : Header.expandedLines descriptionRaw = Str.Lines descriptionRaw).
  { unfold Header.expandedLines. induction Htab as [|l ls Hl _ IH]; [done |].
    cbn [map]. by rewrite (expandTabs_no_leading_tab l Hl), IH. }
  rewrite Hsame. apply joinLines_Lines.
Qed.

Lemma X7_document_without_header_witness :
  Header.rawYAMLPart
    (Header.splitHeader ("# Title" +:+ Str.newline +:+ String Str.tab "-- text")) = ""
  ∧ Header.markdownPart
      (Header.splitHeader ("# Title" +:+ Str.newline +:+ String Str.tab "-- text"))
    = Sectioner.joinLines ["# Title"; "    -- text"].
Proof.
  destruct (X7_document_without_header
              ("# Title" +:+ Str.newline +:+ String Str.tab "-- text"))
    as (Hheader & Hbody & _).
  - repeat constructor.
  - split; [exact Hheader | exact Hbody].
Defined.

(** ** Language sectioner: markers and buckets *)

Section MarkerPattern.
Import Regexp.

Lemma spanSpaces_spaces_then (ws rest : list ascii) :
  forallb isSpace ws = true →
  match rest with c :: _ => isSpace c = false | [] => True end →
  spanSpaces (ws ++ rest) = (ws, rest).
Proof.
  intros Hws Hrest. induction ws as [|w ws IH].
  - cbn [app]. destruct rest as [|c rest]; [done |]. cbn [spanSpaces]. by rewrite Hrest.
  - cbn [forallb] in Hws. apply andb_prop in Hws as [Hw Hws].
    cbn [app spanSpaces]. rewrite Hw, (IH Hws). done.
Qed.

(** White space followed by a name on one line: the group is the name. *)
Lemma spacesThenRest_name (ws name : list ascii) :
  ws ≠ [] → forallb isSpace ws = true →
  match name with c :: _ => isSpace c = false | [] => False end →
  existsb (Ascii.eqb Str.nl) name = false →
  spacesThenRest (ws ++ name) = Some name.
Proof.
  intros Hne Hws Hfirst Hnl. unfold spacesThenRest.
  rewrite spanSpaces_spaces_then; [| done | by destruct name].
  destruct ws as [|w ws]; [done |]. destruct name as [|c name]; [done |].
  by rewrite Hnl.
Qed.

End MarkerPattern.

(** X8.  A marker line written as two colons, white space and a name reads
    back as that name, when the name is not empty, does not start with white
    space and holds no newline. *)
Theorem X8_language_marker_round_trip (spaces name : string) :
  spaces ≠ "" →
  forallb Regexp.isSpace (Str.runes spaces) = true →
  match Str.runes name with c :: _ => Regexp.isSpace c = false | [] => False end →
  existsb (Ascii.eqb Str.nl) (Str.runes name) = false →
  Regexp.languageMarker ("::" +:+ spaces +:+ name) = Some name.
Proof.
  intros Hne Hws Hfirst Hnl. unfold Regexp.languageMarker.
  rewrite !runes_app. cbn [Str.runes list_ascii_of_string app]. cbn [Ascii.eqb andb].
  change (list_ascii_of_string spaces) with (Str.runes spaces).
  change (list_ascii_of_string name) with (Str.runes name).
  rewrite spacesThenRest_name; [| by destruct spaces | done | done | done].
  cbn. by rewrite ofRunes_runes.
Qed.

Lemma X8_language_marker_round_trip_witness :
  Regexp.languageMarker ("::" +:+ " " +:+ "pt-BR") = Some "pt-BR".
Proof. apply X8_language_marker_round_trip; [done | reflexivity | reflexivity | reflexivity]. Defined.

(** X9.  An abbreviation definition written as a star, the term in square
    brackets, a colon, white space and the definition reads back as the term
    and the definition, when the term is not empty and holds no closing
    bracket and the definition is not empty, does not start with white space
    and holds no newline. *)
Theorem X9_abbreviation_definition_round_trip (term spaces definition : string) :
  term ≠ "" →
  existsb (Ascii.eqb "]") (Str.runes term) = false →
  spaces ≠ "" →
  forallb Regexp.isSpace (Str.runes spaces) = true →
  match Str.runes definition with c :: _ => Regexp.isSpace c = false | [] => False end →
  existsb (Ascii.eqb Str.nl) (Str.runes definition) = false →
  Regexp.abbreviationDefinition ("*[" +:+ term +:+ "]:" +:+ spaces +:+ definition)
  = Some (term, definition).
Proof.
  intros Hterm Hbracket Hne Hws Hfirst Hnl. unfold Regexp.abbreviationDefinition.
  rewrite !runes_app. cbn [Str.runes list_ascii_of_string app Regexp.spanSpaces].
  change (Regexp.isSpace "*") with false. cbn [snd].
  change (Ascii.eqb "*" "*" && Ascii.eqb "[" "[") with true. cbn match.
  change (list_ascii_of_string term) with (Str.runes term).
  assert (Huntil : ∀ l rest, existsb (Ascii.eqb "]") l = false →
            Regexp.untilBracket (l ++ "]"%char :: rest) = Some (l, rest)).
  { intros l rest. induction l as [|c l IH]; [done |]. cbn [existsb app Regexp.untilBracket].
    intros [Hc Hl]%orb_false_elim. rewrite (Ascii.eqb_sym c "]"), Hc, (IH Hl). done. }
  rewrite Huntil by done.
  destruct term as [|c t]; [done |].
  change (Str.runes (String c t)) with (c :: Str.runes t).
  change (Ascii.eqb ":" ":") with true. cbn match.
  change (list_ascii_of_string spaces) with (Str.runes spaces).
  change (list_ascii_of_string definition) with (Str.runes definition).
  rewrite spacesThenRest_name; [| by destruct spaces | done | done | done].
  cbn [mbind option_bind].
  change (Str.ofRunes (c :: Str.runes t)) with (String c (Str.ofRunes (Str.runes t))).
  by rewrite !ofRunes_runes.
Qed.

Lemma X9_abbreviation_definition_round_trip_witness :
  Regexp.abbreviationDefinition ("*[" +:+ "API" +:+ "]:" +:+ " " +:+ "Application Programming Interface")
  = Some ("API", "Application Programming Interface").
Proof.
  apply X9_abbreviation_definition_round_trip;
    [done | reflexivity | done | reflexivity | reflexivity | reflexivity].
Defined.

Section Buckets.
Import Sectioner.

Lemma SplitOnLanguageMarkers_lookup (markdownRaw language : string) :
  is_Some ((SplitOnLanguageMarkers markdownRaw).2 !! language)
  ↔ Exists (λ line, Regexp.languageMarker line = Some language) (Str.Lines markdownRaw).
Proof.
  unfold SplitOnLanguageMarkers. cbn [snd]. split.
  - intros [text Htext]. by eapply splitLoop_bucket_origin.
  - intros Hex. destruct (last_marker_split _ _ Hex) as (pre & m & post & -> & Hm & Hpost).
    rewrite (splitLoop_last_marker _ _ _ _ _ Hm Hpost). eauto.
Qed.

End Buckets.

(** X10.  The languages of the result are exactly the languages that some
    line of the text names with a marker: no marker is lost, whatever the
    order or the repetitions, and no other key appears. *)
Theorem X10_buckets_are_the_marked_languages (markdownRaw language : string) :
  language ∈ dom (Sectioner.SplitOnLanguageMarkers markdownRaw).2
  ↔ ∃ line, line ∈ Str.Lines markdownRaw ∧ Regexp.languageMarker line = Some language.
Proof.
  rewrite elem_of_dom, SplitOnLanguageMarkers_lookup, Exists_exists. done.
Qed.

(** X11.  A text without any marker line goes to the preamble as a whole,
    with one newline added at its end, and the map of languages is empty. *)
Theorem X11_text_without_markers (markdownRaw : string) :
  Forall (λ line, Regexp.languageMarker line = None) (Str.Lines markdownRaw) →
  Sectioner.SplitOnLanguageMarkers markdownRaw = (markdownRaw +:+ Str.newline, ∅).
Proof.
  intros Hnone.
  rewrite (surjective_pairing (Sectioner.SplitOnLanguageMarkers markdownRaw)). f_equal.
  - unfold Sectioner.SplitOnLanguageMarkers. cbn [fst].
    rewrite splitLoop_before. cbn. rewrite unmarkedPrefix_all by done.
    apply joinLines_Lines.
  - apply map_eq. intros language. rewrite lookup_empty.
    apply eq_None_not_Some. rewrite SplitOnLanguageMarkers_lookup, Exists_exists.
    intros (line & Hin & Hline). rewrite Forall_forall in Hnone.
    rewrite (Hnone line Hin) in Hline. done.
Qed.

Lemma X11_text_without_markers_witness :
  Sectioner.SplitOnLanguageMarkers ("Hello" +:+ Str.newline +:+ "::not a marker")
  = (("Hello" +:+ Str.newline +:+ "::not a marker") +:+ Str.newline, ∅).
Proof. apply X11_text_without_markers. repeat constructor. Defined.

(** ** Blocks: identifiers and order *)

Section BlockOrder.
Import Markup.
Context (E : externals) (ids : nat → string).

(** One turn of the classification loop adds at most one block, and adds its
    identifier to the order exactly when it adds a block. *)
Lemma classify_adds st id paragraph :
  ∃ dP dM dL,
    b_paragraphs (classify E st id paragraph) = b_paragraphs st ++ dP
    ∧ b_mediae (classify E st id paragraph) = b_mediae st ++ dM
    ∧ b_links (classify E st id paragraph) = b_links st ++ dL
    ∧ b_order (classify E st id paragraph)
      = b_order st ++ (Paragraph.ID <$> dP) ++ (MediaEmbedDeclaration.ID <$> dM)
                   ++ (Link.ID <$> dL)
    ∧ sublist ((Paragraph.ID <$> dP) ++ (MediaEmbedDeclaration.ID <$> dM)
               ++ (Link.ID <$> dL)) [id].
Proof.
  unfold classify.
  repeat case_match; cbn [b_paragraphs b_mediae b_links b_order].
  all: first
    [ match goal with
      | |- context [b_mediae _ ++ [?m]] => exists [], [m], []
      | |- context [b_links _ ++ [?l]] => exists [], [], [l]
      | |- context [b_paragraphs _ ++ [?p]] => exists [p], [], []
      end; cbn; rewrite ?app_nil_r; by repeat split
    | exists [], [], []; cbn; rewrite ?app_nil_r; repeat split; apply sublist_nil_l ].
Qed.

Lemma classifyAll_adds n elements st :
  ∃ dP dM dL dO,
    b_paragraphs (classifyAll E ids n elements st) = b_paragraphs st ++ dP
    ∧ b_mediae (classifyAll E ids n elements st) = b_mediae st ++ dM
    ∧ b_links (classifyAll E ids n elements st) = b_links st ++ dL
    ∧ b_order (classifyAll E ids n elements st) = b_order st ++ dO
    ∧ dO ≡ₚ (Paragraph.ID <$> dP) ++ (MediaEmbedDeclaration.ID <$> dM) ++ (Link.ID <$> dL)
    ∧ sublist dO (ids <$> seq n (List.length elements)).
Proof.
  revert n st. induction elements as [|paragraph rest IH]; intros n st.
  - exists [], [], [], []. cbn. by rewrite !app_nil_r.
  - cbn [classifyAll].
    destruct (classify_adds st (ids n) paragraph)
      as (dP & dM & dL & HP & HM & HL & HO & Hsub).
    destruct (IH (S n) (classify E st (ids n) paragraph))
      as (dP' & dM' & dL' & dO' & HP' & HM' & HL' & HO' & Hperm & Hsub').
    exists (dP ++ dP'), (dM ++ dM'), (dL ++ dL'),
      (((Paragraph.ID <$> dP) ++ (MediaEmbedDeclaration.ID <$> dM) ++ (Link.ID <$> dL))
       ++ dO').
    rewrite HP', HM', HL', HO', HP, HM, HL, HO, <- !app_assoc.
    repeat split.
    + rewrite Hperm, !fmap_app. solve_Permutation.
    + cbn [List.length seq fmap list_fmap].
      change (ids n :: (ids <$> seq (S n) (List.length rest)))
        with ([ids n] ++ (ids <$> seq (S n) (List.length rest))).
      rewrite !app_assoc. apply sublist_app; [| done]. by rewrite <- !app_assoc.
Qed.

End BlockOrder.

(** X12.  The order sequence of a parsed language holds exactly the
    identifiers of its paragraphs, media embeds and links (abbreviation
    definitions and marker paragraphs add none), taken in document order
    from the identifiers drawn; when the identifiers drawn are distinct, no
    identifier occurs twice in it. *)
Theorem X12_order_lists_the_blocks (E : Markup.externals) (ids : nat → string)
    (htmlTree : Soup.Root) :
  let parsed := Markup.parseTree E ids htmlTree in
  let drawn := ids <$> seq 0 (List.length (Markup.paragraphLike htmlTree)) in
  Markup.order parsed
  ≡ₚ (Paragraph.ID <$> Markup.paragraphs parsed)
     ++ (MediaEmbedDeclaration.ID <$> Markup.mediae parsed)
     ++ (Link.ID <$> Markup.links parsed)
  ∧ sublist (Markup.order parsed) drawn
  ∧ (NoDup drawn → NoDup (Markup.order parsed)).
Proof.
  intros parsed drawn.
  destruct (classifyAll_adds E ids 0 (Markup.paragraphLike htmlTree)
              {| Markup.b_paragraphs := []; Markup.b_mediae := []; Markup.b_links := [];
                 Markup.b_abbreviations := ∅; Markup.b_order := [] |})
    as (dP & dM & dL & dO & HP & HM & HL & HO & Hperm & Hsub).
  cbn [Markup.b_paragraphs Markup.b_mediae Markup.b_links Markup.b_order app] in *.
  assert (Hfields : Markup.paragraphs parsed = dP ∧ Markup.mediae parsed = dM
                    ∧ Markup.links parsed = dL ∧ Markup.order parsed = dO).
  { subst parsed. unfold Markup.parseTree.
    destruct (Soup.Find "h1" htmlTree);
      cbn [Markup.paragraphs Markup.mediae Markup.links Markup.order]; by rewrite HP, HM, HL, HO. }
  destruct Hfields as (-> & -> & -> & ->).
  split; [done |]. split; [done |]. intros Hdrawn. by eapply sublist_NoDup.
Qed.

Lemma X12_order_lists_the_blocks_witness :
  NoDup (Markup.order
           (Markup.parseTree Sample.markup (Markup.idGenerator Sample.markup "")
              Sample.abbreviationTree)).
Proof.
  apply (X12_order_lists_the_blocks Sample.markup (Markup.idGenerator Sample.markup "")
           Sample.abbreviationTree).
  apply (bool_decide_unpack _). vm_compute. reflexivity.
Defined.

(** ** Abbreviations *)

(** X13.  ReplaceAbbreviations applies one abbreviation at most: every turn
    of its loop starts again from the content of the paragraph, so the
    result is the content with the abbreviation visited last replaced, the
    others left as they were; and the paragraph returned has lost its
    identifier and its anchor.  This is so when every term is made of word
    characters only, so that each compiles to a pattern that matches the
    term itself, and the definition visited last holds no [$], so that its
    replacement is inserted as it is. *)
Theorem X13_last_abbreviation_wins (paragraph : Paragraph.t)
    (abbreviations : list (string * string)) (name definition : string) :
  Forall (λ abbreviation, AbbrMatch.plainTerm abbreviation.1 = true)
    (abbreviations ++ [(name, definition)]) →
  AbbrMatch.plainTemplate definition = true →
  Abbr.ReplaceAbbreviations paragraph (abbreviations ++ [(name, definition)])
  = {| Paragraph.ID := ""; Paragraph.Index := 0; Paragraph.Anchor := "";
       Paragraph.Content :=
         Abbr.replaceWholeWord name (Abbr.annotation name definition)
           (Paragraph.Content paragraph) |}
  ∧ Abbr.ReplaceAbbreviations paragraph (abbreviations ++ [(name, definition)])
    = Abbr.ReplaceAbbreviations paragraph [(name, definition)].
Proof.
  intros _ _. unfold Abbr.ReplaceAbbreviations. by rewrite fold_left_app.
Qed.

Lemma X13_last_abbreviation_wins_witness :
  Abbr.ReplaceAbbreviations Sample.theParagraph
    ([("now", "at present")] ++ [("API", "Application Programming Interface")])
  = Abbr.ReplaceAbbreviations Sample.theParagraph
      [("API", "Application Programming Interface")].
Proof.
  apply (X13_last_abbreviation_wins Sample.theParagraph [("now", "at present")] "API"
           "Application Programming Interface").
  - repeat constructor.
  - reflexivity.
Defined.

Section WholeWords.
Import Abbr.

Lemma replaceFrom_no_match name repl prev text :
  AbbrMatch.matchesAnywhere name prev text = false →
  replaceFrom name repl 0 prev text = text.
Proof.
  revert prev. induction text as [|c rest IH]; intros prev; [done |].
  cbn [AbbrMatch.matchesAnywhere replaceFrom].
  intros [Hhere Hrest]%orb_false_elim. rewrite Hhere. by rewrite IH.
Qed.

End WholeWords.



(** ** The keys of the header *)

Section HeaderKeyLemmas.
Import Description.

Lemma prefix_space c s : String.prefix " " (String c s) = Ascii.eqb " " c.
Proof.
  change (String.prefix " " (String c s))
    with (if Ascii.ascii_dec " " c then String.prefix "" s else false).
  destruct (Ascii.ascii_dec " " c) as [<-|Hne].
  - by destruct s.
  - symmetry. by apply Ascii.eqb_neq.
Qed.

Lemma containsFrom_space fuel s :
  (String.length s <= fuel)%nat →
  Str.containsFrom fuel s " " = existsb (Ascii.eqb " ") (Str.runes s).
Proof.
  revert s. induction fuel as [|fuel IH]; intros [|c s] Hlen;
    try done; try (cbn in Hlen; lia).
  change (Str.containsFrom (S fuel) (String c s) " ")
    with (String.prefix " " (String c s) || Str.containsFrom fuel s " ").
  rewrite prefix_space. change (Str.runes (String c s)) with (c :: Str.runes s).
  cbn [existsb]. f_equal. apply IH. cbn in Hlen. lia.
Qed.

Lemma Contains_space s :
  Str.Contains s " " = existsb (Ascii.eqb " ") (Str.runes s).
Proof. by apply containsFrom_space. Qed.

Lemma underscored_no_space key : Str.Contains (underscored key) " " = false.
Proof.
  rewrite Contains_space. unfold underscored. rewrite runes_ofRunes.
  induction (Str.runes key) as [|c rs IH]; [done |].
  cbn [List.map existsb]. rewrite IH, orb_false_r.
  destruct (Ascii.eqb c " ") eqn:Hc; [done |].
  by rewrite Ascii.eqb_sym.
Qed.

Lemma underscored_without_space key :
  Str.Contains key " " = false → underscored key = key.
Proof.
  rewrite Contains_space. unfold underscored.
  rewrite <- (ofRunes_runes key) at 3.
  induction (Str.runes key) as [|c rs IH]; [done |].
  cbn [List.map existsb]. intros [Hc Hrs]%orb_false_elim.
  rewrite Ascii.eqb_sym in Hc. rewrite Hc.
  change (Str.ofRunes (c :: ?l)) with (String c (Str.ofRunes l)).
  f_equal. by apply IH.
Qed.

Local Abbreviation normalizeStep :=
  (λ (key : string) (value : yaml) (m : gmap string yaml),
     if Str.Contains key " " then delete key (<[underscored key := value]> m) else m).

(** The loop of ParseYAMLHeader after the entries [visited]: what is in the
    map comes from an entry of the header, under its own key when not yet
    visited and under its underscored key otherwise. *)
Lemma normalizeKeys_origin (header visited : gmap string yaml) :
  visited ⊆ header →
  ∀ key value, map_fold normalizeStep header visited !! key = Some value →
    ∃ origin, header !! origin = Some value
              ∧ ((visited !! origin = None ∧ key = origin)
                 ∨ (is_Some (visited !! origin) ∧ key = underscored origin)).
Proof.
  apply (map_fold_weak_ind (λ result visited,
           visited ⊆ header →
           ∀ key value, result !! key = Some value →
             ∃ origin, header !! origin = Some value
                       ∧ ((visited !! origin = None ∧ key = origin)
                          ∨ (is_Some (visited !! origin) ∧ key = underscored origin))));
    clear visited.
  - intros _ key value Hkey. exists key. split; [done |]. left. by rewrite lookup_empty.
  - intros i x visited result Hi IH Hsub.
    assert (Hx : header !! i = Some x).
    { eapply lookup_weaken; [|exact Hsub]. by rewrite lookup_insert_eq. }
    assert (Hsub' : visited ⊆ header).
    { etrans; [|exact Hsub]. by apply insert_subseteq. }
    specialize (IH Hsub'). intros key value.
    destruct (Str.Contains i " ") eqn:Hspace.
    + intros Hkey.
      destruct (decide (key = i)) as [->|Hne]; [by rewrite lookup_delete_eq in Hkey |].
      rewrite lookup_delete_ne in Hkey by done.
      destruct (decide (key = underscored i)) as [->|Hne'].
      * rewrite lookup_insert_eq in Hkey. exists i. split; [congruence |].
        right. by rewrite lookup_insert_eq.
      * rewrite lookup_insert_ne in Hkey by done.
        destruct (IH key value Hkey) as (origin & Horigin & Hcase).
        exists origin. split; [done |].
        destruct Hcase as [[Hnone ->]|[Hsome ->]].
        -- left. by rewrite lookup_insert_ne.
        -- right. split; [|done]. rewrite lookup_insert_ne; [done |].
           intros <-. rewrite Hi in Hsome. by destruct Hsome.
    + intros Hkey.
      destruct (IH key value Hkey) as (origin & Horigin & Hcase).
      exists origin. split; [done |].
      destruct Hcase as [[Hnone ->]|[Hsome ->]].
      * destruct (decide (origin = i)) as [->|Hne].
        -- right. rewrite lookup_insert_eq. split; [done |].
           by rewrite underscored_without_space.
        -- left. by rewrite lookup_insert_ne.
      * right. split; [|done]. rewrite lookup_insert_ne; [done |].
        intros <-. rewrite Hi in Hsome. by destruct Hsome.
Qed.

(** When no two keys of the header have the same underscored form: an entry
    not yet visited is where it was, a visited one is under its underscored
    key. *)
Lemma normalizeKeys_placed (header visited : gmap string yaml) :
  (∀ key key', is_Some (header !! key) → is_Some (header !! key') →
     underscored key = underscored key' → key = key') →
  visited ⊆ header →
  ∀ key value, header !! key = Some value →
    (visited !! key = None → map_fold normalizeStep header visited !! key = Some value)
    ∧ (is_Some (visited !! key) →
       map_fold normalizeStep header visited !! underscored key = Some value).
Proof.
  intros Hinj.
  apply (map_fold_weak_ind (λ result visited,
           visited ⊆ header →
           ∀ key value, header !! key = Some value →
             (visited !! key = None → result !! key = Some value)
             ∧ (is_Some (visited !! key) → result !! underscored key = Some value)));
    clear visited.
  - intros _ key value Hkey. split; [done |]. rewrite lookup_empty. by intros [? ?].
  - intros i x visited result Hi IH Hsub.
    assert (Hx : header !! i = Some x).
    { eapply lookup_weaken; [|exact Hsub]. by rewrite lookup_insert_eq. }
    assert (Hsub' : visited ⊆ header).
    { etrans; [|exact Hsub]. by apply insert_subseteq. }
    specialize (IH Hsub'). intros key value Hkey.
    destruct (IH key value Hkey) as [Hnot Hvis].
    destruct (Str.Contains i " ") eqn:Hspace.
    + assert (Hui : underscored i ≠ i).
      { intros Heq. pose proof (underscored_no_space i) as H. rewrite Heq in H. congruence. }
      destruct (decide (key = i)) as [->|Hne].
      * rewrite lookup_insert_eq. split; [done |]. intros _.
        rewrite lookup_delete_ne by done. rewrite lookup_insert_eq. congruence.
      * rewrite lookup_insert_ne by done. split.
        -- intros Hnone. rewrite lookup_delete_ne by done.
           rewrite lookup_insert_ne; [by apply Hnot |].
           intros Heq. apply Hne. apply Hinj; [by eexists | by eexists |].
           rewrite <- Heq. apply underscored_without_space.
           apply underscored_no_space.
        -- intros Hsome. rewrite lookup_delete_ne.
           ++ rewrite lookup_insert_ne; [by apply Hvis |].
              intros Heq. apply Hne. symmetry. apply Hinj; [by eexists | by eexists | done].
           ++ intros Heq. pose proof (underscored_no_space key) as H.
              rewrite <- Heq in H. congruence.
    + destruct (decide (key = i)) as [->|Hne].
      * rewrite lookup_insert_eq. split; [done |]. intros _.
        rewrite underscored_without_space by done. by apply Hnot.
      * by rewrite lookup_insert_ne.
Qed.

Lemma NoDup_fmap_inj {A B} (f : A → B) (l : list A) x y :
  NoDup (f <$> l) → x ∈ l → y ∈ l → f x = f y → x = y.
Proof.
  induction l as [|a l IH]; [by intros _ ?%elem_of_nil |].
  rewrite fmap_cons, NoDup_cons.
  intros [Hnotin Hnodup] [->|Hx]%elem_of_cons [->|Hy]%elem_of_cons Heq; try done.
  - exfalso. apply Hnotin. rewrite Heq. by apply list_elem_of_fmap_2.
  - exfalso. apply Hnotin. rewrite <- Heq. by apply list_elem_of_fmap_2.
  - by apply IH.
Qed.

End HeaderKeyLemmas.

(** X15.  After the keys of the header are normalised, no key contains a
    space: every entry of the map is an entry of the parsed header stored
    under its key with the spaces replaced by underscores. *)
Theorem X15_normalized_keys_have_no_space (header : gmap string yaml) :
  map_Forall (λ key value,
                Str.Contains key " " = false
                ∧ ∃ origin, header !! origin = Some value
                            ∧ key = Description.underscored origin)
    (Description.normalizeKeys header).
Proof.
  intros key value Hkey.
  destruct (normalizeKeys_origin header header (reflexivity _) key value Hkey)
    as (origin & Horigin & [[Hnone _]|[_ ->]]); [congruence |].
  split; [apply underscored_no_space | by exists origin].
Qed.

(** X16.  When no two keys of the header become the same key once their
    spaces are replaced, normalisation loses nothing: the normalised map
    holds a value under a key exactly when the header holds that value
    under a key whose underscored form it is. *)
Theorem X16_normalized_keys_keep_values (header : gmap string yaml)
    (key : string) (value : yaml) :
  NoDup (Description.underscored <$> (map_to_list header).*1) →
  Description.normalizeKeys header !! key = Some value
  ↔ ∃ origin, Description.underscored origin = key ∧ header !! origin = Some value.
Proof.
  intros Hnodup. split.
  - intros Hkey.
    destruct (normalizeKeys_origin header header (reflexivity _) key value Hkey)
      as (origin & Horigin & [[Hnone _]|[_ ->]]); [congruence |].
    by exists origin.
  - intros (origin & <- & Horigin).
    refine (proj2 (normalizeKeys_placed header header _ (reflexivity _) origin value Horigin) _);
      [|by eexists].
    intros k k' [v Hk] [v' Hk'].
    apply (NoDup_fmap_inj _ _ _ _ Hnodup).
    + apply list_elem_of_fmap. exists (k, v). split; [done |]. by apply elem_of_map_to_list.
    + apply list_elem_of_fmap. exists (k', v'). split; [done |]. by apply elem_of_map_to_list.
Qed.

Lemma X16_normalized_keys_keep_values_witness :
  Description.normalizeKeys
    {[ "made with" := yamlSequence [yamlScalar "go"]; "title" := yamlScalar "ortfo" ]}
  !! "made_with" = Some (yamlSequence [yamlScalar "go"]).
Proof.
  apply (X16_normalized_keys_keep_values
           {[ "made with" := yamlSequence [yamlScalar "go"]; "title" := yamlScalar "ortfo" ]}
           "made_with" (yamlSequence [yamlScalar "go"])).
  - apply (bool_decide_unpack _). vm_compute. reflexivity.
  - exists "made with". split; reflexivity.
Defined.

(** ** The languages of a description *)

Section Languages.
Import Description.

(** The six maps of a work have the same languages. *)
Local Abbreviation languagesAre work languages :=
  (dom (ParsedWork.Title work) = languages
   ∧ dom (ParsedWork.Paragraphs work) = languages
   ∧ dom (ParsedWork.MediaEmbedDeclarations work) = languages
   ∧ dom (ParsedWork.Links work) = languages
   ∧ dom (ParsedWork.Footnotes work) = languages
   ∧ dom (ParsedWork.ContentBlocksOrders work) = languages).

Lemma parseLanguage_languages X notLocalizedRaw localized blocks allLanguages work
    (languages : gset string) :
  languagesAre work languages →
  languagesAre (fold_left (parseLanguage X notLocalizedRaw localized blocks) allLanguages work)
    (list_to_set allLanguages ∪ languages).
Proof.
  revert work languages. induction allLanguages as [|language rest IH]; intros work languages H.
  - cbn [fold_left]. rewrite list_to_set_nil, (left_id_L ∅ (∪)). exact H.
  - cbn [fold_left]. rewrite list_to_set_cons.
    rewrite (comm_L (∪) {[language]}), <- (assoc_L (∪)).
    apply IH. destruct H as (H1 & H2 & H3 & H4 & H5 & H6).
    unfold parseLanguage. cbn.
    rewrite !dom_insert_L, H1, H2, H3, H4, H5, H6. done.
Qed.

End Languages.

(** X17.  A parsed description has the same languages in all its maps
    (titles, paragraphs, media, links, footnotes, block orders): the
    languages that have a marker line in the body, or the single language
    [default] when the body has no marker line. *)
Theorem X17_same_languages_in_every_map (X : Description.externals) (markdownRaw : string) :
  let work := Description.ParseDescription X markdownRaw in
  let buckets := (Sectioner.SplitOnLanguageMarkers (Description.ParseYAMLHeader X markdownRaw).2).2 in
  let languages : gset string := if decide (buckets = ∅) then {[ "default" ]} else dom buckets in
  dom (ParsedWork.Paragraphs work) = languages
  ∧ dom (ParsedWork.Title work) = languages
  ∧ dom (ParsedWork.MediaEmbedDeclarations work) = languages
  ∧ dom (ParsedWork.Links work) = languages
  ∧ dom (ParsedWork.Footnotes work) = languages
  ∧ dom (ParsedWork.ContentBlocksOrders work) = languages.
Proof.
  cbv zeta. unfold Description.ParseDescription.
  destruct (Description.ParseYAMLHeader X markdownRaw) as [metadata body]. cbn [snd].
  destruct (Sectioner.SplitOnLanguageMarkers body) as [notLocalizedRaw buckets]. cbn [snd].
  match goal with
  | |- context [fold_left ?f ?l ?w] =>
      pose proof (parseLanguage_languages X notLocalizedRaw
                    (negb (Nat.eqb (size buckets) 0)) buckets l w ∅) as H
  end.
  cbn [ParsedWork.Title ParsedWork.Paragraphs ParsedWork.MediaEmbedDeclarations
       ParsedWork.Links ParsedWork.Footnotes ParsedWork.ContentBlocksOrders] in H.
  rewrite !dom_empty_L in H. specialize (H (conj eq_refl (conj eq_refl (conj eq_refl
    (conj eq_refl (conj eq_refl eq_refl)))))).
  rewrite (right_id_L ∅ (∪)) in H.
  assert (Hlanguages :
    list_to_set (if negb (Nat.eqb (size buckets) 0)
                 then (map_to_list buckets).*1 else ["default"])
    = (if decide (buckets = ∅) then {[ "default" ]} else dom buckets : gset string)).
  { destruct (decide (buckets = ∅)) as [->|Hne].
    - rewrite map_size_empty. cbn. set_solver.
    - destruct (Nat.eqb_spec (size buckets) 0) as [Hsize|_].
      + by apply map_size_empty_iff in Hsize.
      + cbn [negb]. symmetry. apply leibniz_equiv. apply dom_alt. }
  rewrite Hlanguages in H. tauto.
Qed.

(** ** Content blocks *)

Section BlockLookup.
Import Orchestrator.

Lemma findInAll_Some {A} (P : A → bool) (perLanguage : gmap string (list A)) item :
  findInAll P perLanguage = Some item →
  P item = true
  ∧ ∃ language items, perLanguage !! language = Some items ∧ item ∈ items.
Proof.
  unfold findInAll. intros [Hin HP]%find_some. split; [done |].
  apply in_concat in Hin as (items & Hitems & Hitem).
  apply list_elem_of_In in Hitems, Hitem.
  apply list_elem_of_fmap in Hitems as ([language items'] & -> & Hentry).
  apply elem_of_map_to_list in Hentry. by exists language, items'.
Qed.

Lemma findInAll_None {A} (P : A → bool) (perLanguage : gmap string (list A)) :
  findInAll P perLanguage = None →
  ∀ language items item, perLanguage !! language = Some items → item ∈ items → P item = false.
Proof.
  unfold findInAll. intros Hnone language items item Hlang Hitem.
  apply (find_none _ _ Hnone). apply in_concat.
  exists items. split; [|by apply list_elem_of_In]. apply list_elem_of_In.
  apply list_elem_of_fmap. exists (language, items).
  split; [done |]. by apply elem_of_map_to_list.
Qed.

Lemma findInAll_holds {A} (getID : A → string) id (perLanguage : gmap string (list A)) :
  match findInAll (λ item, String.eqb (getID item) id) perLanguage with
  | Some item =>
      getID item = id
      ∧ ∃ language items, perLanguage !! language = Some items ∧ item ∈ items
  | None => ¬ Blocks.holds getID id perLanguage
  end.
Proof.
  destruct (findInAll _ perLanguage) as [item|] eqn:Hfind.
  - apply findInAll_Some in Hfind as [Hid Hin]. by apply String.eqb_eq in Hid.
  - intros (language & items & item & Hlang & Hitem & Hid).
    pose proof (findInAll_None _ _ Hfind language items item Hlang Hitem) as Hne.
    cbv beta in Hne. apply String.eqb_neq in Hne. done.
Qed.

End BlockLookup.

(** X18.  ContentBlockByID finds a block exactly when a paragraph, a media
    or a link of some language has the identifier, looking among the
    paragraphs first, then the mediae, then the links.  The block found is
    that element under its type, and its ID method gives the identifier
    back; the block returned when nothing is found has no type, so that its
    ID method panics. *)
Theorem X18_content_block_by_id (id : string)
    (paragraphs : gmap string (list Paragraph.t))
    (mediae : gmap string (list Orchestrator.Media.t))
    (links : gmap string (list Link.t)) :
  let found := Orchestrator.ContentBlockByID id paragraphs mediae links in
  let block := found.1 in
  (found.2 = true
   ↔ Blocks.holds Paragraph.ID id paragraphs ∨ Blocks.holds Orchestrator.Media.ID id mediae
     ∨ Blocks.holds Link.ID id links)
  ∧ (if found.2 then
       Blocks.ID block = Some id
       ∧ ((Blocks.AsParagraph block ≠ None
           ∧ ∃ language items, paragraphs !! language = Some items
                               ∧ Orchestrator.ContentBlock.Paragraph block ∈ items)
          ∨ (Blocks.AsMedia block ≠ None
             ∧ ¬ Blocks.holds Paragraph.ID id paragraphs
             ∧ ∃ language items, mediae !! language = Some items
                                 ∧ Orchestrator.ContentBlock.Media block ∈ items)
          ∨ (Blocks.AsLink block ≠ None
             ∧ ¬ Blocks.holds Paragraph.ID id paragraphs
             ∧ ¬ Blocks.holds Orchestrator.Media.ID id mediae
             ∧ ∃ language items, links !! language = Some items
                                 ∧ Orchestrator.ContentBlock.Link block ∈ items))
     else Blocks.ID block = None).
Proof.
  cbv zeta. unfold Orchestrator.ContentBlockByID.
  pose proof (findInAll_holds Paragraph.ID id paragraphs) as Hp.
  pose proof (findInAll_holds Orchestrator.Media.ID id mediae) as Hm.
  pose proof (findInAll_holds Link.ID id links) as Hl.
  destruct (Orchestrator.findInAll _ paragraphs) as [paragraph|].
  { destruct Hp as [Hid Hin]. cbn. split; [|split].
    - split; [intros _ | done]. left. destruct Hin as (language & items & ? & ?).
      by exists language, items, paragraph.
    - unfold Blocks.ID. cbn. by rewrite Hid.
    - left. by split. }
  destruct (Orchestrator.findInAll _ mediae) as [media|].
  { destruct Hm as [Hid Hin]. cbn. split; [|split].
    - split; [intros _ | done]. right. left. destruct Hin as (language & items & ? & ?).
      by exists language, items, media.
    - unfold Blocks.ID. cbn. by rewrite Hid.
    - right. left. by split. }
  destruct (Orchestrator.findInAll _ links) as [link|].
  { destruct Hl as [Hid Hin]. cbn. split; [|split].
    - split; [intros _ | done]. right. right. destruct Hin as (language & items & ? & ?).
      by exists language, items, link.
    - unfold Blocks.ID. cbn. by rewrite Hid.
    - right. right. by split. }
  cbn. split; [|done]. split; [done |]. tauto.
Qed.

Section Assembling.
Import Orchestrator.

Lemma ContentBlockByID_ID id paragraphs mediae links block :
  ContentBlockByID id paragraphs mediae links = (block, true) → Blocks.ID block = Some id.
Proof.
  unfold ContentBlockByID.
  pose proof (findInAll_holds Paragraph.ID id paragraphs) as Hp.
  pose proof (findInAll_holds Media.ID id mediae) as Hm.
  pose proof (findInAll_holds Link.ID id links) as Hl.
  destruct (findInAll _ paragraphs) as [paragraph|];
    [destruct Hp as [<- _]; by intros [= <-] |].
  destruct (findInAll _ mediae) as [media|];
    [destruct Hm as [<- _]; by intros [= <-] |].
  destruct (findInAll _ links) as [link|];
    [destruct Hl as [<- _]; by intros [= <-] |].
  done.
Qed.

Local Abbreviation found description analyzedMediae :=
  (λ blockID : string,
     (ContentBlockByID blockID (ParsedWork.Paragraphs description) analyzedMediae
        (ParsedWork.Links description)).2).

Local Abbreviation notFound :=
  (λ blockID : string, OS.Error ("Could not find block with ID " +:+ blockID)).

Lemma assembleBlocks_loop description analyzedMediae order w blocks :
  ∃ w' added,
    fold_left (λ '(w, blocks) blockID,
                 match ContentBlockByID blockID (ParsedWork.Paragraphs description)
                         analyzedMediae (ParsedWork.Links description) with
                 | (block, true) => (w, blocks ++ [block])
                 | (_, false) => (LogError ("Could not find block with ID " +:+ blockID) w, blocks)
                 end)
      order (w, blocks) = (w', blocks ++ added)
    ∧ Blocks.ID <$> added = Some <$> List.filter (found description analyzedMediae) order
    ∧ OS.log w' = OS.log w
                  ++ (notFound <$> List.filter (λ blockID,
                                      negb (found description analyzedMediae blockID)) order)
    ∧ OS.files w' = OS.files w ∧ OS.directories w' = OS.directories w
    ∧ OS.stdout w' = OS.stdout w.
Proof.
  revert w blocks. induction order as [|blockID order IH]; intros w blocks.
  - exists w, []. cbn. by rewrite !app_nil_r.
  - cbn [fold_left List.filter].
    destruct (ContentBlockByID blockID _ _ _) as [block ok] eqn:Hfound. cbn [snd].
    destruct ok; cbn [negb].
    + destruct (IH w (blocks ++ [block])) as (w' & added & -> & Hids & Hlog & Hrest).
      exists w', (block :: added). split; [by rewrite <- app_assoc |].
      split; [|done]. rewrite !fmap_cons, Hids. f_equal.
      by apply ContentBlockByID_ID in Hfound.
    + destruct (IH (LogError ("Could not find block with ID " +:+ blockID) w) blocks)
        as (w' & added & -> & Hids & Hlog & Hrest).
      exists w', added. split; [done |]. split; [done |].
      split; [|done]. rewrite Hlog. cbn. by rewrite <- app_assoc.
Qed.

End Assembling.


(** ** The build lock, again *)



(** ** The works of a build *)

Section Works.
Import Orchestrator.
Context (X : externals).

(** What Build returns is the work under its identifier, or the zero work
    with an error; the previous database is left as it was. *)
Lemma Build_result databaseDirectory outputFilename workID ctx w :
  let built := Build X databaseDirectory outputFilename workID ctx w in
  PreviousBuiltDatabase built.1.2 = PreviousBuiltDatabase ctx
  ∧ match built.2.2 with
    | None => AnalyzedWork.ID built.2.1 = workID
    | Some _ => built.2.1 = AnalyzedWork.zero
    end.
Proof.
  cbv zeta. unfold Build. destruct (OS.ReadFile _ w) as [raw|err]; [| done].
  destruct (handleAllMediae X workID _ w) as [w1 analyzedMediae].
  by destruct (localize X workID _ analyzedMediae _ ∅ w1) as [w2 [localized|err]].
Qed.

(** An entry of the database: the work of that name, or the zero work that
    a failed build leaves. *)
Local Abbreviation entry :=
  (λ (name : string) (work : AnalyzedWork.t),
     AnalyzedWork.ID work = name ∨ work = AnalyzedWork.zero).

(** An entry of the database that Build returned for the work of that
    name. *)
Local Abbreviation built databaseDirectory outputFilename :=
  (λ (name : string) (work : AnalyzedWork.t),
     ∃ ctx w, work = (Build X databaseDirectory outputFilename name ctx w).2.1).

Lemma buildWorks_all databaseDirectory outputFilename workDirectories works ctx w :
  ∃ w' ctx' works',
    buildWorks X "*" databaseDirectory outputFilename workDirectories works ctx w
    = (w', ctx', inl works')
    ∧ dom works' = dom works ∪ list_to_set (OS.Name <$> workDirectories)
    ∧ (map_Forall (built databaseDirectory outputFilename) works →
       map_Forall (built databaseDirectory outputFilename) works').
Proof.
  revert works ctx w.
  induction workDirectories as [|dirEntry rest IH]; intros works ctx w.
  - exists w, ctx, works. cbn. split; [done |]. split; [|done].
    by rewrite (right_id_L ∅ (∪)).
  - cbn [buildWorks].
    destruct (FindWork X (PreviousBuiltDatabase ctx) (OS.Name dirEntry))
      as [presentBefore oldWork].
    change (String.eqb "*" "*") with true. cbv iota.
    destruct (Build X databaseDirectory outputFilename (OS.Name dirEntry) ctx w)
      as [[w1 ctx1] [newWork err]] eqn:Hbuilt.
    match goal with
    | |- context [buildWorks X "*" _ _ rest ?works1 ctx1 ?w2] =>
        destruct (IH works1 ctx1 w2) as (w' & ctx' & works' & -> & Hdom & Hentries)
    end.
    exists w', ctx', works'. split; [done |]. split.
    + unfold Works in *. rewrite Hdom, dom_insert_L, fmap_cons, list_to_set_cons.
      rewrite (comm_L (∪) {[OS.Name dirEntry]} (dom works)).
      by rewrite (assoc_L (∪)).
    + intros Hworks. apply Hentries. apply map_Forall_insert_2; [|done].
      exists ctx, w. by rewrite Hbuilt.
Qed.

Lemma buildWorks_selection include databaseDirectory outputFilename workDirectories :
  include ≠ "*" →
  NoDup (OS.Name <$> workDirectories) →
  ∀ works ctx w w' ctx' works',
    buildWorks X include databaseDirectory outputFilename workDirectories works ctx w
    = (w', ctx', inl works') →
    PreviousBuiltDatabase ctx' = PreviousBuiltDatabase ctx
    ∧ (∀ name, (name ∉ OS.Name <$> workDirectories) → works' !! name = works !! name)
    ∧ ∀ dirEntry, dirEntry ∈ workDirectories →
        match Match X include (OS.Name dirEntry) with
        | inl true =>
            ∃ work, works' !! OS.Name dirEntry = Some work ∧ entry (OS.Name dirEntry) work
        | inl false =>
            works' !! OS.Name dirEntry
            = if (FindWork X (PreviousBuiltDatabase ctx) (OS.Name dirEntry)).1
              then Some (FindWork X (PreviousBuiltDatabase ctx) (OS.Name dirEntry)).2
              else works !! OS.Name dirEntry
        | inr _ => False
        end.
Proof.
  intros Hinclude%String.eqb_neq.
  induction workDirectories as [|dirEntry rest IH];
    intros Hnodup works ctx w w' ctx' works' Hrun.
  - cbn in Hrun. injection Hrun as <- <- <-. split; [done |]. split; [done |].
    by intros ? ?%elem_of_nil.
  - rewrite fmap_cons in Hnodup. apply NoDup_cons in Hnodup as [Hfresh Hnodup].
    cbn [buildWorks] in Hrun. rewrite Hinclude in Hrun. unfold Works in *.
    destruct (FindWork X (PreviousBuiltDatabase ctx) (OS.Name dirEntry))
      as [presentBefore oldWork] eqn:Hfind.
    destruct (Match X include (OS.Name dirEntry)) as [[|]|err] eqn:Hmatch; [| |done].
    + pose proof (Build_result databaseDirectory outputFilename (OS.Name dirEntry) ctx w)
        as [Hprevious Hbuilt].
      destruct (Build X databaseDirectory outputFilename (OS.Name dirEntry) ctx w)
        as [[w1 ctx1] [newWork err]]. cbn [fst snd] in Hprevious, Hbuilt.
      destruct (IH Hnodup _ _ _ _ _ _ Hrun) as (Hctx & Hothers & Hentries).
      rewrite Hprevious in Hctx, Hentries. split; [done |]. split.
      * intros name Hname. rewrite fmap_cons in Hname.
        apply not_elem_of_cons in Hname as [Hne Hname].
        rewrite (Hothers name Hname). by apply lookup_insert_ne.
      * intros d [->|Hd]%elem_of_cons.
        -- rewrite Hmatch, (Hothers _ Hfresh), lookup_insert_eq.
           eexists. split; [done |]. destruct err; [by right | by left].
        -- specialize (Hentries d Hd).
           destruct (Match X include (OS.Name d)) as [[|]|?]; [done | | done].
           rewrite Hentries. destruct (FindWork X _ (OS.Name d)).1; [done |].
           apply lookup_insert_ne. intros Heq. apply Hfresh. rewrite Heq.
           by apply list_elem_of_fmap_2.
    + destruct presentBefore.
      * destruct (IH Hnodup _ _ _ _ _ _ Hrun) as (Hctx & Hothers & Hentries).
        split; [done |]. split.
        -- intros name Hname. rewrite fmap_cons in Hname.
           apply not_elem_of_cons in Hname as [Hne Hname].
           rewrite (Hothers name Hname). by apply lookup_insert_ne.
        -- intros d [->|Hd]%elem_of_cons.
           ++ rewrite Hmatch, Hfind, (Hothers _ Hfresh). cbn. apply lookup_insert_eq.
           ++ specialize (Hentries d Hd).
              destruct (Match X include (OS.Name d)) as [[|]|?]; [done | | done].
              rewrite Hentries. destruct (FindWork X _ (OS.Name d)).1; [done |].
              apply lookup_insert_ne. intros Heq. apply Hfresh. rewrite Heq.
              by apply list_elem_of_fmap_2.
      * destruct (IH Hnodup _ _ _ _ _ _ Hrun) as (Hctx & Hothers & Hentries).
        split; [done |]. split.
        -- intros name Hname. rewrite fmap_cons in Hname.
           apply not_elem_of_cons in Hname as [Hne Hname]. by apply Hothers.
        -- intros d [->|Hd]%elem_of_cons; [|by apply Hentries].
           rewrite Hmatch, Hfind. cbn. by apply Hothers.
Qed.

End Works.

Section Preparation.
Import Orchestrator.
Context (X : externals).

Lemma PrepareBuild_DatabaseDirectory databaseDirectory outputFilename flags config w :
  DatabaseDirectory (PrepareBuild X databaseDirectory outputFilename flags config w).1.2
  = databaseDirectory.
Proof.
  unfold PrepareBuild.
  destruct (OS.ReadFile outputFilename w) as [raw|err];
    [destruct (unmarshalWorks X raw) as [works|err] |];
    (match goal with
     | |- context [OS.ReadFile (BuildMetadataFilepath config) ?w1] =>
         destruct (OS.ReadFile (BuildMetadataFilepath config) w1) as [raw'|err'];
         [destruct (unmarshalBuildMetadata X raw') as [metadata|err'] |]
     end);
    (match goal with
     | |- context [OS.MkdirAll (Dir X) (MediaAt config) ?w2] =>
         destruct (OS.MkdirAll (Dir X) (MediaAt config) w2) as [w3 [err3|]]; [done |];
         by destruct (AcquireBuildLock X outputFilename w3) as [w4 [err4|]]
     end).
Qed.

End Preparation.



(** X22.  In a build restricted by a pattern, a work directory that the
    pattern leaves out is not built: its entry in the new database is the
    one of the previous database when FindWork finds one there, and it has
    no entry otherwise. *)
Theorem X22_excluded_works_are_carried_over (X : Orchestrator.externals)
    (include databaseDirectory outputFilename : string) (workDirectories : list OS.DirEntry)
    (ctx ctx' : Orchestrator.RunContext) (w w' : OS.World) (works : Orchestrator.Works)
    (dirEntry : OS.DirEntry) :
  include ≠ "*" →
  NoDup (OS.Name <$> workDirectories) →
  Orchestrator.buildWorks X include databaseDirectory outputFilename workDirectories ∅ ctx w
  = (w', ctx', inl works) →
  dirEntry ∈ workDirectories →
  Orchestrator.Match X include (OS.Name dirEntry) = inl false →
  works !! OS.Name dirEntry
  = if (Orchestrator.FindWork X (Orchestrator.PreviousBuiltDatabase ctx) (OS.Name dirEntry)).1
    then Some (Orchestrator.FindWork X (Orchestrator.PreviousBuiltDatabase ctx)
                 (OS.Name dirEntry)).2
    else None.
Proof.
  intros Hinclude Hnodup Hrun Hin Hmatch.
  destruct (buildWorks_selection X include databaseDirectory outputFilename workDirectories
              Hinclude Hnodup _ _ _ _ _ _ Hrun) as (_ & _ & Hentries).
  specialize (Hentries dirEntry Hin). rewrite Hmatch in Hentries.
  unfold Orchestrator.Works in *. by rewrite lookup_empty in Hentries.
Qed.

Lemma X22_excluded_works_are_carried_over_witness :
  ({[ "work" := {| Orchestrator.AnalyzedWork.ID := "work";
                   Orchestrator.AnalyzedWork.Metadata := WorkMetadata.zero;
                   Orchestrator.AnalyzedWork.Localized := ∅ |} ]} : Orchestrator.Works)
  !! "work"
  = Some {| Orchestrator.AnalyzedWork.ID := "work";
            Orchestrator.AnalyzedWork.Metadata := WorkMetadata.zero;
            Orchestrator.AnalyzedWork.Localized := ∅ |}.
Proof.
  apply (X22_excluded_works_are_carried_over (Sample.orchestrator None) "other" "db"
           "out/database.json" [{| OS.Name := "work"; OS.IsDir := true |}]
           (Orchestrator.withPreviousBuiltDatabase
              [{| Orchestrator.AnalyzedWork.ID := "work";
                  Orchestrator.AnalyzedWork.Metadata := WorkMetadata.zero;
                  Orchestrator.AnalyzedWork.Localized := ∅ |}] Sample.context)
           (Orchestrator.withPreviousBuiltDatabase
              [{| Orchestrator.AnalyzedWork.ID := "work";
                  Orchestrator.AnalyzedWork.Metadata := WorkMetadata.zero;
                  Orchestrator.AnalyzedWork.Localized := ∅ |}] Sample.context)
           Sample.readyWorld Sample.readyWorld _
           {| OS.Name := "work"; OS.IsDir := true |}).
  - done.
  - apply (bool_decide_unpack _). vm_compute. reflexivity.
  - vm_compute. reflexivity.
  - constructor.
  - reflexivity.
Defined.

(** ** A built work *)

Section Localizing.
Import Orchestrator.
Context (X : externals).

Lemma localize_shape workID description analyzedMediae langs localizedContent w :
  match (localize X workID description analyzedMediae langs localizedContent w).2 with
  | inl result =>
      dom result = dom localizedContent ∪ list_to_set langs
      ∧ (map_Forall (BuiltWork.localizes X description analyzedMediae) localizedContent →
         map_Forall (BuiltWork.localizes X description analyzedMediae) result)
  | inr err =>
      ∃ lang cause,
        lang ∈ langs
        ∧ resolveLayoutOf X description lang = inr cause
        ∧ err = wrapError ("while resolving " +:+ lang +:+ " layout of " +:+ workID) cause
  end.
Proof.
  revert localizedContent w. induction langs as [|lang langs IH]; intros localizedContent w.
  - cbn. split; [|done]. by rewrite (right_id_L ∅ (∪)).
  - cbn [localize]. destruct (resolveLayoutOf X description lang) as [layout|cause] eqn:Hlayout.
    + pose proof (assembleBlocks_loop description analyzedMediae
                    (default [] (ParsedWork.ContentBlocksOrders description !! lang)) w [])
        as (w1 & blocks & Hblocks & Hids & _).
      unfold assembleBlocks. rewrite Hblocks. cbn [app].
      match goal with
      | |- context [localize X workID description analyzedMediae langs ?acc w1] =>
          specialize (IH acc w1);
          destruct (localize X workID description analyzedMediae langs acc w1)
            as [w2 [result|err]]
      end; cbn [snd] in *.
      * destruct IH as [Hdom Hall]. split.
        -- rewrite Hdom, dom_insert_L, list_to_set_cons.
           rewrite (comm_L (∪) {[lang]} (dom localizedContent)).
           by rewrite (assoc_L (∪)).
        -- intros Hacc. apply Hall. apply map_Forall_insert_2; [|done].
           by repeat split.
      * destruct IH as (lang' & cause & Hin & Hcause & ->).
        exists lang', cause. split; [by right | done].
    + cbn. exists lang, cause. split; [by left | done].
Qed.

Lemma WriteFile_clock parent path content w :
  OS.clock (OS.WriteFile parent path content w).1 = OS.clock w.
Proof.
  unfold OS.WriteFile.
  by destruct (OS.directories w !! path), (OS.directories w !! parent path),
       (OS.files w !! parent path).
Qed.

Lemma MkdirAll_clock parent path w :
  OS.clock (OS.MkdirAll parent path w).1 = OS.clock w.
Proof.
  unfold OS.MkdirAll.
  by destruct (OS.missingDirectories parent (String.length path) path w) as [[|? ?]|?].
Qed.

Lemma WriteBuildMetadata_clock ctx w :
  OS.clock (WriteBuildMetadata X ctx w).1 = OS.clock w.
Proof.
  unfold WriteBuildMetadata.
  destruct (OS.Stat _ w); [| |done];
    destruct (marshalBuildMetadata X _); cbn [fst];
    by rewrite ?WriteFile_clock, ?MkdirAll_clock.
Qed.

End Localizing.



(** X24.  Build fails in two cases only: the description file cannot be
    read, and the error is the one of the read; or the layout of one of the
    languages of the description does not resolve, and the error names the
    language and the work.  In both cases the work returned is the zero
    work.  A media that cannot be handled or a block that cannot be found
    never fails the build. *)
Theorem X24_build_failures (X : Orchestrator.externals)
    (databaseDirectory outputFilename workID : string)
    (ctx : Orchestrator.RunContext) (w : OS.World) (err : error) :
  let built := Orchestrator.Build X databaseDirectory outputFilename workID ctx w in
  let descriptionFilename :=
    Orchestrator.descriptionFilenameOf X ctx [databaseDirectory; workID] in
  built.2.2 = Some err →
  built.2.1 = Orchestrator.AnalyzedWork.zero
  ∧ (OS.ReadFile descriptionFilename w = inr err
     ∨ ∃ descriptionRaw lang cause,
         OS.ReadFile descriptionFilename w = inl descriptionRaw
         ∧ lang ∈ dom (ParsedWork.Paragraphs
                         (Description.ParseDescription (Orchestrator.description X)
                            descriptionRaw))
         ∧ Orchestrator.resolveLayoutOf X
             (Description.ParseDescription (Orchestrator.description X) descriptionRaw) lang
           = inr cause
         ∧ err = wrapError ("while resolving " +:+ lang +:+ " layout of " +:+ workID) cause).
Proof.
  cbv zeta. unfold Orchestrator.Build.
  destruct (OS.ReadFile _ w) as [descriptionRaw|readError];
    [| cbn; intros [= ->]; split; [done | by left]].
  destruct (Orchestrator.handleAllMediae X workID _ w) as [w1 analyzedMediae].
  match goal with
  | |- context [Orchestrator.localize X workID ?d analyzedMediae ?l ∅ w1] =>
      pose proof (localize_shape X workID d analyzedMediae l ∅ w1) as Hshape;
      destruct (Orchestrator.localize X workID d analyzedMediae l ∅ w1)
        as [w2 [localized|err']]
  end; cbn [fst snd] in *; [done |].
  intros [= ->]. split; [done |]. right.
  destruct Hshape as (lang & cause & Hin & Hcause & ->).
  exists descriptionRaw, lang, cause. split; [done |]. split; [|done].
  apply (dom_alt (D := gset string)). by apply elem_of_list_to_set.
Qed.

Lemma X24_build_failures_witness :
  (Orchestrator.Build (Sample.orchestrator None) "db" "out/database.json" "broken"
     Sample.context Sample.brokenWorld).2.1
  = Orchestrator.AnalyzedWork.zero.
Proof.
  apply (X24_build_failures (Sample.orchestrator None) "db" "out/database.json" "broken"
           Sample.context Sample.brokenWorld
           (errorString "read db/broken/description.md: is a directory")).
  vm_compute. reflexivity.
Defined.

(** ** Failures of the media analysis *)

Section AnalysisFailures.
Import Analysis AnalysisFailure.
Context (E : externals) (ctx : context).

(** Every file of the by-source map was probed with success. *)
Local Abbreviation probed st :=
  (∀ filename m, analyzedMediaeBySource st !! filename = Some m →
     ∃ f, probe E filename = inl f).

Lemma analyzeMedia_failure dir language st media :
  probed st →
  match analyzeMedia E ctx dir language st media with
  | inr err => failing E dir media = true ∧ probe E (resolve E dir media) = inr err
  | inl st' => failing E dir media = false ∧ probed st'
  end.
Proof.
  intros Hprobed. unfold analyzeMedia, failing.
  destruct (isValidURL E _); [by split |]. cbn [negb andb].
  destruct (analyzedMediaeBySource st !! resolve E dir media) as [m|] eqn:Hknown.
  - destruct (Hprobed _ _ Hknown) as [f ->]. by split.
  - unfold AnalyzeMediaFile. destruct (probe E (resolve E dir media)) as [f|err] eqn:Hprobe;
      [|by split].
    split; [done |]. cbn [analyzedMediaeBySource appendMedia]. intros filename m.
    destruct (decide (filename = resolve E dir media)) as [->|Hne].
    + intros _. by exists f.
    + rewrite lookup_insert_ne by done. apply Hprobed.
Qed.

Lemma find_failing_app dir (l1 l2 : list MediaEmbedDeclaration.t) :
  List.find (failing E dir) l1 = None →
  firstFailure E dir (l1 ++ l2) = firstFailure E dir l2.
Proof.
  unfold firstFailure. induction l1 as [|media l1 IH]; [done |].
  cbn [List.find app]. destruct (failing E dir media); [done |]. exact IH.
Qed.

Lemma analyzeMediae_failure dir language mediae rest st :
  probed st →
  match analyzeMediae E ctx dir language mediae st with
  | inr err => firstFailure E dir (mediae ++ rest) = Some err
  | inl st' => probed st' ∧ List.find (failing E dir) mediae = None
  end.
Proof.
  revert st. induction mediae as [|media mediae IH]; intros st Hprobed; [done |].
  cbn [analyzeMediae].
  pose proof (analyzeMedia_failure dir language st media Hprobed) as Hstep.
  destruct (analyzeMedia E ctx dir language st media) as [st'|err].
  - destruct Hstep as [Hfailing Hprobed']. specialize (IH st' Hprobed').
    destruct (analyzeMediae E ctx dir language mediae st') as [st''|err].
    + destruct IH as [Hprobed'' Hnone]. split; [done |]. cbn [List.find].
      by rewrite Hfailing.
    + unfold firstFailure in *. cbn [List.find app]. by rewrite Hfailing.
  - destruct Hstep as [Hfailing Hprobe]. unfold firstFailure. cbn [List.find app].
    by rewrite Hfailing, Hprobe.
Qed.

Lemma analyzeLanguages_failure dir embedDeclarations st :
  probed st →
  match analyzeLanguages E ctx dir embedDeclarations st with
  | inr err => firstFailure E dir (visited embedDeclarations) = Some err
  | inl st' => firstFailure E dir (visited embedDeclarations) = None
  end.
Proof.
  revert st. induction embedDeclarations as [|[language mediae] rest IH]; intros st Hprobed;
    [done |].
  cbn [analyzeLanguages]. unfold visited. rewrite fmap_cons. cbn [concat snd].
  match goal with
  | |- context [analyzeMediae E ctx dir language mediae ?st0] =>
      pose proof (analyzeMediae_failure dir language mediae (concat rest.*2) st0 Hprobed)
        as Hinner;
      destruct (analyzeMediae E ctx dir language mediae st0) as [st'|err]
  end; [|done].
  destruct Hinner as [Hprobed' Hnone]. rewrite (find_failing_app _ _ _ Hnone).
  apply (IH st' Hprobed').
Qed.

End AnalysisFailures.

(** X25.  AnalyzeAllMediae fails exactly when the probe of a local file of
    some declaration fails: its error is the error of the first such
    declaration in visiting order, and the map it returns is then empty.
    Declarations whose source is a URL never make it fail. *)
Theorem X25_analysis_fails_on_first_bad_file (E : Analysis.externals) (ctx : Analysis.context)
    (embedDeclarations : list (string * list MediaEmbedDeclaration.t))
    (currentDirectory : string) :
  let analyzed := Analysis.AnalyzeAllMediae E ctx embedDeclarations currentDirectory in
  analyzed.2
  = AnalysisFailure.firstFailure E (Analysis.mediaDirectory E ctx currentDirectory)
      (Analysis.visited embedDeclarations)
  ∧ (analyzed.2 = None ∨ analyzed.1 = ∅).
Proof.
  cbv zeta. unfold Analysis.AnalyzeAllMediae, Analysis.run.
  match goal with
  | |- context [Analysis.analyzeLanguages E ctx ?dir embedDeclarations ?st] =>
      pose proof (analyzeLanguages_failure E ctx dir embedDeclarations st) as H;
      destruct (Analysis.analyzeLanguages E ctx dir embedDeclarations st) as [st'|err]
  end; cbn [fst snd].
  - split; [|by left]. symmetry. apply H. intros filename m. cbn [Analysis.analyzedMediaeBySource]. by rewrite lookup_empty.
  - split; [|by right]. symmetry. apply H. intros filename m. cbn [Analysis.analyzedMediaeBySource]. by rewrite lookup_empty.
Qed.

(** ** Back to a parsed work *)

(** X26.  AnalyzedWork.Parsed returns only for a work without languages,
    and what it returns then is the metadata of the work with all maps
    nil: its result starts with nil maps, so that for a work with a
    language the first assignment of the loop panics. *)
Theorem X26_parsed_needs_no_language
    (EmbedDeclaration : Orchestrator.Media.t → MediaEmbedDeclaration.t)
    (w : Orchestrator.AnalyzedWork.t) :
  Unanalyzed.Parsed EmbedDeclaration w
  = if decide (Orchestrator.AnalyzedWork.Localized w = ∅)
    then Some (Unanalyzed.withMetadata (Orchestrator.AnalyzedWork.Metadata w)
                 Unanalyzed.zero)
    else None.
Proof.
  unfold Unanalyzed.Parsed.
  destruct (map_to_list (Orchestrator.AnalyzedWork.Localized w))
    as [|[language localized] entries] eqn:Hentries.
  - apply map_to_list_empty_iff in Hentries. by rewrite decide_True.
  - rewrite decide_False; [done |]. intros Hempty.
    by rewrite Hempty, map_to_list_empty in Hentries.
Qed.

(** ** The mediae of a work *)

Section HandlingMediae.
Import Orchestrator Handled.
Context (X : externals).

Lemma grows_refl w : grows w w.
Proof. exists []. by rewrite app_nil_r. Qed.

Lemma grows_trans w1 w2 w3 : grows w1 w2 → grows w2 w3 → grows w1 w3.
Proof.
  intros [l1 H1] [l2 H2]. exists (l1 ++ l2). by rewrite H2, H1, <- app_assoc.
Qed.

Lemma grows_LogError message w : grows w (LogError message w).
Proof. by exists [OS.Error message]. Qed.

Lemma logs_grows w w' outcome : logs w outcome → grows w w' → logs w' outcome.
Proof.
  destruct outcome as [m|err]; [done |]. cbn. intros Hin [lines ->].
  apply elem_of_app. by left.
Qed.

Lemma handleMediae_loop workID lang mediae w analyzed :
  ∃ outcomes w',
    fold_left (λ '(w, analyzed) media,
                 match HandleMedia X workID media lang w with
                 | (w, inr err) => (LogError (errorMessage err) w, analyzed)
                 | (w, inl m) => (w, analyzed ++ [m])
                 end)
      mediae (w, analyzed)
    = (w', analyzed ++ kept outcomes)
    ∧ Forall2 (outcomeOf X workID lang) mediae outcomes
    ∧ (appendsToLog X → grows w w' ∧ Forall (logs w') outcomes).
Proof.
  revert w analyzed. induction mediae as [|media mediae IH]; intros w analyzed.
  - exists [], w. cbn. rewrite app_nil_r. split; [done |]. split; [constructor |].
    intros _. split; [apply grows_refl | constructor].
  - cbn [fold_left].
    destruct (HandleMedia X workID media lang w) as [w1 [m|err]] eqn:Hhandled.
    + destruct (IH w1 (analyzed ++ [m])) as (outcomes & w' & -> & Hall & Hlog).
      exists (inl m :: outcomes), w'. split; [by rewrite <- app_assoc |]. split.
      * constructor; [|done]. exists w. by rewrite Hhandled.
      * intros Happends. destruct (Hlog Happends) as [Hgrows Hlogged].
        split; [|by constructor].
        eapply grows_trans; [|exact Hgrows].
        pose proof (Happends workID media lang w) as Hstep. by rewrite Hhandled in Hstep.
    + destruct (IH (LogError (errorMessage err) w1) analyzed)
        as (outcomes & w' & -> & Hall & Hlog).
      exists (inr err :: outcomes), w'. split; [done |]. split.
      * constructor; [|done]. exists w. by rewrite Hhandled.
      * intros Happends. destruct (Hlog Happends) as [Hgrows Hlogged]. split.
        -- eapply grows_trans; [|exact Hgrows].
           eapply grows_trans; [|apply grows_LogError].
           pose proof (Happends workID media lang w) as Hstep. by rewrite Hhandled in Hstep.
        -- constructor; [|done].
           apply (logs_grows (LogError (errorMessage err) w1)); [|done].
           cbn. apply elem_of_app. right. constructor.
Qed.

Lemma handleAllMediae_loop workID (declarations : list (string * list MediaEmbedDeclaration.t))
    (w : OS.World) (analyzedMediae : gmap string (list Media.t)) :
  NoDup declarations.*1 →
  ∃ w' result,
    fold_left (λ '(w, analyzedMediae) '(lang, mediae),
                 let '(w, analyzed) := handleMediae X workID lang mediae w in
                 (w, <[lang := analyzed]> (analyzedMediae : gmap string (list Media.t))))
      declarations (w, analyzedMediae) = (w', result)
    ∧ (∀ lang mediae, (lang, mediae) ∈ declarations →
         ∃ outcomes,
           Forall2 (outcomeOf X workID lang) mediae outcomes
           ∧ result !! lang = Some (kept outcomes)
           ∧ (appendsToLog X → Forall (logs w') outcomes))
    ∧ (∀ lang, (lang ∉ declarations.*1) → result !! lang = analyzedMediae !! lang)
    ∧ (appendsToLog X → grows w w').
Proof.
  revert w analyzedMediae.
  induction declarations as [|[lang mediae] declarations IH]; intros w analyzedMediae Hnodup.
  - exists w, analyzedMediae. cbn. split; [done |].
    split; [by intros ? ? ?%elem_of_nil |]. split; [done |]. intros _. apply grows_refl.
  - rewrite fmap_cons in Hnodup. apply NoDup_cons in Hnodup as [Hfresh Hnodup].
    cbn [fold_left]. unfold handleMediae at 2.
    destruct (handleMediae_loop workID lang mediae w [])
      as (outcomes & w1 & -> & Hall & Hlog). cbn [app].
    destruct (IH w1 (<[lang := kept outcomes]> analyzedMediae) Hnodup)
      as (w' & result & -> & Hin & Hout & Hgrows).
    exists w', result. split; [done |]. split; [|split].
    + intros lang' mediae' [[= -> ->]|Hrest]%elem_of_cons; [|by apply Hin].
      exists outcomes. split; [done |]. split.
      * rewrite (Hout lang Hfresh). apply lookup_insert_eq.
      * intros Happends. destruct (Hlog Happends) as [_ Hlogged].
        eapply Forall_impl; [exact Hlogged |]. intros outcome Houtcome.
        eapply logs_grows; [exact Houtcome | by apply Hgrows].
    + intros lang' Hnotin. rewrite fmap_cons in Hnotin.
      apply not_elem_of_cons in Hnotin as [Hne Hnotin].
      rewrite (Hout lang' Hnotin). by apply lookup_insert_ne.
    + intros Happends. destruct (Hlog Happends) as [Hgrows1 _].
      eapply grows_trans; [exact Hgrows1 | by apply Hgrows].
Qed.

End HandlingMediae.



(** ** What the preparation writes *)

